(** * AnaFlow: the well-flow solutions of [anaflow/gwsolutions.py]

    A shallow embedding of [lap_transgwflow_cyl], [theis] and [diskmodel],
    of the steady-state solutions [thiem], [ext_thiem2D] and [ext_thiem3D],
    and of [ext_theis2D] and [ext_theis3D].

    - Numbers are IEEE binary64 values ([PrimFloat.float]), the type of
      Python floats and of numpy's float64.
    - numpy arrays of rank 0 and 1 are modelled with their shape, since
      [np.squeeze], [len] and indexing depend on it.
    - Python exceptions are values of an error monad.
    - The modified Bessel functions and the sparse solver come from scipy;
      they are the fields of a record [Externals] every solver definition is
      parameterised by. The elementary functions of the steady-state
      solutions ([Numerics]) and the helpers of the package ([Helpers],
      [Collaborators]) are parameters in the same way. *)

From Stdlib Require Import ZArith List Bool String Lia Floats.
From stdpp Require Import base list.
Import ListNotations.

Set Warnings "-inexact-float".

Local Open Scope Z_scope.

(** ** Python exceptions and the error monad *)

(** The messages of numpy's own exceptions are shortened. *)
Inductive exn : Type :=
| TypeError (msg : string)
| IndexError (msg : string)
| ValueError (msg : string)
| OverflowError (msg : string).

Inductive result (A : Type) : Type :=
| Ok (a : A)
| Raise (e : exn).
Arguments Ok {A} a.
Arguments Raise {A} e.

Definition bind {A B : Type} (m : result A) (k : A -> result B) : result B :=
  match m with
  | Ok a => k a
  | Raise e => Raise e
  end.

Notation "'let*' x ':=' m 'in' k" := (bind m (fun x => k))
  (at level 10, x name, m at level 100, k at level 200, only parsing).
Notation "'let*' ' p ':=' m 'in' k" :=
  (bind m (fun x => match x with p => k end))
  (at level 10, p pattern, m at level 100, k at level 200, only parsing).

(** [for x in xs: st = body(st, x)], stopping at the first exception. *)
Fixpoint for_each {A St : Type} (xs : list A) (body : St -> A -> result St)
    (st : St) : result St :=
  match xs with
  | [] => Ok st
  | x :: xs' => let* st' := body st x in for_each xs' body st'
  end.

(** ** numpy arrays of rank 0 and 1 *)

Inductive ndarray : Type :=
| Arr0 (x : float)
| Arr1 (l : list float).

(** [np.squeeze]: axes of length one are removed, so a one-element vector
    becomes a rank-0 array. *)
Definition squeeze (a : ndarray) : ndarray :=
  match a with
  | Arr1 [x] => Arr0 x
  | _ => a
  end.

Definition shape (a : ndarray) : list nat :=
  match a with
  | Arr0 _ => []
  | Arr1 l => [length l]
  end.

(** [a.reshape(-1)] *)
Definition elems (a : ndarray) : list float :=
  match a with
  | Arr0 x => [x]
  | Arr1 l => l
  end.

(** [len(a)]: a rank-0 array has no length. *)
Definition len (a : ndarray) : result nat :=
  match a with
  | Arr0 _ => Raise (TypeError "len() of unsized object")
  | Arr1 l => Ok (length l)
  end.

(** Python's index normalisation on an axis of length [n]. *)
Definition norm_index (n : nat) (i : Z) : result nat :=
  if (0 <=? i) && (i <? Z.of_nat n) then Ok (Z.to_nat i)
  else if (i <? 0) && (- Z.of_nat n <=? i) then Ok (Z.to_nat (Z.of_nat n + i))
  else Raise (IndexError "index out of bounds").

Definition list_get (l : list float) (i : Z) : result float :=
  let* j := norm_index (length l) i in
  match l !! j with
  | Some x => Ok x
  | None => Raise (IndexError "index out of bounds")
  end.

(** [a[i]] for an integer [i]. *)
Definition getitem (a : ndarray) (i : Z) : result float :=
  match a with
  | Arr0 _ => Raise (IndexError "too many indices for array")
  | Arr1 l => list_get l i
  end.

(** [l[i] = v] *)
Definition list_set (l : list float) (i : Z) (v : float) : result (list float) :=
  let* j := norm_index (length l) i in
  Ok (<[j := v]> l).

(** ** scipy: Bessel functions and the sparse solver *)

Record Externals : Type := {
  i0 : float -> float;
  i1 : float -> float;
  k0 : float -> float;
  k1 : float -> float;
  (** [sps.linalg.spsolve(M, V)]: the matrix is given densely, row by row;
      the result is read by index. *)
  spsolve : list (list float) -> list float -> nat -> float
}.

(** [np.pi] *)
Definition pi : float := 0x1.921fb54442d18p+1%float.

Definition isfinite (x : float) : bool := PrimFloat.is_finite x.

(** [a[np.logical_not(np.isfinite(a))] = 0.0], for one entry. *)
Definition mask_nonfinite (x : float) : float :=
  if isfinite x then x else 0%float.

(** ** [lap_transgwflow_cyl]: the homogeneous branch ([parts == 1]) *)

Section SingleZone.
Context (E : Externals).
Local Open Scope float_scope.

(** The coefficients [(Cs, As, Bs)] of one Laplace point [se]. *)
Definition single_zone_coeffs (Q difsr se r0 rN : float)
    : float * float * float :=
  let Cs := sqrt se * difsr in
  let Qs := Q / se in
  if r0 =? 0 then
    let Bs := Qs in
    if rN =? infinity then (Cs, 0, Bs)
    else (Cs, - Qs * k0 E (Cs * rN) / i0 E (Cs * rN), Bs)
  else
    if rN =? infinity then
      (Cs, 0, Qs / (Cs * r0 * k1 E (Cs * r0)))
    else
      let det := i1 E (Cs * r0) * k0 E (Cs * rN)
                 + k1 E (Cs * r0) * i0 E (Cs * rN) in
      (Cs,
       - Qs / (Cs * r0) * k0 E (Cs * rN) / det,
       Qs / (Cs * r0) * i0 E (Cs * rN) / det).

(** The head of one radius; [res] was initialised with zeros. *)
Definition single_zone_head (Cs As Bs rN re : float) : float :=
  if re <? rN then As * i0 E (Cs * re) + Bs * k0 E (Cs * re) else 0.

(** One iteration of [for si, se in np.ndenumerate(s)]. *)
Definition single_zone_row (Q difsr : float) (rpart rad : ndarray)
    (se : float) : result (list float) :=
  let* r0 := getitem rpart 0 in
  let* rN := getitem rpart (-1) in
  let '(Cs, As, Bs) := single_zone_coeffs Q difsr se r0 rN in
  Ok (map (single_zone_head Cs As Bs rN) (elems rad)).

Definition lap_single_zone (Q : float) (s rad rpart Spart Tpart : ndarray)
    : result (list (list float)) :=
  let* S0 := getitem Spart 0 in
  let* T0 := getitem Tpart 0 in
  let difsr := sqrt (S0 / T0) in
  for_each (elems s)
    (fun res se => let* row := single_zone_row Q difsr rpart rad se in
                   Ok (res ++ [row]))
    [].
End SingleZone.

(** ** [lap_transgwflow_cyl]: the equation system of several zones *)

(** Elementwise operations of two vectors under numpy's broadcasting rule:
    equal lengths, or one operand of length one. *)
Definition broadcast (f : float -> float -> float) (l1 l2 : list float)
    : result (list float) :=
  if Nat.eqb (length l1) (length l2) then
    Ok (map (fun p => f (fst p) (snd p)) (combine l1 l2))
  else match l1, l2 with
       | [x], _ => Ok (map (f x) l2)
       | _, [y] => Ok (map (fun x => f x y) l1)
       | _, _ => Raise (ValueError "operands could not be broadcast together")
       end.

(** [a[:-1]] and [a[1:]]; a rank-0 array cannot be sliced. *)
Definition slice_init (a : ndarray) : result (list float) :=
  match a with
  | Arr0 _ => Raise (IndexError "too many indices for array")
  | Arr1 l => Ok (removelast l)
  end.

Definition slice_tail (a : ndarray) : result (list float) :=
  match a with
  | Arr0 _ => Raise (IndexError "too many indices for array")
  | Arr1 l => Ok (tail l)
  end.

(** The banded storage [Mb], a [5 x 2*parts] array. *)
Abbreviation band := (list (list float)).

Definition lookup0 (l : list float) (j : nat) : float :=
  match l !! j with Some x => x | None => 0%float end.

Definition band_get (Mb : band) (k j : nat) : float :=
  match Mb !! k with Some row => lookup0 row j | None => 0%float end.

(** [Mb[k, j] = v] *)
Definition band_set (Mb : band) (k j : Z) (v : float) : result band :=
  let* kk := norm_index (length Mb) k in
  match Mb !! kk with
  | Some row => let* row' := list_set row j v in Ok (<[kk := row']> Mb)
  | None => Raise (IndexError "index out of bounds")
  end.

(** [Mb[k, j:j+2] = [a, b]]: the slice must hold two cells. *)
Definition band_set2 (Mb : band) (k j : Z) (a b : float) : result band :=
  let* kk := norm_index (length Mb) k in
  match Mb !! kk with
  | Some row =>
      if (0 <=? j) && (j + 1 <? Z.of_nat (length row)) then
        Ok (<[kk := <[Z.to_nat (j + 1) := b]> (<[Z.to_nat j := a]> row)]> Mb)
      else Raise (ValueError "could not broadcast input array into slice")
  | None => Raise (IndexError "index out of bounds")
  end.

(** [sps.spdiags(Mb, [2, 1, 0, -1, -2], n, n)]: the entry of row [i] and
    column [j] is [Mb[k, j]] for the diagonal [diagpos[k] = j - i]. *)
Definition spdiags_entry (Mb : band) (i j : nat) : float :=
  let d := Z.of_nat j - Z.of_nat i in
  if (-2 <=? d) && (d <=? 2) then band_get Mb (Z.to_nat (2 - d)) j
  else 0%float.

Definition spdiags (Mb : band) (n : nat) : list (list float) :=
  map (fun i => map (fun j => spdiags_entry Mb i j) (seq 0 n)) (seq 0 n).

Section MultiZone.
Context (E : Externals).
Local Open Scope float_scope.

(** One pass of [for i in range(parts-1)]: the two rows of the interface
    between zone [i] and zone [i+1]. *)
Definition interface_rows (rpart : ndarray) (Cs tmp : list float)
    (Mb : band) (i : nat) : result band :=
  let z := Z.of_nat i in
  let* c1 := list_get Cs (z + 1) in
  let* r := getitem rpart (z + 1) in
  let* Mb := band_set Mb 0 (2 * z + 3) (- k0 E (c1 * r)) in
  let* Mb := band_set2 Mb 1 (2 * z + 2) (- i0 E (c1 * r)) (k1 E (c1 * r)) in
  let* c := list_get Cs z in
  let* Mb := band_set2 Mb 2 (2 * z + 1) (k0 E (c * r)) (- i1 E (c1 * r)) in
  let* t := list_get tmp z in
  let* Mb := band_set2 Mb 3 (2 * z) (i0 E (c * r)) (- t * k1 E (c * r)) in
  band_set Mb 4 (2 * z) (t * i1 E (c * r)).

(** The boundary rows and the interface rows of one Laplace point. *)
Definition assemble_system (parts : nat) (Q : float) (rpart : ndarray)
    (Cs tmp : list float) (se : float) (Mb : band) (V : list float)
    : result (band * list float) :=
  let* V := list_set V 0 (Q / se) in
  let* r0 := getitem rpart 0 in
  let* Mb :=
    if 0 <? r0 then
      let* c0 := list_get Cs 0 in
      let* Mb := band_set Mb 1 1 (c0 * r0 * k1 E (c0 * r0)) in
      band_set Mb 0 2 (- c0 * r0 * i1 E (c0 * r0))
    else Ok Mb in
  let* rN := getitem rpart (-1) in
  let* Mb :=
    if rN <? infinity then
      let* cN := list_get Cs (-1) in
      let* Mb := band_set Mb (-3) (-1) (k0 E (cN * rN)) in
      band_set Mb (-2) (-2) (i0 E (cN * rN))
    else Ok Mb in
  let* Mb := for_each (seq 0 (parts - 1)) (interface_rows rpart Cs tmp) Mb in
  Ok (Mb, V).

(** [X[np.logical_not(np.isfinite(X))] = 0.0] *)
Definition solve (Mb : band) (V : list float) (parts : nat) (j : nat) : float :=
  mask_nonfinite (spsolve E (spdiags Mb (2 * parts)) V j).

(** [for i in range(parts): if rpart[i] <= re < rpart[i+1]: res = ...];
    the chained comparison reads [rpart[i+1]] only when its first half
    holds. *)
Definition zone_head (rpart : ndarray) (Cs : list float) (X : nat -> float)
    (re : float) (h : float) (i : nat) : result float :=
  let z := Z.of_nat i in
  let* lo := getitem rpart z in
  if lo <=? re then
    let* hi := getitem rpart (z + 1) in
    if re <? hi then
      let* c := list_get Cs z in
      Ok (X (2 * i)%nat * i0 E (c * re) + X (2 * i + 1)%nat * k0 E (c * re))
    else Ok h
  else Ok h.

Definition multi_zone_head (parts : nat) (rpart : ndarray) (Cs : list float)
    (X : nat -> float) (re : float) : result float :=
  for_each (seq 0 parts) (zone_head rpart Cs X re) 0.

Definition multi_zone_row (parts : nat) (rpart : ndarray) (Cs : list float)
    (X : nat -> float) (rad : ndarray) : result (list float) :=
  for_each (elems rad)
    (fun row re => let* h := multi_zone_head parts rpart Cs X re in
                   Ok (row ++ [h]))
    [].

(** The loop state: [Mb] and [V] are allocated once and written in every
    pass; [res] collects one row per Laplace point. *)
Definition multi_zone_step (parts : nat) (Q : float) (rpart rad : ndarray)
    (difsr tmp : list float)
    (st : band * list float * list (list float)) (se : float)
    : result (band * list float * list (list float)) :=
  let '(Mb, V, res) := st in
  let Cs := map (fun d => sqrt se * d) difsr in
  let* '(Mb, V) := assemble_system parts Q rpart Cs tmp se Mb V in
  let X := solve Mb V parts in
  let* row := multi_zone_row parts rpart Cs X rad in
  Ok (Mb, V, res ++ [row]).

Definition lap_multi_zone (parts : nat) (Q : float)
    (s rad rpart Spart Tpart : ndarray) : result (list (list float)) :=
  let V := replicate (2 * parts) 0 in
  let Mb := replicate 5 (replicate (2 * parts) 0) in
  let* Mb := band_set Mb 1 1 1 in
  let* Mb := band_set Mb (-2) (-2) 1 in
  let* Ti := slice_init Tpart in
  let* Tt := slice_tail Tpart in
  let* Tfrac := broadcast div Ti Tt in
  let* ST := broadcast div (elems Spart) (elems Tpart) in
  let difsr := map sqrt ST in
  let* num := broadcast mul Tfrac (removelast difsr) in
  let* tmp := broadcast div num (tail difsr) in
  let* '(_, _, res) :=
    for_each (elems s) (multi_zone_step parts Q rpart rad difsr tmp)
      (Mb, V, []) in
  Ok (map (map mask_nonfinite) res).
End MultiZone.

(** ** [lap_transgwflow_cyl] *)

Definition lap_transgwflow_cyl (E : Externals)
    (s rad rpart Spart Tpart : ndarray) (Qw : float)
    : result (list (list float)) :=
  let s := squeeze s in
  let rad := squeeze rad in
  let rpart := squeeze rpart in
  let Spart := squeeze Spart in
  let Tpart := squeeze Tpart in
  let* parts := len Tpart in
  let* T0 := getitem Tpart 0 in
  let Q := (Qw / (2 * pi * T0))%float in
  if Nat.eqb parts 1 then lap_single_zone E Q s rad rpart Spart Tpart
  else lap_multi_zone E parts Q s rad rpart Spart Tpart.

(** ** [theis] and [diskmodel] *)

(** The values [stehfestn] may hold. *)
Inductive pyval : Type :=
| PyInt (z : Z)
| PyBool (b : bool)
| PyFloat (x : float)
| PyNone.

(** [isinstance(v, int)]; [bool] is a subclass of [int]. *)
Definition isinstance_int (v : pyval) : bool :=
  match v with
  | PyInt _ | PyBool _ => true
  | _ => false
  end.

Definition int_of (v : pyval) : Z :=
  match v with
  | PyInt z => z
  | PyBool b => if b then 1 else 0
  | _ => 0
  end.

(** The arrays [theis] and [diskmodel] return, of rank 0, 1 or 2. *)
Inductive output : Type :=
| Out0 (x : float)
| Out1 (v : list float)
| Out2 (g : list (list float)).

(** [anaflow.laplace.stehfest] and [anaflow.helper.well_solution], which
    live in other modules of the package. [sf func time bound]: [func] is the Laplace
    space function with its keyword arguments bound. *)
Record Collaborators : Type := {
  sf : (ndarray -> result (list (list float))) -> list float -> Z
       -> result output;
  well_solution : ndarray -> list float -> float -> float -> float
                  -> result output
}.

(** The calls of the collaborators, in order. *)
Inductive event : Type :=
| CallStehfest
| CallWellSolution.

Fixpoint diag_from (k : nat) (g : list (list float)) : list float :=
  match g with
  | [] => []
  | row :: g' =>
      match row !! k with
      | Some x => x :: diag_from (S k) g'
      | None => []
      end
  end.

(** [np.diag]: the diagonal of a matrix, or the matrix of a diagonal. *)
Definition np_diag (a : output) : result output :=
  match a with
  | Out0 _ => Raise (ValueError "Input must be 1- or 2-d.")
  | Out1 v =>
      Ok (Out2 (imap (fun i x => <[i := x]> (replicate (length v) 0%float)) v))
  | Out2 g => Ok (Out1 (diag_from 0 g))
  end.

Definition flat (a : output) : list float :=
  match a with
  | Out0 x => [x]
  | Out1 v => v
  | Out2 g => concat g
  end.

(** [a.reshape(shp)] for the shape of an array of rank 0 or 1. *)
Definition np_reshape (a : output) (shp : list nat) : result output :=
  match shp with
  | [] => match flat a with
          | [x] => Ok (Out0 x)
          | _ => Raise (ValueError "cannot reshape array")
          end
  | [n] => if Nat.eqb (length (flat a)) n then Ok (Out1 (flat a))
           else Raise (ValueError "cannot reshape array")
  | _ => Raise (ValueError "cannot reshape array")
  end.

(** [res += hinf] *)
Definition out_add (a : output) (h : float) : output :=
  match a with
  | Out0 x => Out0 (x + h)%float
  | Out1 v => Out1 (map (fun x => x + h)%float v)
  | Out2 g => Out2 (map (map (fun x => x + h)%float) g)
  end.

(** [all(Rpart[i] < Rpart[i+1] for i in range(len(Rpart)-1))] *)
Fixpoint increasing (l : list float) : bool :=
  match l with
  | a :: (b :: _) as l' => (a <? b)%float && increasing l'
  | _ => true
  end.

(** The constraints on the arguments, in the order they are checked. *)
Inductive constraint : Type :=
| CWell | CUpper | CSorted | CAboveWell | CBelowOuter | CRadii | CTimes
| CShape | CTrans | CStor | CInt | CGreater1 | CEven.

Definition diskmodel_message (c : constraint) : string :=
  match c with
  | CWell => "The wellradius needs to be >= 0"
  | CUpper => "The upper boundary needs to be greater than the wellradius"
  | CSorted => "The radii of the zones need to be sorted"
  | CAboveWell =>
      "The radii of the zones need to be greater than the wellradius"
  | CBelowOuter =>
      "The radii of the zones need to be less than the outer radius"
  | CRadii => "The given radii need to be greater than the wellradius"
  | CTimes => "The given times need to be >= 0"
  | CShape =>
      "For unstructured grid the number of time- & radii-pts must equal"
  | CTrans => "The Transmissivities need to be positiv"
  | CStor => "The Storages need to be positiv"
  | CInt => "The boundary for the Stehfest-algorithm needs to be an integer"
  | CGreater1 => "The boundary for the Stehfest-algorithm needs to be > 1"
  | CEven => "The boundary for the Stehfest-algorithm needs to be even"
  end.

Definition theis_message (c : constraint) : string :=
  match c with
  | CTimes => "The given times need to be > 0"
  | CTrans => "The Transmissivity needs to be positiv"
  | CStor => "The Storage needs to be positiv"
  | _ => diskmodel_message c
  end.

(** The condition under which a constraint counts as violated. *)
Definition violates (c : constraint) (rad time Tpart Spart Rpart : list float)
    (struc_grid : bool) (rwell rinf : float) (stehfestn : pyval) : bool :=
  match c with
  | CWell => (rwell <? 0)%float
  | CUpper => (rinf <=? rwell)%float
  | CSorted => negb (increasing Rpart)
  | CAboveWell => existsb (fun r => r <=? rwell)%float Rpart
  | CBelowOuter => existsb (fun r => rinf <=? r)%float Rpart
  | CRadii => existsb (fun r => r <? rwell)%float rad
              || existsb (fun r => r <=? 0)%float rad
  | CTimes => existsb (fun t => t <=? 0)%float time
  | CShape => negb struc_grid && negb (Nat.eqb (length rad) (length time))
  | CTrans => existsb (fun T => T <=? 0)%float Tpart
  | CStor => existsb (fun S => S <=? 0)%float Spart
  | CInt => negb (isinstance_int stehfestn)
  | CGreater1 => isinstance_int stehfestn && (int_of stehfestn <=? 1)
  | CEven => isinstance_int stehfestn
             && negb (int_of stehfestn mod 2 =? 0)
  end.

(** The checks of [diskmodel], one [if ...: raise ValueError] after the
    other: the first violated constraint. *)
Definition diskmodel_check (rad time Tpart Spart Rpart : list float)
    (struc_grid : bool) (rwell rinf : float) (stehfestn : pyval)
    : option constraint :=
  if (rwell <? 0)%float then Some CWell
  else if (rinf <=? rwell)%float then Some CUpper
  else if negb (increasing Rpart) then Some CSorted
  else if existsb (fun r => r <=? rwell)%float Rpart then Some CAboveWell
  else if existsb (fun r => rinf <=? r)%float Rpart then Some CBelowOuter
  else if existsb (fun r => r <? rwell)%float rad
          || existsb (fun r => r <=? 0)%float rad then Some CRadii
  else if existsb (fun t => t <=? 0)%float time then Some CTimes
  else if negb struc_grid && negb (Nat.eqb (length rad) (length time))
       then Some CShape
  else if existsb (fun T => T <=? 0)%float Tpart then Some CTrans
  else if existsb (fun S => S <=? 0)%float Spart then Some CStor
  else if negb (isinstance_int stehfestn) then Some CInt
  else if int_of stehfestn <=? 1 then Some CGreater1
  else if negb (int_of stehfestn mod 2 =? 0) then Some CEven
  else None.

(** The checks of [theis]. *)
Definition theis_check (rad time : list float) (T S : float)
    (struc_grid : bool) (rwell rinf : float) (stehfestn : pyval)
    : option constraint :=
  if (rwell <? 0)%float then Some CWell
  else if (rinf <=? rwell)%float then Some CUpper
  else if existsb (fun r => r <? rwell)%float rad
          || existsb (fun r => r <=? 0)%float rad then Some CRadii
  else if existsb (fun t => t <=? 0)%float time then Some CTimes
  else if negb struc_grid && negb (Nat.eqb (length rad) (length time))
       then Some CShape
  else if (T <=? 0)%float then Some CTrans
  else if (S <=? 0)%float then Some CStor
  else if negb (isinstance_int stehfestn) then Some CInt
  else if int_of stehfestn <=? 1 then Some CGreater1
  else if negb (int_of stehfestn mod 2 =? 0) then Some CEven
  else None.

(** The tail both functions share: the diagonal of the grid for paired
    points, unless [rad] was a scalar, and the reference head. *)
Definition finish (res : output) (struc_grid : bool) (grid_shape : list nat)
    (hinf : float) : result output :=
  let* res :=
    if negb struc_grid && Nat.ltb 0 (length grid_shape) then
      let* d := np_diag res in np_reshape d grid_shape
    else Ok res in
  Ok (out_add res hinf).

Section Orchestration.
Context (C : Collaborators) (E : Externals).

Definition diskmodel (rad : ndarray) (time Tpart Spart Rpart : list float)
    (Qw : float) (struc_grid : bool) (rwell rinf hinf : float)
    (stehfestn : pyval) : list event * result output :=
  let rad := squeeze rad in
  let grid_shape := shape rad in
  let rad := if struc_grid then rad else Arr1 (elems rad) in
  match diskmodel_check (elems rad) time Tpart Spart Rpart struc_grid
          rwell rinf stehfestn with
  | Some c => ([], Raise (ValueError (diskmodel_message c)))
  | None =>
      let rpart := Arr1 ((rwell :: Rpart) ++ [rinf]) in
      let lap := fun s =>
        lap_transgwflow_cyl E s rad rpart (Arr1 Spart) (Arr1 Tpart) Qw in
      ([CallStehfest],
       let* res := sf C lap time (int_of stehfestn) in
       finish res struc_grid grid_shape hinf)
  end.

Definition theis (rad : ndarray) (time : list float) (T S Qw : float)
    (struc_grid : bool) (rwell rinf hinf : float) (stehfestn : pyval)
    : list event * result output :=
  let rad := squeeze rad in
  let grid_shape := shape rad in
  let rad := if struc_grid then rad else Arr1 (elems rad) in
  match theis_check (elems rad) time T S struc_grid rwell rinf stehfestn with
  | Some c => ([], Raise (ValueError (theis_message c)))
  | None =>
      if (rwell =? 0)%float && (rinf =? infinity)%float then
        ([CallWellSolution],
         let* res := well_solution C rad time T S Qw in
         finish res struc_grid grid_shape hinf)
      else
        let lap := fun s =>
          lap_transgwflow_cyl E s rad (Arr1 [rwell; rinf]) (Arr1 [S])
            (Arr1 [T]) Qw in
        ([CallStehfest],
         let* res := sf C lap time (int_of stehfestn) in
         finish res struc_grid grid_shape hinf)
  end.
End Orchestration.

(** ** The steady-state solutions: [thiem], [ext_thiem2D], [ext_thiem3D] *)

(** The elementary functions of numpy and scipy. Each is taken as one
    function of the element, whether numpy applies it to a Python float, to
    a rank-0 array or to the entries of a vector; the power operator is
    kept apart for Python floats, for numpy scalars and for numpy arrays,
    which do not share their code. *)
Record Numerics : Type := {
  np_log : float -> float;
  np_exp : float -> float;
  np_sinh : float -> float;
  np_cosh : float -> float;
  expi : float -> float;
  exp1 : float -> float;
  py_pow : float -> float -> float;
  scalar_power : float -> float -> float;
  np_power : float -> float -> float
}.

(** [x ** y] of two Python floats, for the powers of this file (the
    exponent [2], and [1/3] of a positive base): [py_pow] is the value the C
    library computes, and CPython raises [OverflowError] when both operands
    are finite and the value is not. The powers of numpy never raise. *)
Definition python_pow (N : Numerics) (x y : float) : result float :=
  let v := py_pow N x y in
  if is_finite x && is_finite y && is_infinity v then
    Raise (OverflowError "(34, 'Numerical result out of range')")
  else Ok v.

(** An elementwise operation keeps the rank. *)
Definition nd_map (f : float -> float) (a : ndarray) : ndarray :=
  match a with
  | Arr0 x => Arr0 (f x)
  | Arr1 l => Arr1 (map f l)
  end.

(** [if cond: raise ValueError(msg)], and a run of such statements: the
    message of the first condition that holds. *)
Definition raise_if (cond : bool) (msg : string) : bool * string :=
  (cond, msg).

Fixpoint first_failure (checks : list (bool * string)) : option string :=
  match checks with
  | [] => None
  | (cond, msg) :: checks' => if cond then Some msg else first_failure checks'
  end.

Definition thiem_checks (rad : list float) (Rref T : float)
    : list (bool * string) :=
  [ raise_if (Rref <=? 0)%float
      "The reference-radius needs to be greater than 0";
    raise_if (existsb (fun r => r <=? 0)%float rad)
      "The given radii need to be greater than the wellradius";
    raise_if (T <=? 0)%float
      "The Transmissivity needs to be positiv" ].

(** The head of [thiem] at one radius. *)
Definition thiem_head (N : Numerics) (Rref T Qw href r : float) : float :=
  (- Qw / (2 * pi * T) * np_log N (r / Rref) + href)%float.

Definition thiem (N : Numerics) (rad : ndarray) (Rref T Qw href : float)
    : result ndarray :=
  let rad := squeeze rad in
  match first_failure (thiem_checks (elems rad) Rref T) with
  | Some msg => Raise (ValueError msg)
  | None => Ok (nd_map (thiem_head N Rref T Qw href) rad)
  end.

Definition ext_thiem2D_checks (rad : list float) (Rref TG sig2 corr : float)
    (Twell : option float) (prop : float) : list (bool * string) :=
  [ raise_if (Rref <=? 0)%float
      "The upper boundary needs to be greater than the wellradius";
    raise_if (existsb (fun r => r <=? 0)%float rad)
      "The given radii need to be greater than the wellradius";
    raise_if (TG <=? 0)%float
      "The Transmissivity needs to be positiv";
    raise_if (match Twell with Some t => (t <=? 0)%float | None => false end)
      "The Transmissivity at the well needs to be positiv";
    raise_if (sig2 <=? 0)%float
      "The variance needs to be positiv";
    raise_if (corr <=? 0)%float
      "The correlationlength needs to be positiv";
    raise_if (prop <=? 0)%float
      "The proportionalityfactor needs to be positiv" ].

(** The head of [ext_thiem2D] at one radius, with the substitutions [chi],
    [Q] and [C]; [res] is updated in place four times. [py_pow N Rref 2] is
    the value of [Rref**2], which [ext_thiem2D] has found not to raise. *)
Definition ext_thiem2D_head (N : Numerics) (Rref chi Q C href r : float)
    : float :=
  (let res := - expi N (- chi / (1 + C * np_power N r 2)) in
   let res := res - np_exp N (- chi)
                    * exp1 N (chi / (1 + C * np_power N r 2) - chi) in
   let res := res + expi N (- chi / (1 + C * py_pow N Rref 2)) in
   let res := res + np_exp N (- chi)
                    * exp1 N (chi / (1 + C * py_pow N Rref 2) - chi) in
   let res := res * Q in
   res + href)%float.

Definition ext_thiem2D (N : Numerics) (rad : ndarray)
    (Rref TG sig2 corr Qw href : float) (Twell : option float) (prop : float)
    : result ndarray :=
  let rad := squeeze rad in
  match first_failure
          (ext_thiem2D_checks (elems rad) Rref TG sig2 corr Twell prop) with
  | Some msg => Raise (ValueError msg)
  | None =>
      let chi := match Twell with
                 | Some t => (np_log N t - np_log N TG)%float
                 | None => (- sig2 / 2)%float
                 end in
      let Q := (- Qw / (4 * pi * TG))%float in
      let* C := python_pow N (prop / corr)%float 2%float in
      let* _ := python_pow N Rref 2%float in
      Ok (nd_map (ext_thiem2D_head N Rref chi Q C href) rad)
  end.

(** The values [Kwell] may hold: a string, a float, or anything else. *)
Inductive kwell : Type :=
| KwStr (s : string)
| KwFloat (x : float)
| KwOther.

(** [Kwell == name] *)
Definition kwell_is (Kwell : kwell) (name : string) : bool :=
  match Kwell with
  | KwStr s => String.eqb s name
  | _ => false
  end.

(** [isinstance(Kwell, float)] *)
Definition kwell_float (Kwell : kwell) : bool :=
  match Kwell with
  | KwFloat _ => true
  | _ => false
  end.

(** [isinstance(Kwell, float) and Kwell <= 0.] *)
Definition kwell_nonpositive (Kwell : kwell) : bool :=
  match Kwell with
  | KwFloat k => (k <=? 0)%float
  | _ => false
  end.

(** The functions of [anaflow.helper], which live in another module of the
    package; any of them may raise. *)
Record Helpers : Type := {
  aniso : float -> result float;
  radii : Z -> float -> float -> float -> result (ndarray * ndarray);
  T_CG : ndarray -> float -> float -> float -> float -> option float
         -> result ndarray;
  T_CG_error : float -> float -> float -> float -> float -> option float
               -> result float;
  K_CG : ndarray -> float -> float -> float -> float -> float -> kwell
         -> result ndarray;
  K_CG_error : float -> float -> float -> float -> float -> float -> kwell
               -> result float
}.

Definition ext_thiem3D_checks (rad : list float)
    (Rref KG sig2 corr e L : float) (Kwell : kwell) (prop : float)
    : list (bool * string) :=
  [ raise_if (Rref <=? 0)%float
      "The upper boundary needs to be greater than the wellradius";
    raise_if (existsb (fun r => r <=? 0)%float rad)
      "The given radii need to be greater than the wellradius";
    raise_if (negb (kwell_is Kwell "KA") && negb (kwell_is Kwell "KH")
              && negb (kwell_float Kwell))
      "The well-conductivity should be given as float or 'KA' resp 'KH'";
    raise_if (kwell_nonpositive Kwell)
      "The well-conductivity needs to be positiv";
    raise_if (KG <=? 0)%float
      "The Transmissivity needs to be positiv";
    raise_if (sig2 <=? 0)%float
      "The variance needs to be positiv";
    raise_if (corr <=? 0)%float
      "The correlationlength needs to be positiv";
    raise_if (L <=? 0)%float
      "The aquifer-thickness needs to be positiv";
    raise_if (negb ((0 <? e)%float && (e <=? 1)%float))
      "The anisotropy-ratio must be > 0 and <= 1";
    raise_if (prop <=? 0)%float
      "The proportionalityfactor needs to be positiv" ].

(** The head of [ext_thiem3D] at one radius. [pw] is the power operator of
    [sub12], a numpy scalar when [rad] has rank 0 and an array otherwise;
    [py_pow N Rref 2] is the value of [Rref**2], which [ext_thiem3D] has
    found not to raise. *)
Definition ext_thiem3D_head (N : Numerics) (pw : float -> float -> float)
    (Rref chi Q C href r : float) : float :=
  (let sub11 := sqrt (1 + C * py_pow N Rref 2) in
   let sub12 := sqrt (1 + C * np_power N r 2) in
   let sub21 := np_log N (sub12 + 1) - np_log N (sub11 + 1) in
   let sub21 := sub21 - (1 / sub12 - 1 / sub11) in
   let sub22 := np_log N sub12 - np_log N sub11 in
   let sub22 := sub22 - (0.5 / pw sub12 2 - 0.5 / scalar_power N sub11 2) in
   let sub22 := sub22 - (0.25 / pw sub12 4 - 0.25 / scalar_power N sub11 4) in
   let res := np_exp N (- chi) * (np_log N r - np_log N Rref) in
   let res := res + (sub21 * np_sinh N chi + sub22 * (1 - np_cosh N chi)) in
   let res := res * Q in
   res + href)%float.

(** [e**(1/3)] is positive for the positive [e] the checks let through, so
    the division by it does not raise. *)
Definition ext_thiem3D (N : Numerics) (H : Helpers) (rad : ndarray)
    (Rref KG sig2 corr e Qw L href : float) (Kwell : kwell) (prop : float)
    : result ndarray :=
  let rad := squeeze rad in
  match first_failure
          (ext_thiem3D_checks (elems rad) Rref KG sig2 corr e L Kwell prop)
  with
  | Some msg => Raise (ValueError msg)
  | None =>
      let* a := aniso H e in
      let Kefu := (KG * np_exp N (sig2 * (0.5 - a)))%float in
      let* chi :=
        if kwell_is Kwell "KH" then
          let* a := aniso H e in Ok (sig2 * (a - 1))%float
        else if kwell_is Kwell "KA" then
          let* a := aniso H e in Ok (sig2 * a)%float
        else match Kwell with
             | KwFloat k => Ok (np_log N k - np_log N Kefu)%float
             | _ => Raise (TypeError "ufunc 'log' not supported for the input")
             end in
      let Q := (- Qw / (2 * pi * Kefu))%float in
      let* p := python_pow N e (1 / 3)%float in
      let* C := python_pow N (prop / corr / p)%float 2%float in
      let* _ := python_pow N Rref 2%float in
      let pw := match rad with
                | Arr0 _ => scalar_power N
                | Arr1 _ => np_power N
                end in
      Ok (nd_map (ext_thiem3D_head N pw Rref chi Q C href) rad)
  end.

(** ** [ext_theis2D] and [ext_theis3D] *)

(** The calls of the helpers and of the Stehfest routine, in order. *)
Inductive helper_call : Type :=
| CallTCGError | CallRadii | CallTCG | CallKCGError | CallKCG | CallLaplace.

(** A call that is recorded; an exception ends the run. *)
Definition call_then {A B : Type} (c : helper_call) (m : result A)
    (k : A -> list helper_call * result B) : list helper_call * result B :=
  match m with
  | Ok a => let '(tr, r) := k a in (c :: tr, r)
  | Raise e => ([c], Raise e)
  end.

(** The checks [ext_theis2D] and [ext_theis3D] share with [theis]. *)
Definition grid_checks (rad time : list float) (struc_grid : bool)
    (rwell rinf : float) : list (bool * string) :=
  [ raise_if (rwell <? 0)%float
      "The wellradius needs to be >= 0";
    raise_if (rinf <=? rwell)%float
      "The upper boundary needs to be greater than the wellradius";
    raise_if (existsb (fun r => r <? rwell)%float rad
              || existsb (fun r => r <=? 0)%float rad)
      "The given radii need to be greater than the wellradius";
    raise_if (existsb (fun t => t <=? 0)%float time)
      "The given times need to be >= 0";
    raise_if (negb struc_grid && negb (Nat.eqb (length rad) (length time)))
      "For unstructured grid the number of time- & radii-pts must equal" ].

(** The checks of [stehfestn], [parts] and the relative error. The
    comparisons of [stehfestn] and of [parts] are reached for integers
    only. *)
Definition partition_checks (stehfestn parts : pyval) (err : float)
    : list (bool * string) :=
  [ raise_if (negb (isinstance_int stehfestn))
      "The boundary for the Stehfest-algorithm needs to be an integer";
    raise_if (isinstance_int stehfestn && (int_of stehfestn <=? 1))
      "The boundary for the Stehfest-algorithm needs to be > 1";
    raise_if (isinstance_int stehfestn
              && negb (int_of stehfestn mod 2 =? 0))
      "The boundary for the Stehfest-algorithm needs to be even";
    raise_if (negb (isinstance_int parts))
      "The numbor of partitions needs to be an integer";
    raise_if (isinstance_int parts && (int_of parts <=? 1))
      "The numbor of partitions needs to be at least 2";
    raise_if (negb ((0 <? err)%float && (err <? 1)%float))
      "The relative error of Transmissivity needs to be within (0,1)" ].

Definition ext_theis2D_checks (rad time : list float)
    (TG sig2 corr S : float) (struc_grid : bool) (rwell rinf : float)
    (Twell : option float) (T_err prop : float) (stehfestn parts : pyval)
    : list (bool * string) :=
  grid_checks rad time struc_grid rwell rinf ++
  [ raise_if (TG <=? 0)%float
      "The Transmissivity needs to be positiv";
    raise_if (match Twell with Some t => (t <=? 0)%float | None => false end)
      "The Transmissivity at the well needs to be positiv";
    raise_if (sig2 <=? 0)%float
      "The variance needs to be positiv";
    raise_if (corr <=? 0)%float
      "The correlationlength needs to be positiv";
    raise_if (S <=? 0)%float
      "The Storage needs to be positiv";
    raise_if (prop <=? 0)%float
      "The proportionalityfactor needs to be positiv" ] ++
  partition_checks stehfestn parts T_err.

Definition ext_theis3D_checks (rad time : list float)
    (KG sig2 corr S L : float) (struc_grid : bool) (rwell rinf : float)
    (Kwell : kwell) (K_err prop : float) (stehfestn parts : pyval)
    : list (bool * string) :=
  grid_checks rad time struc_grid rwell rinf ++
  [ raise_if (negb (kwell_is Kwell "KA") && negb (kwell_is Kwell "KH")
              && negb (kwell_float Kwell))
      "The well-conductivity should be given as float or 'KA' resp 'KH'";
    raise_if (kwell_nonpositive Kwell)
      "The well-conductivity needs to be positiv";
    raise_if (KG <=? 0)%float
      "The conductivity needs to be positiv";
    raise_if (sig2 <=? 0)%float
      "The variance needs to be positiv";
    raise_if (corr <=? 0)%float
      "The correlationlength needs to be positiv";
    raise_if (S <=? 0)%float
      "The Storage needs to be positiv";
    raise_if (L <=? 0)%float
      "The aquifer-thickness needs to be positiv";
    raise_if (prop <=? 0)%float
      "The proportionalityfactor needs to be positiv" ] ++
  partition_checks stehfestn parts K_err.

(** [S*np.ones(parts)] *)
Definition uniform_storage (S : float) (parts : pyval) : ndarray :=
  Arr1 (replicate (Z.to_nat (int_of parts)) (S * 1)%float).

Section ExtendedTheis.
Context (C : Collaborators) (H : Helpers) (E : Externals).

Definition ext_theis2D (rad : ndarray) (time : list float)
    (TG sig2 corr S Qw : float) (struc_grid : bool) (rwell rinf hinf : float)
    (Twell : option float) (T_err prop : float) (stehfestn parts : pyval)
    : list helper_call * result output :=
  let rad := squeeze rad in
  let grid_shape := shape rad in
  let rad := if struc_grid then rad else Arr1 (elems rad) in
  match first_failure
          (ext_theis2D_checks (elems rad) time TG sig2 corr S struc_grid
             rwell rinf Twell T_err prop stehfestn parts) with
  | Some msg => ([], Raise (ValueError msg))
  | None =>
      call_then CallTCGError (T_CG_error H T_err TG sig2 corr prop Twell)
        (fun rlast =>
      call_then CallRadii (radii H (int_of parts) rwell rinf rlast)
        (fun '(rpart, fpart) =>
      call_then CallTCG (T_CG H fpart TG sig2 corr prop Twell)
        (fun Tpart =>
      let lap := fun s =>
        lap_transgwflow_cyl E s rad rpart (uniform_storage S parts) Tpart
          Qw in
      call_then CallLaplace (sf C lap time (int_of stehfestn))
        (fun res => ([], finish res struc_grid grid_shape hinf)))))
  end.

Definition ext_theis3D (rad : ndarray) (time : list float)
    (KG sig2 corr e S Qw L : float) (struc_grid : bool)
    (rwell rinf hinf : float) (Kwell : kwell) (K_err prop : float)
    (stehfestn parts : pyval) : list helper_call * result output :=
  let rad := squeeze rad in
  let grid_shape := shape rad in
  let rad := if struc_grid then rad else Arr1 (elems rad) in
  match first_failure
          (ext_theis3D_checks (elems rad) time KG sig2 corr S L struc_grid
             rwell rinf Kwell K_err prop stehfestn parts) with
  | Some msg => ([], Raise (ValueError msg))
  | None =>
      call_then CallKCGError (K_CG_error H K_err KG sig2 corr e prop Kwell)
        (fun rlast =>
      call_then CallRadii (radii H (int_of parts) rwell rinf rlast)
        (fun '(rpart, fpart) =>
      call_then CallKCG (K_CG H fpart KG sig2 corr e prop Kwell)
        (fun Tpart =>
      let lap := fun s =>
        lap_transgwflow_cyl E s rad rpart (uniform_storage S parts) Tpart
          (Qw / L)%float in
      call_then CallLaplace (sf C lap time (int_of stehfestn))
        (fun res => ([], finish res struc_grid grid_shape hinf)))))
  end.
End ExtendedTheis.

(** * Properties *)

(** ** Facts about binary64 comparisons and classes *)

Section FloatFacts.
Local Open Scope float_scope.

Lemma SFcompare_antisym (x y : spec_float) :
  SFcompare y x = option_map CompOpp (SFcompare x y).
Proof.
  destruct x as [sx|sx| |sx mx ex], y as [sy|sy| |sy my ey]; simpl;
    try reflexivity;
    try (destruct sx; reflexivity); try (destruct sy; reflexivity);
    try (destruct sx, sy; reflexivity).
  destruct sx, sy; simpl; try reflexivity;
    rewrite (Z.compare_antisym ey ex);
    destruct (ey ?= ex)%Z; simpl; try reflexivity;
    rewrite (Pos.compare_cont_antisym mx my Eq); simpl;
    destruct (Pos.compare_cont Eq my mx); reflexivity.
Qed.

Lemma leb_ltb_false (a b : float) : (a <=? b) = true -> (b <? a) = false.
Proof.
  rewrite FloatAxioms.leb_spec, FloatAxioms.ltb_spec. unfold SFleb, SFltb.
  rewrite (SFcompare_antisym (Prim2SF a) (Prim2SF b)).
  destruct (SFcompare (Prim2SF a) (Prim2SF b)) as [[]|]; simpl; congruence.
Qed.

Lemma ltb_eqb_false (a b : float) : (a <? b) = true -> (b =? a) = false.
Proof.
  rewrite FloatAxioms.eqb_spec, FloatAxioms.ltb_spec. unfold SFeqb, SFltb.
  rewrite (SFcompare_antisym (Prim2SF a) (Prim2SF b)).
  destruct (SFcompare (Prim2SF a) (Prim2SF b)) as [[]|]; simpl; congruence.
Qed.

Lemma Prim2SF_infinity : Prim2SF infinity = S754_infinity false.
Proof. reflexivity. Qed.

(** The class of a float, read on its specification. *)
Lemma is_finite_spec (x : float) :
  is_finite x = match Prim2SF x with
                | S754_zero _ | S754_finite _ _ _ => true
                | _ => false
                end.
Proof.
  unfold is_finite, is_nan, is_infinity.
  rewrite !FloatAxioms.eqb_spec, FloatAxioms.abs_spec, Prim2SF_infinity.
  destruct (Prim2SF x) as [sx|sx| |sx mx ex]; simpl; try reflexivity.
  - destruct sx; reflexivity.
  - unfold SFeqb. simpl.
    rewrite Z.compare_refl, Pos.compare_cont_refl.
    destruct sx; reflexivity.
Qed.

Lemma finite_ltb_infinity (x : float) :
  is_finite x = true -> (x <? infinity) = true.
Proof.
  rewrite is_finite_spec, FloatAxioms.ltb_spec, Prim2SF_infinity.
  destruct (Prim2SF x) as [sx|sx| |sx mx ex]; simpl; try discriminate;
    reflexivity.
Qed.

Lemma finite_eqb_infinity (x : float) :
  is_finite x = true -> (x =? infinity) = false.
Proof.
  rewrite is_finite_spec, FloatAxioms.eqb_spec, Prim2SF_infinity.
  destruct (Prim2SF x) as [sx|sx| |sx mx ex]; simpl; try discriminate;
    reflexivity.
Qed.

Lemma eqb_infinity_ltb (x : float) :
  (x =? infinity) = true -> (x <? infinity) = false.
Proof.
  rewrite FloatAxioms.ltb_spec, FloatAxioms.eqb_spec, Prim2SF_infinity.
  destruct (Prim2SF x) as [sx|sx| |sx mx ex]; simpl; try discriminate;
    destruct sx; try discriminate; reflexivity.
Qed.

Lemma isfinite_mask (x : float) : isfinite (mask_nonfinite x) = true.
Proof.
  unfold mask_nonfinite. destruct (isfinite x) eqn:Hx; [exact Hx | reflexivity].
Qed.

End FloatFacts.

(** ** Loops that collect one value per element *)

Section Loops.
Context {A B : Type}.

Lemma for_each_collect (f : A -> result B) (g : A -> B) (xs : list A)
    (acc : list B) :
  (forall x, In x xs -> f x = Ok (g x)) ->
  for_each xs (fun res x => let* r := f x in Ok (res ++ [r])) acc
  = Ok (acc ++ map g xs).
Proof.
  revert acc. induction xs as [|x xs IH]; intros acc Hf; simpl.
  - now rewrite app_nil_r.
  - rewrite (Hf x) by now left. simpl.
    rewrite IH by (intros y Hy; apply Hf; now right).
    now rewrite <- app_assoc.
Qed.

Lemma lookup_map (f : A -> B) (l : list A) (i : nat) :
  map f l !! i = option_map f (l !! i).
Proof.
  revert i. induction l as [|x l IH]; intros [|i]; simpl; try reflexivity.
  apply IH.
Qed.
End Loops.

(** ** The homogeneous branch *)

Section SingleZoneFacts.
Context (E : Externals).
Local Open Scope float_scope.

Lemma single_zone_row_ok (Q difsr : float) (rpart rad : ndarray)
    (se r0 rN : float) :
  getitem rpart 0 = Ok r0 ->
  getitem rpart (-1) = Ok rN ->
  single_zone_row E Q difsr rpart rad se
  = Ok (let '(Cs, As, Bs) := single_zone_coeffs E Q difsr se r0 rN in
        map (single_zone_head E Cs As Bs rN) (elems rad)).
Proof.
  intros H0 HN. unfold single_zone_row. rewrite H0, HN. simpl.
  now destruct (single_zone_coeffs E Q difsr se r0 rN) as [[Cs As] Bs].
Qed.

Lemma lap_single_zone_ok (Q : float) (s rad rpart Spart Tpart : ndarray)
    (r0 rN S0 T0 : float) :
  getitem rpart 0 = Ok r0 ->
  getitem rpart (-1) = Ok rN ->
  getitem Spart 0 = Ok S0 ->
  getitem Tpart 0 = Ok T0 ->
  lap_single_zone E Q s rad rpart Spart Tpart
  = Ok (map (fun se =>
               let '(Cs, As, Bs) :=
                 single_zone_coeffs E Q (sqrt (S0 / T0)) se r0 rN in
               map (single_zone_head E Cs As Bs rN) (elems rad))
            (elems s)).
Proof.
  intros H0 HN HS HT. unfold lap_single_zone. rewrite HS, HT. simpl.
  rewrite (for_each_collect _
    (fun se => let '(Cs, As, Bs) :=
                 single_zone_coeffs E Q (sqrt (S0 / T0)) se r0 rN in
               map (single_zone_head E Cs As Bs rN) (elems rad))).
  - reflexivity.
  - intros se _. now apply single_zone_row_ok.
Qed.
End SingleZoneFacts.

(** In the homogeneous branch the coefficients of a Laplace point [se]
    are chosen among four cases, by the tests [rpart[0] == 0.0] and
    [rpart[-1] == np.inf]; with [Cs = sqrt(se)*sqrt(S/T)] and
    [Qs = (Qw/(2*pi*T))/se]:
    inner 0, outer infinite: [As = 0], [Bs = Qs];
    inner 0, outer finite: [As = -Qs*K0(Cs*rN)/I0(Cs*rN)], [Bs = Qs];
    inner positive, outer infinite: [As = 0], [Bs = Qs/(Cs*r0*K1(Cs*r0))];
    inner positive, outer finite: both from the closure with determinant
    [I1(Cs*r0)*K0(Cs*rN) + K1(Cs*r0)*I0(Cs*rN)]. *)
Lemma single_zone_coeffs_cases (E : Externals) (Qw S T se r0 rN : float) :
  let Q := (Qw / (2 * pi * T))%float in
  let Cs := (sqrt se * sqrt (S / T))%float in
  let Qs := (Q / se)%float in
  let det := (i1 E (Cs * r0) * k0 E (Cs * rN)
              + k1 E (Cs * r0) * i0 E (Cs * rN))%float in
  let coeffs := single_zone_coeffs E Q (sqrt (S / T)) se r0 rN in
  ((r0 =? 0)%float = true /\ (rN =? infinity)%float = true ->
     coeffs = (Cs, 0%float, Qs)) /\
  ((r0 =? 0)%float = true /\ is_finite rN = true ->
     coeffs = (Cs, (- Qs * k0 E (Cs * rN) / i0 E (Cs * rN))%float, Qs)) /\
  ((0 <? r0)%float = true /\ (rN =? infinity)%float = true ->
     coeffs = (Cs, 0%float, (Qs / (Cs * r0 * k1 E (Cs * r0)))%float)) /\
  ((0 <? r0)%float = true /\ is_finite rN = true ->
     coeffs = (Cs, (- Qs / (Cs * r0) * k0 E (Cs * rN) / det)%float,
                   (Qs / (Cs * r0) * i0 E (Cs * rN) / det)%float)).
Proof.
  cbv zeta. unfold single_zone_coeffs.
  repeat split; intros [H0 HN];
    try (apply ltb_eqb_false in H0);
    try (apply finite_eqb_infinity in HN);
    now rewrite H0, HN.
Qed.

(** The homogeneous branch, run on vectors it can index: a radius below
    the outer boundary gets [As*I0(Cs*r) + Bs*K0(Cs*r)] and a radius at or
    beyond it gets exactly zero. *)
Lemma lap_single_zone_zero_fill (E : Externals) (Q : float)
    (s rad rpart Spart Tpart : ndarray) (r0 rN S0 T0 : float) :
  getitem rpart 0 = Ok r0 ->
  getitem rpart (-1) = Ok rN ->
  getitem Spart 0 = Ok S0 ->
  getitem Tpart 0 = Ok T0 ->
  exists res,
    lap_single_zone E Q s rad rpart Spart Tpart = Ok res /\
    length res = length (elems s) /\
    forall si se, elems s !! si = Some se ->
      exists row,
        res !! si = Some row /\
        length row = length (elems rad) /\
        forall ri re, elems rad !! ri = Some re ->
          let '(Cs, As, Bs) :=
            single_zone_coeffs E Q (sqrt (S0 / T0)) se r0 rN in
          ((re <? rN)%float = true ->
             row !! ri = Some (As * i0 E (Cs * re) + Bs * k0 E (Cs * re))%float)
          /\ ((rN <=? re)%float = true -> row !! ri = Some 0%float).
Proof.
  intros H0 HN HS HT.
  eexists. split; [now apply (lap_single_zone_ok E Q s rad rpart Spart Tpart r0 rN S0 T0)|].
  split; [now rewrite length_map|].
  intros si se Hse. rewrite lookup_map, Hse. simpl.
  eexists. split; [reflexivity|].
  destruct (single_zone_coeffs E Q (sqrt (S0 / T0)) se r0 rN) as [[Cs As] Bs].
  split; [now rewrite length_map|].
  intros ri re Hre. rewrite lookup_map, Hre. simpl. unfold single_zone_head.
  split; intros Hcmp.
  - now rewrite Hcmp.
  - now rewrite (leb_ltb_false _ _ Hcmp).
Qed.

Lemma elems_squeeze (a : ndarray) : elems (squeeze a) = elems a.
Proof. destruct a as [x|[|x [|y l]]]; reflexivity. Qed.

(** ** C1, C8: the homogeneous branch is not reached *)

(** C1 (code). The four cases are never selected. [len(Tpart)] is taken
    after [np.squeeze], which leaves no array of length one: a single
    transmissivity, given as a one-element vector or as a scalar, ends the
    call with the [TypeError] of [len], and a call that returns has at
    least two transmissivities and is the run of the equation system. The
    coefficients of the claim are those of [single_zone_coeffs], which no
    call evaluates. *)
Theorem C1_four_cases_never_selected (E : Externals)
    (s rad rpart Spart Tpart : ndarray) (Qw : float) :
  (forall n, len (squeeze Tpart) = Ok n -> n <> 1%nat) /\
  (forall T, Tpart = Arr1 [T] \/ Tpart = Arr0 T ->
     lap_transgwflow_cyl E s rad rpart Spart Tpart Qw
     = Raise (TypeError "len() of unsized object")) /\
  (forall res,
     lap_transgwflow_cyl E s rad rpart Spart Tpart Qw = Ok res ->
     exists Tl T0,
       Tpart = Arr1 Tl /\ (2 <= length Tl)%nat /\ Tl !! 0%nat = Some T0 /\
       lap_multi_zone E (length Tl) (Qw / (2 * pi * T0))%float (squeeze s)
         (squeeze rad) (squeeze rpart) (squeeze Spart) (Arr1 Tl) = Ok res).
Proof.
  split; [|split].
  - intros n. destruct Tpart as [x|[|a [|b l]]]; simpl; intros H;
      try discriminate H; injection H as <-; lia.
  - intros T [->| ->]; reflexivity.
  - intros res. destruct Tpart as [x|[|a [|b l]]]; try discriminate.
    intros Hrun. exists (a :: b :: l), a.
    split; [reflexivity|]. split; [simpl; lia|]. split; [reflexivity|].
    exact Hrun.
Qed.

(** C8 (code). One zone with the boundaries [r0] and [rN], given as the
    vectors [rpart = [r0, rN]], [Spart = [S]] and [Tpart = [T]]: the call
    ends with the [TypeError] of [len(Tpart)], for every radius, below the
    outer boundary or beyond. The homogeneous branch, had it been run on
    these vectors, gives a radius below [rN] the value
    [As*I0(Cs*r) + Bs*K0(Cs*r)] and a radius at or beyond [rN] exactly
    zero. *)
Theorem C8_zero_fill_unreached (E : Externals) (s rad : ndarray)
    (r0 rN S T Qw : float) :
  let Q := (Qw / (2 * pi * T))%float in
  lap_transgwflow_cyl E s rad (Arr1 [r0; rN]) (Arr1 [S]) (Arr1 [T]) Qw
  = Raise (TypeError "len() of unsized object") /\
  exists res,
    lap_single_zone E Q (squeeze s) (squeeze rad) (Arr1 [r0; rN]) (Arr1 [S])
      (Arr1 [T]) = Ok res /\
    forall si se ri re,
      elems s !! si = Some se -> elems rad !! ri = Some re ->
      exists row,
        res !! si = Some row /\
        let '(Cs, As, Bs) := single_zone_coeffs E Q (sqrt (S / T)) se r0 rN in
        ((re <? rN)%float = true ->
           row !! ri = Some (As * i0 E (Cs * re) + Bs * k0 E (Cs * re))%float)
        /\ ((rN <=? re)%float = true -> row !! ri = Some 0%float).
Proof.
  intros Q. split; [reflexivity|].
  destruct (lap_single_zone_zero_fill E Q (squeeze s) (squeeze rad)
              (Arr1 [r0; rN]) (Arr1 [S]) (Arr1 [T]) r0 rN S T)
    as (res & Hrun & _ & Hrows); try reflexivity.
  exists res. split; [exact Hrun|].
  intros si se ri re Hse Hre.
  rewrite <- elems_squeeze in Hse. rewrite <- elems_squeeze in Hre.
  destruct (Hrows si se Hse) as (row & Hrow & _ & Hcells).
  exists row. split; [exact Hrow|]. exact (Hcells ri re Hre).
Qed.

(** ** The banded storage: reads after writes *)

Section BandFacts.
Implicit Types (Mb : band) (row : list float) (v : float).

(** [Mb] has five rows of [n] cells. *)
Definition band_shape (n : nat) (Mb : band) : Prop :=
  length Mb = 5%nat /\ forall k row, Mb !! k = Some row -> length row = n.

Lemma norm_index_nonneg (n : nat) (i : Z) :
  0 <= i < Z.of_nat n -> norm_index n i = Ok (Z.to_nat i).
Proof.
  intros H. unfold norm_index.
  destruct (Z.leb_spec 0 i), (Z.ltb_spec i (Z.of_nat n)); simpl;
    try lia; reflexivity.
Qed.

Lemma norm_index_neg (n : nat) (i : Z) :
  - Z.of_nat n <= i < 0 -> norm_index n i = Ok (Z.to_nat (Z.of_nat n + i)).
Proof.
  intros H. unfold norm_index.
  destruct (Z.leb_spec 0 i), (Z.ltb_spec i (Z.of_nat n)),
    (Z.ltb_spec i 0), (Z.leb_spec (- Z.of_nat n) i); simpl;
    try lia; reflexivity.
Qed.

Lemma lookup0_insert row (jj j : nat) v :
  (jj < length row)%nat ->
  lookup0 (<[jj := v]> row) j = if Nat.eqb j jj then v else lookup0 row j.
Proof.
  intros Hlt. unfold lookup0.
  destruct (Nat.eqb_spec j jj) as [->|Hne].
  - now rewrite (list_lookup_insert_eq row jj v Hlt).
  - now rewrite (list_lookup_insert_ne row jj j v) by congruence.
Qed.

Lemma band_get_insert Mb (kk : nat) row row' (k j : nat) :
  Mb !! kk = Some row ->
  band_get (<[kk := row']> Mb) k j
  = if Nat.eqb k kk then lookup0 row' j else band_get Mb k j.
Proof.
  intros Hrow. unfold band_get.
  destruct (Nat.eqb_spec k kk) as [->|Hne].
  - rewrite (list_lookup_insert_eq Mb kk row'); [reflexivity|].
    now apply lookup_lt_Some in Hrow.
  - now rewrite (list_lookup_insert_ne Mb kk k row') by congruence.
Qed.

Lemma band_shape_insert (n : nat) Mb (kk : nat) row' :
  band_shape n Mb -> length row' = n -> band_shape n (<[kk := row']> Mb).
Proof.
  intros [H5 Hrows] Hlen. split; [now rewrite length_insert|].
  intros k row Hk. destruct (Nat.eq_dec k kk) as [->|Hne].
  - destruct (Nat.lt_ge_cases kk (length Mb)) as [Hlt|Hge].
    + rewrite (list_lookup_insert_eq Mb kk row' Hlt) in Hk. congruence.
    + rewrite (list_insert_ge Mb kk row' Hge) in Hk. eauto.
  - rewrite (list_lookup_insert_ne Mb kk k row') in Hk by congruence. eauto.
Qed.

Lemma band_shape_row (n : nat) Mb (kk : nat) :
  band_shape n Mb -> (kk < 5)%nat ->
  exists row, Mb !! kk = Some row /\ length row = n.
Proof.
  intros [H5 Hrows] Hk.
  destruct (lookup_lt_is_Some_2 Mb kk) as [row Hrow]; [lia|].
  exists row. split; [exact Hrow | eauto].
Qed.

(** A write of a cell inside the array: it succeeds, keeps the shape and
    changes that cell only. *)
Lemma band_set_spec (n : nat) Mb (k j : Z) (kk jj : nat) v :
  band_shape n Mb ->
  norm_index 5 k = Ok kk -> (kk < 5)%nat ->
  norm_index n j = Ok jj -> (jj < n)%nat ->
  exists Mb',
    band_set Mb k j v = Ok Mb' /\ band_shape n Mb' /\
    forall k' j', band_get Mb' k' j'
      = if Nat.eqb k' kk && Nat.eqb j' jj then v else band_get Mb k' j'.
Proof.
  intros Hs Hk Hkk Hj Hjj.
  destruct (band_shape_row n Mb kk Hs Hkk) as (row & Hrow & Hlen).
  exists (<[kk := <[jj := v]> row]> Mb).
  unfold band_set, list_set. destruct Hs as [H5 Hrows].
  rewrite H5, Hk. simpl. rewrite Hrow, Hlen, Hj. simpl.
  split; [reflexivity|]. split.
  - apply band_shape_insert; [now split | now rewrite length_insert].
  - intros k' j'. rewrite (band_get_insert Mb kk row _ k' j' Hrow).
    destruct (Nat.eqb_spec k' kk) as [->|Hne]; simpl; [|reflexivity].
    rewrite lookup0_insert by lia.
    destruct (Nat.eqb j' jj); [reflexivity|].
    unfold band_get. now rewrite Hrow.
Qed.

(** A write of two neighbouring cells inside the array. *)
Lemma band_set2_spec (n : nat) Mb (k j : Z) (kk : nat) (a b : float) :
  band_shape n Mb ->
  norm_index 5 k = Ok kk -> (kk < 5)%nat ->
  0 <= j -> j + 1 < Z.of_nat n ->
  exists Mb',
    band_set2 Mb k j a b = Ok Mb' /\ band_shape n Mb' /\
    forall k' j', band_get Mb' k' j'
      = if Nat.eqb k' kk && Nat.eqb j' (Z.to_nat j) then a
        else if Nat.eqb k' kk && Nat.eqb j' (Z.to_nat j + 1) then b
        else band_get Mb k' j'.
Proof.
  intros Hs Hk Hkk Hj0 Hj1.
  destruct (band_shape_row n Mb kk Hs Hkk) as (row & Hrow & Hlen).
  eexists. unfold band_set2. destruct Hs as [H5 Hrows].
  rewrite H5, Hk. simpl. rewrite Hrow, Hlen.
  destruct (Z.leb_spec 0 j), (Z.ltb_spec (j + 1) (Z.of_nat n)); simpl;
    try lia.
  split; [reflexivity|]. split.
  - apply band_shape_insert; [now split | now rewrite !length_insert].
  - intros k' j'. rewrite (band_get_insert Mb kk row _ k' j' Hrow).
    destruct (Nat.eqb_spec k' kk) as [->|Hne]; simpl; [|reflexivity].
    rewrite lookup0_insert by (rewrite length_insert; lia).
    rewrite lookup0_insert by lia.
    replace (Z.to_nat (j + 1)) with (Z.to_nat j + 1)%nat by lia.
    destruct (Nat.eqb_spec j' (Z.to_nat j + 1)) as [->|Hne1].
    + destruct (Nat.eqb_spec (Z.to_nat j + 1) (Z.to_nat j)); [lia|reflexivity].
    + destruct (Nat.eqb j' (Z.to_nat j)); [reflexivity|].
      unfold band_get. now rewrite Hrow.
Qed.

Lemma band_shape_zeros (n : nat) :
  band_shape n (replicate 5 (replicate n 0%float)).
Proof.
  split; [reflexivity|]. intros k row Hk.
  apply lookup_replicate in Hk as [-> _]. apply length_replicate.
Qed.

Lemma band_get_zeros (n k j : nat) :
  band_get (replicate 5 (replicate n 0%float)) k j = 0%float.
Proof.
  unfold band_get, lookup0.
  destruct (replicate 5 (replicate n 0%float) !! k) as [row|] eqn:Hk;
    [|reflexivity].
  apply lookup_replicate in Hk as [-> _].
  destruct (replicate n 0%float !! j) as [x|] eqn:Hj; [|reflexivity].
  now apply lookup_replicate in Hj as [-> _].
Qed.
End BandFacts.

(** ** The assembled system *)

Section AssemblyFacts.
Context (E : Externals).

Lemma list_get_ok (l : list float) (i : nat) (x : float) :
  l !! i = Some x -> list_get l (Z.of_nat i) = Ok x.
Proof.
  intros Hx. unfold list_get.
  rewrite norm_index_nonneg
    by (apply lookup_lt_Some in Hx; lia).
  simpl. now rewrite Nat2Z.id, Hx.
Qed.

Lemma list_get_zero (l : list float) (x : float) :
  l !! 0%nat = Some x -> list_get l 0 = Ok x.
Proof. apply (list_get_ok l 0). Qed.

Lemma list_get_last (l : list float) (x : float) :
  l !! (length l - 1)%nat = Some x -> list_get l (-1) = Ok x.
Proof.
  intros Hx. unfold list_get.
  rewrite norm_index_neg by (apply lookup_lt_Some in Hx; lia).
  simpl.
  replace (Z.to_nat (Z.of_nat (length l) + -1)) with (length l - 1)%nat
    by (apply lookup_lt_Some in Hx; lia).
  now rewrite Hx.
Qed.

(** The cells of [Mb] that pass [i] of the interface loop writes. *)
Definition interface_writes (i k j : nat) : bool :=
  match k with
  | 0%nat => Nat.eqb j (2 * i + 3)
  | 1%nat => Nat.eqb j (2 * i + 2) || Nat.eqb j (2 * i + 3)
  | 2%nat => Nat.eqb j (2 * i + 1) || Nat.eqb j (2 * i + 2)
  | 3%nat => Nat.eqb j (2 * i) || Nat.eqb j (2 * i + 1)
  | 4%nat => Nat.eqb j (2 * i)
  | _ => false
  end.

(** The value pass [i] writes to a cell of [interface_writes]. *)
Definition interface_value (c c1 r t : float) (i k j : nat) : float :=
  match k with
  | 0%nat => - k0 E (c1 * r)
  | 1%nat => if Nat.eqb j (2 * i + 2) then - i0 E (c1 * r) else k1 E (c1 * r)
  | 2%nat => if Nat.eqb j (2 * i + 1) then k0 E (c * r) else - i1 E (c1 * r)
  | 3%nat => if Nat.eqb j (2 * i) then i0 E (c * r) else - t * k1 E (c * r)
  | _ => t * i1 E (c * r)
  end%float.

Lemma interface_rows_spec (n : nat) (R Cs tmp : list float) (Mb : band)
    (i : nat) (c c1 r t : float) :
  band_shape n Mb -> (2 * i + 3 < n)%nat ->
  Cs !! i = Some c -> Cs !! (i + 1)%nat = Some c1 ->
  R !! (i + 1)%nat = Some r -> tmp !! i = Some t ->
  exists Mb',
    interface_rows E (Arr1 R) Cs tmp Mb i = Ok Mb' /\ band_shape n Mb' /\
    forall k j, band_get Mb' k j
      = if interface_writes i k j then interface_value c c1 r t i k j
        else band_get Mb k j.
Proof.
  intros Hs Hn Hc Hc1 Hr Ht. unfold interface_rows. simpl getitem.
  replace (Z.of_nat i + 1) with (Z.of_nat (i + 1)) by lia.
  rewrite (list_get_ok Cs _ c1 Hc1), (list_get_ok R _ r Hr),
    (list_get_ok Cs _ c Hc), (list_get_ok tmp _ t Ht).
  simpl bind.
  destruct (band_set_spec n Mb 0 (2 * Z.of_nat i + 3) 0 (2 * i + 3)
              (- k0 E (c1 * r))%float Hs) as (Mb1 & -> & Hs1 & G1);
    [reflexivity | lia
    | rewrite norm_index_nonneg by lia; f_equal; lia | lia |].
  simpl bind.
  destruct (band_set2_spec n Mb1 1 (2 * Z.of_nat i + 2) 1
              (- i0 E (c1 * r))%float (k1 E (c1 * r))%float Hs1)
    as (Mb2 & -> & Hs2 & G2); [reflexivity | lia | lia | lia |].
  simpl bind.
  destruct (band_set2_spec n Mb2 2 (2 * Z.of_nat i + 1) 2
              (k0 E (c * r))%float (- i1 E (c1 * r))%float Hs2)
    as (Mb3 & -> & Hs3 & G3); [reflexivity | lia | lia | lia |].
  simpl bind.
  destruct (band_set2_spec n Mb3 3 (2 * Z.of_nat i) 3
              (i0 E (c * r))%float (- t * k1 E (c * r))%float Hs3)
    as (Mb4 & -> & Hs4 & G4); [reflexivity | lia | lia | lia |].
  simpl bind.
  destruct (band_set_spec n Mb4 4 (2 * Z.of_nat i) 4 (2 * i)
              (t * i1 E (c * r))%float Hs4) as (Mb5 & -> & Hs5 & G5);
    [reflexivity | lia
    | rewrite norm_index_nonneg by lia; f_equal; lia | lia |].
  exists Mb5. split; [reflexivity|]. split; [exact Hs5|].
  intros k j. rewrite G5, G4, G3, G2, G1.
  replace (Z.to_nat (2 * Z.of_nat i)) with (2 * i)%nat by lia.
  replace (Z.to_nat (2 * Z.of_nat i + 1)) with (2 * i + 1)%nat by lia.
  replace (Z.to_nat (2 * Z.of_nat i + 2)) with (2 * i + 2)%nat by lia.
  destruct k as [|[|[|[|[|k]]]]]; simpl; try reflexivity;
    repeat match goal with
           | |- context [Nat.eqb ?a ?b] => destruct (Nat.eqb_spec a b)
           end; simpl; try reflexivity; lia.
Qed.
End AssemblyFacts.

Section AssemblyLoop.
Context (E : Externals).

Lemma for_each_app {A St : Type} (xs ys : list A)
    (body : St -> A -> result St) (st : St) :
  for_each (xs ++ ys) body st
  = let* st' := for_each xs body st in for_each ys body st'.
Proof.
  revert st. induction xs as [|x xs IH]; intros st; simpl; [reflexivity|].
  destruct (body st x) as [st'|e]; simpl; [apply IH | reflexivity].
Qed.

Lemma lookup0_Some (l : list float) (i : nat) :
  (i < length l)%nat -> l !! i = Some (lookup0 l i).
Proof.
  intros Hlt. unfold lookup0.
  destruct (lookup_lt_is_Some_2 l i Hlt) as [x Hx]. now rewrite Hx.
Qed.

(** What the first [m] passes of the interface loop leave in a cell that
    held [old]: the passes run in order, a later write wins. *)
Fixpoint interface_cells (R Cs tmp : list float) (m k j : nat)
    (old : float) : float :=
  match m with
  | O => old
  | S m' =>
      if interface_writes m' k j then
        interface_value E (lookup0 Cs m') (lookup0 Cs (m' + 1))
          (lookup0 R (m' + 1)) (lookup0 tmp m') m' k j
      else interface_cells R Cs tmp m' k j old
  end.

Lemma interface_loop_spec (n : nat) (R Cs tmp : list float) (m : nat) :
  forall Mb : band,
  band_shape n Mb -> (2 * m + 1 < n)%nat ->
  (m < length Cs)%nat -> (m < length R)%nat -> (m <= length tmp)%nat ->
  exists Mb',
    for_each (seq 0 m) (interface_rows E (Arr1 R) Cs tmp) Mb = Ok Mb' /\
    band_shape n Mb' /\
    forall k j, band_get Mb' k j
                = interface_cells R Cs tmp m k j (band_get Mb k j).
Proof.
  induction m as [|m IH]; intros Mb Hs Hn HCs HR Htmp.
  - exists Mb. simpl. auto.
  - destruct (IH Mb Hs) as (Mb1 & Hrun & Hs1 & G1); try lia.
    rewrite seq_S, for_each_app, Hrun. simpl.
    destruct (interface_rows_spec E n R Cs tmp Mb1 m
                (lookup0 Cs m) (lookup0 Cs (m + 1))
                (lookup0 R (m + 1)) (lookup0 tmp m) Hs1)
      as (Mb2 & -> & Hs2 & G2);
      try (apply lookup0_Some; lia); try lia.
    exists Mb2. split; [reflexivity|]. split; [exact Hs2|].
    intros k j. rewrite G2, G1. reflexivity.
Qed.

Lemma interface_cells_frame (R Cs tmp : list float) (m k j : nat)
    (old : float) :
  (forall i, (i < m)%nat -> interface_writes i k j = false) ->
  interface_cells R Cs tmp m k j old = old.
Proof.
  induction m as [|m IH]; intros Hw; simpl; [reflexivity|].
  rewrite Hw by lia. apply IH. intros i Hi. apply Hw. lia.
Qed.

Lemma interface_cells_value (R Cs tmp : list float) (m i k j : nat)
    (old : float) :
  (i < m)%nat -> interface_writes i k j = true ->
  interface_cells R Cs tmp m k j old
  = interface_value E (lookup0 Cs i) (lookup0 Cs (i + 1))
      (lookup0 R (i + 1)) (lookup0 tmp i) i k j.
Proof.
  induction m as [|m IH]; intros Hi Hw; [lia|]. simpl.
  destruct (Nat.eq_dec i m) as [->|Hne]; [now rewrite Hw|].
  assert (interface_writes m k j = false) as ->; [|apply IH; [lia|exact Hw]].
  assert (i < m)%nat as Him by lia. clear IH Hi Hne.
  destruct k as [|[|[|[|[|k]]]]]; simpl in *; try reflexivity;
    repeat match goal with
           | H : context [Nat.eqb ?a ?b] |- _ => destruct (Nat.eqb_spec a b)
           | |- context [Nat.eqb ?a ?b] => destruct (Nat.eqb_spec a b)
           end; simpl in *; try reflexivity; try discriminate; lia.
Qed.
End AssemblyLoop.

Section AssembleSystem.
Context (E : Externals).

(** What the two boundary blocks leave in a cell that held [old]. *)
Definition boundary_cells (n : nat) (r0 rN c0 cN : float) (k j : nat)
    (old : float) : float :=
  let inner :=
    if (0 <? r0)%float then
      if Nat.eqb k 0 && Nat.eqb j 2 then (- c0 * r0 * i1 E (c0 * r0))%float
      else if Nat.eqb k 1 && Nat.eqb j 1 then (c0 * r0 * k1 E (c0 * r0))%float
      else old
    else old in
  if (rN <? infinity)%float then
    if Nat.eqb k 3 && Nat.eqb j (n - 2) then i0 E (cN * rN)%float
    else if Nat.eqb k 2 && Nat.eqb j (n - 1) then k0 E (cN * rN)%float
    else inner
  else inner.

Lemma assemble_system_spec (parts : nat) (Q : float) (R Cs tmp : list float)
    (se : float) (Mb : band) (V : list float) :
  (2 <= parts)%nat ->
  band_shape (2 * parts) Mb -> length V = (2 * parts)%nat ->
  length Cs = parts -> (parts - 1 <= length tmp)%nat ->
  (parts <= length R)%nat ->
  exists Mb',
    assemble_system E parts Q (Arr1 R) Cs tmp se Mb V
    = Ok (Mb', <[0%nat := (Q / se)%float]> V) /\
    band_shape (2 * parts) Mb' /\
    forall k j,
      band_get Mb' k j
      = interface_cells E R Cs tmp (parts - 1) k j
          (boundary_cells (2 * parts) (lookup0 R 0)
             (lookup0 R (length R - 1)) (lookup0 Cs 0)
             (lookup0 Cs (parts - 1)) k j (band_get Mb k j)).
Proof.
  intros Hp Hs HV HCs Htmp HR.
  set (n := (2 * parts)%nat) in *.
  unfold assemble_system, list_set.
  rewrite norm_index_nonneg by lia. simpl bind. simpl getitem.
  rewrite (list_get_zero R (lookup0 R 0)) by (apply lookup0_Some; lia).
  rewrite (list_get_last R (lookup0 R (length R - 1)))
    by (apply lookup0_Some; lia).
  simpl bind.
  (* the inner boundary *)
  assert (exists Mb1,
    (if (0 <? lookup0 R 0)%float
     then let* c0 := list_get Cs 0 in
          let* Mb0 := band_set Mb 1 1
                        (c0 * lookup0 R 0 * k1 E (c0 * lookup0 R 0))%float in
          band_set Mb0 0 2
            (- c0 * lookup0 R 0 * i1 E (c0 * lookup0 R 0))%float
     else Ok Mb) = Ok Mb1 /\ band_shape n Mb1 /\
    forall k j, band_get Mb1 k j
      = boundary_cells n (lookup0 R 0) infinity (lookup0 Cs 0)
          (lookup0 Cs (parts - 1)) k j (band_get Mb k j))
    as (Mb1 & -> & Hs1 & G1).
  { unfold boundary_cells.
    replace (infinity <? infinity)%float with false by reflexivity.
    destruct (0 <? lookup0 R 0)%float.
    - rewrite (list_get_zero Cs (lookup0 Cs 0)) by (apply lookup0_Some; lia).
      simpl bind.
      destruct (band_set_spec n Mb 1 1 1 1
                  (lookup0 Cs 0 * lookup0 R 0
                   * k1 E (lookup0 Cs 0 * lookup0 R 0))%float Hs)
        as (Ma & -> & Hsa & Ga);
        [reflexivity | lia | rewrite norm_index_nonneg by lia; reflexivity
        | lia |].
      simpl bind.
      destruct (band_set_spec n Ma 0 2 0 2
                  (- lookup0 Cs 0 * lookup0 R 0
                   * i1 E (lookup0 Cs 0 * lookup0 R 0))%float Hsa)
        as (Mb1 & -> & Hsb & Gb);
        [reflexivity | lia | rewrite norm_index_nonneg by lia; reflexivity
        | lia |].
      exists Mb1. split; [reflexivity|]. split; [exact Hsb|].
      intros k j. rewrite Gb, Ga. reflexivity.
    - exists Mb. auto. }
  simpl bind.
  (* the outer boundary *)
  assert (exists Mb2,
    (if (lookup0 R (length R - 1) <? infinity)%float
     then let* cN := list_get Cs (-1) in
          let* Mb0 := band_set Mb1 (-3) (-1)
                        (k0 E (cN * lookup0 R (length R - 1)))%float in
          band_set Mb0 (-2) (-2)
            (i0 E (cN * lookup0 R (length R - 1)))%float
     else Ok Mb1) = Ok Mb2 /\ band_shape n Mb2 /\
    forall k j, band_get Mb2 k j
      = boundary_cells n (lookup0 R 0) (lookup0 R (length R - 1))
          (lookup0 Cs 0) (lookup0 Cs (parts - 1)) k j (band_get Mb k j))
    as (Mb2 & -> & Hs2 & G2).
  { unfold boundary_cells in *.
    replace (infinity <? infinity)%float with false in G1 by reflexivity.
    destruct (lookup0 R (length R - 1) <? infinity)%float.
    - rewrite (list_get_last Cs (lookup0 Cs (parts - 1)))
        by (rewrite HCs; apply lookup0_Some; lia).
      simpl bind.
      destruct (band_set_spec n Mb1 (-3) (-1) 2 (n - 1)
                  (k0 E (lookup0 Cs (parts - 1)
                         * lookup0 R (length R - 1)))%float Hs1)
        as (Ma & -> & Hsa & Ga);
        [reflexivity | lia
        | rewrite norm_index_neg by lia; f_equal; lia | lia |].
      simpl bind.
      destruct (band_set_spec n Ma (-2) (-2) 3 (n - 2)
                  (i0 E (lookup0 Cs (parts - 1)
                         * lookup0 R (length R - 1)))%float Hsa)
        as (Mb2 & -> & Hsb & Gb);
        [reflexivity | lia
        | rewrite norm_index_neg by lia; f_equal; lia | lia |].
      exists Mb2. split; [reflexivity|]. split; [exact Hsb|].
      intros k j. rewrite Gb, Ga, G1. reflexivity.
    - exists Mb1. auto. }
  simpl bind.
  destruct (interface_loop_spec E n R Cs tmp (parts - 1) Mb2 Hs2)
    as (Mb3 & -> & Hs3 & G3); try lia.
  exists Mb3. split; [reflexivity|]. split; [exact Hs3|].
  intros k j. now rewrite G3, G2.
Qed.
End AssembleSystem.

(** ** The boundary rows of the assembled system *)

Section BoundaryRows.
Context (E : Externals).
Local Open Scope nat_scope.

(** What every pass of the loop over the Laplace points finds in [Mb] and
    [V]: the cells no pass writes still hold their initial value. *)
Definition system_inv (parts : nat) (R : list float) (Mb : band)
    (V : list float) : Prop :=
  band_shape (2 * parts) Mb /\ length V = 2 * parts /\
  (forall j, 1 <= j -> lookup0 V j = 0%float) /\
  band_get Mb 2 0 = 0%float /\
  band_get Mb 4 (2 * parts - 3) = 0%float /\
  ((0 <? lookup0 R 0)%float = false ->
     band_get Mb 1 1 = 1%float /\ band_get Mb 0 2 = 0%float) /\
  ((lookup0 R (length R - 1) <? infinity)%float = false ->
     band_get Mb 3 (2 * parts - 2) = 1%float /\
     band_get Mb 2 (2 * parts - 1) = 0%float).

Ltac no_write :=
  let i := fresh "i" in
  let Hi := fresh "Hi" in
  intros i Hi; unfold interface_writes;
  repeat match goal with
         | |- context [Nat.eqb ?a ?b] => destruct (Nat.eqb_spec a b)
         end; simpl; try reflexivity; lia.

Ltac eval_cell :=
  unfold boundary_cells;
  repeat match goal with
         | |- context [Nat.eqb ?a ?b] => destruct (Nat.eqb_spec a b)
         end; simpl;
  repeat match goal with
         | |- context [if ?b then _ else _] => destruct b
         end; try reflexivity; try lia.

Lemma spdiags_lookup (Mb : band) (n i j : nat) :
  i < n -> j < n ->
  exists row, spdiags Mb n !! i = Some row /\
              row !! j = Some (spdiags_entry Mb i j).
Proof.
  intros Hi Hj. unfold spdiags. eexists. split.
  - rewrite lookup_map, (lookup_seq_lt 0 n i Hi). reflexivity.
  - rewrite lookup_map, (lookup_seq_lt 0 n j Hj). reflexivity.
Qed.

Lemma spdiags_entry_band (Mb : band) (i j : nat) (k : nat) :
  (Z.of_nat j - Z.of_nat i = 2 - Z.of_nat k)%Z -> k <= 4 ->
  spdiags_entry Mb i j = band_get Mb k j.
Proof.
  intros Hd Hk. unfold spdiags_entry. rewrite Hd.
  destruct (Z.leb_spec (-2) (2 - Z.of_nat k)),
    (Z.leb_spec (2 - Z.of_nat k) 2); simpl; try lia.
  f_equal. lia.
Qed.

Lemma spdiags_entry_off (Mb : band) (i j : nat) :
  (Z.of_nat j - Z.of_nat i < -2 \/ 2 < Z.of_nat j - Z.of_nat i)%Z ->
  spdiags_entry Mb i j = 0%float.
Proof.
  intros Hd. unfold spdiags_entry.
  destruct (Z.leb_spec (-2) (Z.of_nat j - Z.of_nat i)),
    (Z.leb_spec (Z.of_nat j - Z.of_nat i) 2); simpl; try lia; reflexivity.
Qed.

(** The state the loop over the Laplace points starts from. *)
Lemma system_inv_init (parts : nat) (R : list float) :
  2 <= parts ->
  exists Mb,
    (let* Mb1 := band_set (replicate 5 (replicate (2 * parts) 0%float))
                   1 1 1%float in
     band_set Mb1 (-2) (-2) 1%float) = Ok Mb /\
    system_inv parts R Mb (replicate (2 * parts) 0%float).
Proof.
  intros Hp.
  destruct (band_set_spec (2 * parts) _ 1 1 1 1 1%float
              (band_shape_zeros (2 * parts)))
    as (Mb1 & -> & Hs1 & G1);
    [reflexivity | lia | rewrite norm_index_nonneg by lia; reflexivity
    | lia |].
  simpl bind.
  destruct (band_set_spec (2 * parts) Mb1 (-2) (-2) 3 (2 * parts - 2)
              1%float Hs1) as (Mb2 & -> & Hs2 & G2);
    [reflexivity | lia | rewrite norm_index_neg by lia; f_equal; lia
    | lia |].
  exists Mb2. split; [reflexivity|].
  repeat split; try exact (proj1 Hs2); try exact (proj2 Hs2);
    try apply length_replicate;
    try (rewrite G2, G1, band_get_zeros;
         repeat match goal with
                | |- context [Nat.eqb ?a ?b] => destruct (Nat.eqb_spec a b)
                end; simpl; try reflexivity; lia).
  intros j Hj. unfold lookup0.
  destruct (replicate (2 * parts) 0%float !! j) as [x|] eqn:Hx;
    [|reflexivity].
  now apply lookup_replicate in Hx as [-> _].
Qed.

Lemma lookup0_insert_ne (l : list float) (i j : nat) (v : float) :
  i <> j -> lookup0 (<[i := v]> l) j = lookup0 l j.
Proof.
  intros Hne. unfold lookup0.
  now rewrite (list_lookup_insert_ne l i j v Hne).
Qed.

(** The assembly keeps [system_inv], and its boundary cells are these. *)
Lemma assemble_system_inv (parts : nat) (Q : float) (R Cs tmp : list float)
    (se : float) (Mb : band) (V : list float) :
  2 <= parts -> parts + 1 <= length R -> length Cs = parts ->
  length tmp = parts - 1 ->
  system_inv parts R Mb V ->
  exists Mb',
    assemble_system E parts Q (Arr1 R) Cs tmp se Mb V
    = Ok (Mb', <[0 := (Q / se)%float]> V) /\
    system_inv parts R Mb' (<[0 := (Q / se)%float]> V) /\
    forall k j,
      (forall i, i < parts - 1 -> interface_writes i k j = false) ->
      band_get Mb' k j
      = boundary_cells E (2 * parts) (lookup0 R 0) (lookup0 R (length R - 1))
          (lookup0 Cs 0) (lookup0 Cs (parts - 1)) k j (band_get Mb k j).
Proof.
  intros Hp HR HCs Htmp (Hs & HV & HV0 & H20 & H4 & Hin & Hout).
  destruct (assemble_system_spec E parts Q R Cs tmp se Mb V)
    as (Mb' & Hrun & Hs' & G); try lia; try assumption.
  assert (forall k j,
    (forall i, i < parts - 1 -> interface_writes i k j = false) ->
    band_get Mb' k j
    = boundary_cells E (2 * parts) (lookup0 R 0) (lookup0 R (length R - 1))
        (lookup0 Cs 0) (lookup0 Cs (parts - 1)) k j (band_get Mb k j))
    as G'.
  { intros k j Hw. rewrite G. now apply interface_cells_frame. }
  exists Mb'. split; [exact Hrun|]. split; [|exact G'].
  split; [exact Hs'|]. split; [now rewrite length_insert|].
  split; [intros j Hj; rewrite lookup0_insert_ne by lia; now apply HV0|].
  split; [rewrite G' by no_write; rewrite H20; eval_cell|].
  split; [rewrite G' by no_write; rewrite H4; eval_cell|].
  split.
  - intros Hr0. destruct (Hin Hr0) as [H11 H02].
    split; rewrite G' by no_write; [rewrite H11 | rewrite H02];
      unfold boundary_cells; rewrite Hr0;
      destruct (lookup0 R (length R - 1) <? infinity)%float;
      repeat match goal with
             | |- context [Nat.eqb ?a ?b] => destruct (Nat.eqb_spec a b)
             end; simpl; try reflexivity; lia.
  - intros HrN. destruct (Hout HrN) as [H3 H2].
    split; rewrite G' by no_write; [rewrite H3 | rewrite H2];
      unfold boundary_cells; rewrite HrN;
      destruct (0 <? lookup0 R 0)%float;
      repeat match goal with
             | |- context [Nat.eqb ?a ?b] => destruct (Nat.eqb_spec a b)
             end; simpl; try reflexivity; lia.
Qed.
End BoundaryRows.

(** The boundary rows of the matrix handed to the solver, [spdiags Mb' n]
    with [n = 2*parts], and of the right-hand side [V']:
    - [rpart[0] > 0]: row [0] holds [Cs[0]*r0*K1(Cs[0]*r0)] in column [1]
      and [-Cs[0]*r0*I1(Cs[0]*r0)] in column [2], and zeros elsewhere;
    - [rpart[-1]] finite: row [n-1] holds [I0(Cs[-1]*rN)] and
      [K0(Cs[-1]*rN)] in the two columns of the last zone, zeros elsewhere,
      and its right-hand side is zero;
    - [rpart[-1]] infinite: row [n-1] holds a one in the column of the
      last zone's I0-coefficient and zeros elsewhere, and its right-hand
      side is zero. *)
Definition boundary_rows_spec (E : Externals) (parts : nat)
    (R Cs : list float) (Mb' : band) (V' : list float) : Prop :=
  let n := (2 * parts)%nat in
  let r0 := lookup0 R 0 in
  let rN := lookup0 R parts in
  let c0 := lookup0 Cs 0 in
  let cN := lookup0 Cs (parts - 1) in
  let M := spdiags_entry Mb' in
  ((0 <? r0)%float = true ->
     M 0 1 = (c0 * r0 * k1 E (c0 * r0))%float /\
     M 0 2 = (- c0 * r0 * i1 E (c0 * r0))%float /\
     forall j, j < n -> j <> 1 -> j <> 2 -> M 0 j = 0%float)%nat /\
  (is_finite rN = true ->
     M (n - 1) (n - 2) = i0 E (cN * rN)%float /\
     M (n - 1) (n - 1) = k0 E (cN * rN)%float /\
     (forall j, j < n -> j <> n - 2 -> j <> n - 1 -> M (n - 1) j = 0%float) /\
     lookup0 V' (n - 1) = 0%float)%nat /\
  ((rN =? infinity)%float = true ->
     M (n - 1) (n - 2) = 1%float /\
     (forall j, j < n -> j <> n - 2 -> M (n - 1) j = 0%float) /\
     lookup0 V' (n - 1) = 0%float)%nat.

Ltac cases_eqb :=
  repeat match goal with
         | |- context [Nat.eqb ?a ?b] => destruct (Nat.eqb_spec a b)
         end; simpl; try reflexivity; try lia.

(** Rewrites with [G] the read of a cell no interface pass writes. *)
Ltac frame_cell G :=
  rewrite G by
    (let i := fresh "i" in
     intros i ?; unfold interface_writes; cases_eqb);
  unfold boundary_cells.

(** For at least two zones and any Laplace point, the assembly from a
    state of the loop gives the boundary rows of [boundary_rows_spec]. *)
Lemma boundary_rows_of_system (E : Externals) (parts : nat) (Q : float)
    (R Cs tmp : list float) (se : float) (Mb : band) (V : list float) :
  (2 <= parts)%nat -> length R = (parts + 1)%nat -> length Cs = parts ->
  length tmp = (parts - 1)%nat ->
  system_inv parts R Mb V ->
  exists Mb' V',
    assemble_system E parts Q (Arr1 R) Cs tmp se Mb V = Ok (Mb', V') /\
    system_inv parts R Mb' V' /\
    boundary_rows_spec E parts R Cs Mb' V'.
Proof.
  intros Hp HR HCs Htmp Hinv.
  destruct (assemble_system_inv E parts Q R Cs tmp se Mb V Hp) as
    (Mb' & Hrun & Hinv' & G); try assumption; try lia.
  replace (length R - 1)%nat with parts in G by lia.
  exists Mb', (<[0%nat := (Q / se)%float]> V).
  split; [exact Hrun|]. split; [exact Hinv'|].
  destruct Hinv as (Hs & HV & HV0 & H20 & H4 & Hin & Hout).
  assert (forall j : nat, (1 <= j)%nat ->
            lookup0 (<[0%nat := (Q / se)%float]> V) j = 0%float) as HV0'.
  { intros j Hj. rewrite lookup0_insert_ne by lia. now apply HV0. }
  unfold boundary_rows_spec. cbv zeta. split; [|split].
  - intros Hr0. split; [|split].
    + rewrite (spdiags_entry_band Mb' 0 1 1) by lia. frame_cell G.
      rewrite Hr0. destruct (lookup0 R parts <? infinity)%float; cases_eqb.
    + rewrite (spdiags_entry_band Mb' 0 2 0) by lia. frame_cell G.
      rewrite Hr0. destruct (lookup0 R parts <? infinity)%float; cases_eqb.
    + intros j Hj Hj1 Hj2. destruct (Nat.eq_dec j 0%nat) as [->|Hj0].
      * rewrite (spdiags_entry_band Mb' 0 0 2) by lia. frame_cell G.
        rewrite Hr0, H20.
        destruct (lookup0 R parts <? infinity)%float; cases_eqb.
      * apply spdiags_entry_off. lia.
  - intros HrN. apply finite_ltb_infinity in HrN. split; [|split; [|split]].
    + rewrite (spdiags_entry_band Mb' _ _ 3) by lia. frame_cell G.
      rewrite HrN. cases_eqb.
    + rewrite (spdiags_entry_band Mb' _ _ 2) by lia. frame_cell G.
      rewrite HrN. cases_eqb.
    + intros j Hj Hj1 Hj2.
      destruct (Nat.eq_dec j (2 * parts - 3)%nat) as [->|Hj3].
      * rewrite (spdiags_entry_band Mb' _ _ 4) by lia. frame_cell G.
        rewrite HrN, H4. destruct (0 <? lookup0 R 0)%float; cases_eqb.
      * apply spdiags_entry_off. lia.
    + apply HV0'. lia.
  - intros HrN. apply eqb_infinity_ltb in HrN.
    assert ((lookup0 R (length R - 1) <? infinity)%float = false) as HrN'
      by (now replace (length R - 1)%nat with parts by lia).
    destruct (Hout HrN') as [H3 H2]. split; [|split].
    + rewrite (spdiags_entry_band Mb' _ _ 3) by lia. frame_cell G.
      rewrite HrN, H3. destruct (0 <? lookup0 R 0)%float; cases_eqb.
    + intros j Hj Hj1.
      destruct (Nat.eq_dec j (2 * parts - 1)%nat) as [->|Hj2];
        [|destruct (Nat.eq_dec j (2 * parts - 3)%nat) as [->|Hj3]].
      * rewrite (spdiags_entry_band Mb' _ _ 2) by lia. frame_cell G.
        rewrite HrN, H2. destruct (0 <? lookup0 R 0)%float; cases_eqb.
      * rewrite (spdiags_entry_band Mb' _ _ 4) by lia. frame_cell G.
        rewrite HrN, H4. destruct (0 <? lookup0 R 0)%float; cases_eqb.
      * apply spdiags_entry_off. lia.
    + apply HV0'. lia.
Qed.

(** ** The heads of the zoned solution *)

Section Heads.
Context (E : Externals).

(** [rpart[i] <= re < rpart[i+1]] *)
Definition in_zone (R : list float) (re : float) (i : nat) : bool :=
  (lookup0 R i <=? re)%float && (re <? lookup0 R (i + 1))%float.

(** [X[2*i]*i0(Cs[i]*re) + X[2*i+1]*k0(Cs[i]*re)] *)
Definition zone_value (Cs : list float) (X : nat -> float) (re : float)
    (i : nat) : float :=
  (X (2 * i)%nat * i0 E (lookup0 Cs i * re)
   + X (2 * i + 1)%nat * k0 E (lookup0 Cs i * re))%float.

(** The head the loop over the zones leaves: the value of the last zone
    whose test holds, or the initial zero. *)
Definition head_of (parts : nat) (R Cs : list float) (X : nat -> float)
    (re : float) : float :=
  fold_left (fun h i => if in_zone R re i then zone_value Cs X re i else h)
    (seq 0 parts) 0%float.

Lemma for_each_pure {A St : Type} (body : St -> A -> result St)
    (f : St -> A -> St) (xs : list A) :
  (forall st x, In x xs -> body st x = Ok (f st x)) ->
  forall st, for_each xs body st = Ok (fold_left f xs st).
Proof.
  induction xs as [|x xs IH]; intros Hb st; simpl; [reflexivity|].
  rewrite (Hb st x) by now left. simpl.
  apply IH. intros st' y Hy. apply Hb. now right.
Qed.

Lemma zone_head_ok (R Cs : list float) (X : nat -> float) (re h : float)
    (i : nat) :
  (i + 1 < length R)%nat -> (i < length Cs)%nat ->
  zone_head E (Arr1 R) Cs X re h i
  = Ok (if in_zone R re i then zone_value Cs X re i else h).
Proof.
  intros HR HCs. unfold zone_head, in_zone, zone_value. simpl getitem.
  rewrite (list_get_ok R i (lookup0 R i)) by (apply lookup0_Some; lia).
  simpl bind.
  destruct (lookup0 R i <=? re)%float; simpl; [|reflexivity].
  replace (Z.of_nat i + 1) with (Z.of_nat (i + 1)) by lia.
  rewrite (list_get_ok R (i + 1) (lookup0 R (i + 1)))
    by (apply lookup0_Some; lia).
  simpl bind.
  destruct (re <? lookup0 R (i + 1))%float; simpl; [|reflexivity].
  rewrite (list_get_ok Cs i (lookup0 Cs i)) by (apply lookup0_Some; lia).
  reflexivity.
Qed.

Lemma multi_zone_head_ok (parts : nat) (R Cs : list float)
    (X : nat -> float) (re : float) :
  (parts < length R)%nat -> (parts <= length Cs)%nat ->
  multi_zone_head E parts (Arr1 R) Cs X re = Ok (head_of parts R Cs X re).
Proof.
  intros HR HCs. unfold multi_zone_head, head_of.
  apply for_each_pure. intros h i Hi. apply in_seq in Hi.
  apply zone_head_ok; lia.
Qed.

Lemma multi_zone_row_ok (parts : nat) (R Cs : list float)
    (X : nat -> float) (rad : ndarray) :
  (parts < length R)%nat -> (parts <= length Cs)%nat ->
  multi_zone_row E parts (Arr1 R) Cs X rad
  = Ok (map (head_of parts R Cs X) (elems rad)).
Proof.
  intros HR HCs. unfold multi_zone_row.
  rewrite (for_each_collect _ (head_of parts R Cs X)); [reflexivity|].
  intros re _. now apply multi_zone_head_ok.
Qed.

Lemma fold_zone_none (R Cs : list float) (X : nat -> float) (re : float)
    (xs : list nat) (h : float) :
  (forall j, In j xs -> in_zone R re j = false) ->
  fold_left (fun h i => if in_zone R re i then zone_value Cs X re i else h)
    xs h = h.
Proof.
  revert h. induction xs as [|x xs IH]; intros h Hn; simpl; [reflexivity|].
  rewrite (Hn x) by now left. apply IH. intros j Hj. apply Hn. now right.
Qed.

(** No zone holds [re]: the head stays zero. *)
Lemma head_of_none (parts : nat) (R Cs : list float) (X : nat -> float)
    (re : float) :
  (forall j, (j < parts)%nat -> in_zone R re j = false) ->
  head_of parts R Cs X re = 0%float.
Proof.
  intros Hn. apply fold_zone_none. intros j Hj. apply in_seq in Hj.
  apply Hn. lia.
Qed.

(** Exactly zone [i] holds [re]: the head is the value of zone [i]. *)
Lemma head_of_unique (parts : nat) (R Cs : list float) (X : nat -> float)
    (re : float) (i : nat) :
  (i < parts)%nat -> in_zone R re i = true ->
  (forall j, (j < parts)%nat -> j <> i -> in_zone R re j = false) ->
  head_of parts R Cs X re = zone_value Cs X re i.
Proof.
  intros Hi Hin Hother. unfold head_of.
  replace parts with (i + (1 + (parts - i - 1)))%nat by lia.
  rewrite !seq_app, !fold_left_app. simpl seq. simpl fold_left at 2.
  rewrite Hin. apply fold_zone_none.
  intros j Hj. apply in_seq in Hj. apply Hother; lia.
Qed.
End Heads.

(** ** The run of the zoned solver *)

Section MultiZoneRun.
Context (E : Externals).

Definition zip_with_float (f : float -> float -> float)
    (l1 l2 : list float) : list float :=
  map (fun p => f (fst p) (snd p)) (combine l1 l2).

(** [np.sqrt(Spart/Tpart)] for vectors of one length *)
Definition difsr_of (Sl Tl : list float) : list float :=
  map sqrt (zip_with_float div Sl Tl).

(** [Tfrac*difsr[:-1]/difsr[1:]] *)
Definition tmp_of (Sl Tl : list float) : list float :=
  zip_with_float div
    (zip_with_float mul (zip_with_float div (removelast Tl) (tail Tl))
       (removelast (difsr_of Sl Tl)))
    (tail (difsr_of Sl Tl)).

(** [np.sqrt(se)*difsr] *)
Definition Cs_of (difsr : list float) (se : float) : list float :=
  map (fun d => (sqrt se * d)%float) difsr.

Lemma length_removelast_float (l : list float) :
  length (removelast l) = (length l - 1)%nat.
Proof.
  induction l as [|x [|y l] IH]; simpl in *; try reflexivity.
  rewrite IH. lia.
Qed.

Lemma length_zip_with_float (f : float -> float -> float)
    (l1 l2 : list float) :
  length l1 = length l2 -> length (zip_with_float f l1 l2) = length l1.
Proof.
  intros H. unfold zip_with_float.
  rewrite length_map, length_combine. lia.
Qed.

Lemma broadcast_same (f : float -> float -> float) (l1 l2 : list float) :
  length l1 = length l2 -> broadcast f l1 l2 = Ok (zip_with_float f l1 l2).
Proof.
  intros H. unfold broadcast. now rewrite H, Nat.eqb_refl.
Qed.

Lemma length_difsr_of (Sl Tl : list float) :
  length Sl = length Tl -> length (difsr_of Sl Tl) = length Tl.
Proof.
  intros H. unfold difsr_of.
  rewrite length_map, length_zip_with_float; congruence.
Qed.

Lemma length_tmp_of (Sl Tl : list float) :
  length Sl = length Tl -> length (tmp_of Sl Tl) = (length Tl - 1)%nat.
Proof.
  intros H. unfold tmp_of.
  repeat (rewrite length_zip_with_float
          || rewrite length_removelast_float
          || rewrite length_tl || rewrite length_difsr_of);
    congruence.
Qed.

(** The row of one Laplace point [se]: the system is assembled from a
    state of the loop, solved and masked, and every radius gets the head
    of its zone. *)
Definition row_spec (parts : nat) (Q : float) (R : list float)
    (rad : ndarray) (difsr tmp : list float) (se : float)
    (row : list float) : Prop :=
  exists Mb V Mb' V',
    system_inv parts R Mb V /\
    assemble_system E parts Q (Arr1 R) (Cs_of difsr se) tmp se Mb V
    = Ok (Mb', V') /\
    row = map (head_of E parts R (Cs_of difsr se) (solve E Mb' V' parts))
            (elems rad).

Lemma multi_zone_loop (parts : nat) (Q : float) (R : list float)
    (rad : ndarray) (difsr tmp : list float) (xs : list float) :
  (2 <= parts)%nat -> (parts + 1 <= length R)%nat ->
  length difsr = parts -> length tmp = (parts - 1)%nat ->
  forall Mb V res, system_inv parts R Mb V ->
  exists Mb' V' rows,
    for_each xs (multi_zone_step E parts Q (Arr1 R) rad difsr tmp)
      (Mb, V, res) = Ok (Mb', V', res ++ rows) /\
    Forall2 (row_spec parts Q R rad difsr tmp) xs rows.
Proof.
  intros Hp HR Hd Ht.
  induction xs as [|se xs IH]; intros Mb V res Hinv.
  - exists Mb, V, []. simpl. rewrite app_nil_r. split; [reflexivity|].
    constructor.
  - destruct (assemble_system_inv E parts Q R (Cs_of difsr se) tmp se Mb V)
      as (Mb1 & Hrun & Hinv1 & _); try assumption;
      [unfold Cs_of; now rewrite length_map|].
    destruct (IH Mb1 (<[0%nat := (Q / se)%float]> V)
                (res ++ [map (head_of E parts R (Cs_of difsr se)
                                (solve E Mb1 (<[0%nat := (Q / se)%float]> V)
                                   parts)) (elems rad)]) Hinv1)
      as (Mb2 & V2 & rows & Hloop & Hrows).
    exists Mb2, V2,
      (map (head_of E parts R (Cs_of difsr se)
              (solve E Mb1 (<[0%nat := (Q / se)%float]> V) parts))
         (elems rad) :: rows).
    split.
    + simpl. fold (Cs_of difsr se). rewrite Hrun. simpl.
      rewrite multi_zone_row_ok
        by (unfold Cs_of; rewrite ?length_map; lia).
      simpl. rewrite Hloop. now rewrite <- app_assoc.
    + constructor; [|exact Hrows].
      exists Mb, V, Mb1, (<[0%nat := (Q / se)%float]> V). auto.
Qed.

(** The zoned branch on vectors of matching lengths: it returns, and its
    rows are the masked rows of [row_spec]. *)
Lemma lap_multi_zone_run (parts : nat) (Q : float) (s rad : ndarray)
    (R Sl Tl : list float) :
  (2 <= parts)%nat -> length Tl = parts -> length Sl = parts ->
  (parts + 1 <= length R)%nat ->
  exists rows,
    lap_multi_zone E parts Q s rad (Arr1 R) (Arr1 Sl) (Arr1 Tl)
    = Ok (map (map mask_nonfinite) rows) /\
    Forall2 (row_spec parts Q R rad (difsr_of Sl Tl) (tmp_of Sl Tl))
      (elems s) rows.
Proof.
  intros Hp HT HS HR.
  destruct (system_inv_init parts R Hp) as (Mb0 & Hinit & Hinv).
  destruct (multi_zone_loop parts Q R rad (difsr_of Sl Tl) (tmp_of Sl Tl)
              (elems s) Hp HR) with (Mb := Mb0)
              (V := replicate (2 * parts) 0%float)
              (res := @nil (list float))
    as (Mb' & V' & rows & Hloop & Hrows);
    [rewrite length_difsr_of; congruence
    | rewrite length_tmp_of; congruence | exact Hinv |].
  exists rows. split; [|exact Hrows].
  unfold lap_multi_zone.
  destruct (band_set (replicate 5 (replicate (2 * parts) 0%float)) 1 1
              1%float) as [Mb1|e] eqn:H1; [|discriminate Hinit].
  simpl bind in Hinit |- *. rewrite Hinit. simpl bind.
  simpl slice_init. simpl slice_tail. simpl bind. simpl elems.
  assert (length Sl = length Tl) as HST by congruence.
  assert (length (removelast Tl) = length (tail Tl)) as L1
    by (now rewrite length_removelast_float, length_tl).
  assert (length (zip_with_float div (removelast Tl) (tail Tl))
          = length (removelast (difsr_of Sl Tl))) as L2
    by (now rewrite length_zip_with_float, !length_removelast_float,
          length_difsr_of).
  assert (length (zip_with_float mul
                    (zip_with_float div (removelast Tl) (tail Tl))
                    (removelast (difsr_of Sl Tl)))
          = length (tail (difsr_of Sl Tl))) as L3
    by (now rewrite length_zip_with_float, length_zip_with_float,
          length_removelast_float, length_tl, length_difsr_of).
  rewrite (broadcast_same div (removelast Tl) (tail Tl) L1). simpl bind.
  rewrite (broadcast_same div Sl Tl HST). simpl bind.
  fold (difsr_of Sl Tl).
  rewrite (broadcast_same mul _ _ L2). simpl bind.
  rewrite (broadcast_same div _ _ L3).
  simpl bind. unfold tmp_of, difsr_of, zip_with_float in Hloop |- *.
  change (parts + (parts + 0))%nat with (2 * parts)%nat.
  rewrite Hloop. reflexivity.
Qed.
End MultiZoneRun.

(** ** Overflow: products and sums with an infinite factor *)

Section Overflow.
Local Open Scope float_scope.

Lemma mul_infinity_not_finite (a : float) : is_finite (a * infinity) = false.
Proof.
  rewrite is_finite_spec, mul_spec, Prim2SF_infinity.
  unfold SF64mul. now destruct (Prim2SF a).
Qed.

Lemma add_not_finite_l (a b : float) :
  is_finite a = false -> is_finite (a + b) = false.
Proof.
  rewrite !is_finite_spec, add_spec. unfold SF64add.
  destruct (Prim2SF a) as [sa|sa| |sa ma ea]; try discriminate;
    intros _; destruct (Prim2SF b) as [sb|sb| |sb mb eb]; simpl;
    try reflexivity; destruct sa, sb; reflexivity.
Qed.

(** [x / inf] is a zero or not a number; times an infinity it is not a
    number. *)
Lemma div_infinity_mul_infinity (x : float) :
  is_finite (x / infinity * infinity) = false.
Proof.
  rewrite is_finite_spec, mul_spec, div_spec, Prim2SF_infinity.
  unfold SF64mul, SF64div. now destruct (Prim2SF x).
Qed.

End Overflow.

(** ** C3, C9: what the zoned branch returns *)

Section MultiZoneFacts.
Context (E : Externals).

Lemma Forall2_lookup_row {A B : Type} (P : A -> B -> Prop) (xs : list A)
    (ys : list B) (i : nat) (x : A) :
  Forall2 P xs ys -> xs !! i = Some x ->
  exists y, ys !! i = Some y /\ P x y.
Proof.
  intros H. revert i. induction H as [|x' y' xs ys Hxy _ IH]; intros i Hx.
  - destruct i; discriminate.
  - destruct i as [|i]; simpl in *.
    + injection Hx as <-. eauto.
    + now apply IH.
Qed.

(** Every entry of the array the zoned branch returns is finite. *)
Lemma masked_rows_finite (rows : list (list float)) (row : list float)
    (x : float) :
  In row (map (map mask_nonfinite) rows) -> In x row -> isfinite x = true.
Proof.
  intros Hrow Hx. apply in_map_iff in Hrow as (row' & <- & _).
  apply in_map_iff in Hx as (x' & <- & _). apply isfinite_mask.
Qed.

Lemma lookup_In {A : Type} (l : list A) (i : nat) (x : A) :
  l !! i = Some x -> In x l.
Proof.
  revert i. induction l as [|y l IH]; intros [|i] H; simpl in *;
    try discriminate.
  - injection H as ->. now left.
  - right. eauto.
Qed.
End MultiZoneFacts.

(** The entry of Laplace point [se] and radius [re] that lies in zone [i]
    and in no other zone: the masked value of zone [i], with the masked
    solution [X] of the system assembled for [se]. *)
Definition zone_head_spec (E : Externals) (parts : nat) (Q : float)
    (s rad : ndarray) (R Sl Tl : list float) (si ri i : nat) (se re : float)
    : Prop :=
  let Cs := Cs_of (difsr_of Sl Tl) se in
  exists res row Mb V Mb' V',
    lap_multi_zone E parts Q s rad (Arr1 R) (Arr1 Sl) (Arr1 Tl) = Ok res /\
    res !! si = Some row /\
    system_inv parts R Mb V /\
    assemble_system E parts Q (Arr1 R) Cs (tmp_of Sl Tl) se Mb V
    = Ok (Mb', V') /\
    row !! ri
    = Some (mask_nonfinite (zone_value E Cs (solve E Mb' V' parts) re i)).

(** C3 (amended). In the zoned branch, the head returned for a radius that
    lies in zone [i] alone is
    [X[2i]*I0(Cs[i]*r) + X[2i+1]*K0(Cs[i]*r)] when that value is finite and
    zero when it is not, where [X] is the solver's answer to the assembled
    system with its non-finite entries set to zero. *)
Theorem C3_zone_head_masked (E : Externals) (parts : nat) (Q : float)
    (s rad : ndarray) (R Sl Tl : list float) (si ri i : nat)
    (se re : float) :
  (2 <= parts)%nat -> length Tl = parts -> length Sl = parts ->
  length R = (parts + 1)%nat ->
  elems s !! si = Some se -> elems rad !! ri = Some re ->
  (i < parts)%nat -> in_zone R re i = true ->
  (forall j, (j < parts)%nat -> j <> i -> in_zone R re j = false) ->
  zone_head_spec E parts Q s rad R Sl Tl si ri i se re.
Proof.
  intros Hp HT HS HR Hse Hre Hi Hin Hother.
  destruct (lap_multi_zone_run E parts Q s rad R Sl Tl Hp HT HS)
    as (rows & Hrun & Hrows); [lia|].
  destruct (Forall2_lookup_row _ _ _ si se Hrows Hse)
    as (row & Hrow & Mb & V & Mb' & V' & Hinv & Hasm & ->).
  exists (map (map mask_nonfinite) rows), (map mask_nonfinite
    (map (head_of E parts R (Cs_of (difsr_of Sl Tl) se)
            (solve E Mb' V' parts)) (elems rad))), Mb, V, Mb', V'.
  split; [exact Hrun|]. split; [now rewrite lookup_map, Hrow|].
  split; [exact Hinv|]. split; [exact Hasm|].
  rewrite !lookup_map, Hre. simpl.
  now rewrite (head_of_unique E parts R _ _ re i Hi Hin Hother).
Qed.

(** ** Sample inputs *)

(** Stand-ins for scipy in the examples: constant Bessel values and a
    solver that answers with the right-hand side. *)
Definition sample_externals : Externals :=
  {| i0 := fun _ => 1%float;
     i1 := fun _ => 1%float;
     k0 := fun _ => 1%float;
     k1 := fun _ => 1%float;
     spsolve := fun _ V j => lookup0 V j |}.

(** Stand-ins that behave like scipy far out: [i0] and [i1] overflow to
    infinity (beyond about 713.99) and [k0] and [k1] underflow to zero
    (beyond about 745); elsewhere they are constant. *)
Definition overflow_externals : Externals :=
  {| i0 := fun x => if (x <? 713.9876)%float then 1%float else infinity;
     i1 := fun x => if (x <? 713.9876)%float then 1%float else infinity;
     k0 := fun x => if (745 <? x)%float then 0%float else 1%float;
     k1 := fun x => if (745 <? x)%float then 0%float else 1%float;
     spsolve := fun _ V j => lookup0 V j |}.

(** [Mb] and [V] of two zones when the loop over the Laplace points
    starts. *)
Definition start_Mb : band :=
  [[0; 0; 0; 0]; [0; 1; 0; 0]; [0; 0; 0; 0]; [0; 0; 1; 0]; [0; 0; 0; 0]]%float.
Definition start_V : list float := [0; 0; 0; 0]%float.

(** The arguments of the docstring example of [lap_transgwflow_cyl]. *)
Definition doc_s : ndarray := Arr1 [5; 10]%float.
Definition doc_rad : ndarray := Arr1 [1; 2; 3]%float.
Definition doc_rpart : list float := [0; 2; 10]%float.
Definition doc_Spart : list float := [1e-3; 1e-3]%float.
Definition doc_Tpart : list float := [1e-3; 2e-3]%float.

Lemma C3_zone_head_masked_witness :
  zone_head_spec sample_externals 2 (-1)%float doc_s doc_rad doc_rpart
    doc_Spart doc_Tpart 0 0 0 5%float 1%float.
Proof.
  apply C3_zone_head_masked; try reflexivity; try lia.
  intros [|[|j]] Hj Hne; try lia. reflexivity.
Defined.

(** C3 as stated fails where the value of the zone overflows: with
    [S = T], [s = 1e6] and [r = 1] the argument of [I0] is [1000], where
    scipy's [i0] returns infinity. On [overflow_externals] the value of
    the zone is minus infinity and the returned head is zero; and for no
    Bessel functions with [i0(1000) = inf], no solver and no coefficient
    vector at all is the returned head the value of the zone, which is
    never finite there. *)
Lemma C3_counterexample :
  (lap_multi_zone overflow_externals 2 (-1)%float (Arr1 [1e6]%float)
     (Arr1 [1]%float) (Arr1 doc_rpart) (Arr1 [1; 1]%float)
     (Arr1 [1; 1]%float) = Ok [[0%float]] /\
   in_zone doc_rpart 1%float 0 = true /\
   in_zone doc_rpart 1%float 1 = false /\
   exists Mb V,
     assemble_system overflow_externals 2 (-1)%float (Arr1 doc_rpart)
       (Cs_of (difsr_of [1; 1] [1; 1])%float 1e6%float)
       (tmp_of [1; 1] [1; 1])%float 1e6%float start_Mb start_V
     = Ok (Mb, V) /\
     zone_value overflow_externals
       (Cs_of (difsr_of [1; 1] [1; 1])%float 1e6%float)
       (solve overflow_externals Mb V 2) 1%float 0 = neg_infinity) /\
  ~ exists (E : Externals) (X : nat -> float),
      i0 E 1000%float = infinity /\
      exists res row,
        lap_multi_zone E 2 (-1)%float (Arr1 [1e6]%float) (Arr1 [1]%float)
          (Arr1 doc_rpart) (Arr1 [1; 1]%float) (Arr1 [1; 1]%float) = Ok res /\
        res !! 0%nat = Some row /\
        row !! 0%nat
        = Some (zone_value E (Cs_of (difsr_of [1; 1] [1; 1])%float 1e6%float)
                  X 1%float 0).
Proof.
  split.
  { split; [reflexivity|]. split; [reflexivity|]. split; [reflexivity|].
    eexists _, _. split; reflexivity. }
  intros (E & X & Hi0 & res & row & Hrun & Hres & Hrow).
  destruct (lap_multi_zone_run E 2 (-1)%float (Arr1 [1e6]%float)
              (Arr1 [1]%float) doc_rpart [1; 1]%float [1; 1]%float)
    as (rows & Hrun' & _); try reflexivity; try (simpl; lia).
  rewrite Hrun' in Hrun. injection Hrun as <-.
  assert (isfinite (zone_value E (Cs_of (difsr_of [1; 1] [1; 1])%float
                                    1e6%float) X 1%float 0) = true) as Hfin.
  { eapply masked_rows_finite; eapply lookup_In; eassumption. }
  unfold zone_value in Hfin.
  assert ((lookup0 (Cs_of (difsr_of [1; 1] [1; 1]) 1e6) 0 * 1)%float
          = 1000%float) as Harg by (vm_compute; reflexivity).
  rewrite Harg, Hi0 in Hfin. unfold isfinite in Hfin.
  rewrite add_not_finite_l in Hfin by apply mul_infinity_not_finite.
  discriminate.
Qed.

(** The homogeneous branch has no mask. Run on [S = T], [s = 1e6], the
    boundaries [0] and [10] and [r = 1], it reads [I0] at [10000] and at
    [1000], where scipy's [i0] returns infinity. On [overflow_externals]
    the branch returns not-a-number; and for no Bessel functions with these
    two values is the array of the branch finite: [As] is a zero or not a
    number and [As*I0(1000)] is not a number. *)
Lemma single_zone_branch_unmasked :
  lap_single_zone overflow_externals (-1)%float (Arr1 [1e6]%float)
    (Arr1 [1]%float) (Arr1 [0; 10]%float) (Arr1 [1]%float) (Arr1 [1]%float)
  = Ok [[nan]] /\
  isfinite nan = false /\
  ~ exists E : Externals,
      i0 E 1000%float = infinity /\ i0 E 10000%float = infinity /\
      exists res,
        lap_single_zone E (-1)%float (Arr1 [1e6]%float) (Arr1 [1]%float)
          (Arr1 [0; 10]%float) (Arr1 [1]%float) (Arr1 [1]%float) = Ok res /\
        forall row x, In row res -> In x row -> isfinite x = true.
Proof.
  split; [reflexivity|]. split; [reflexivity|].
  intros (E & H1 & H2 & res & Hrun & Hfin).
  rewrite (lap_single_zone_ok E _ _ _ _ _ _ 0%float 10%float 1%float 1%float)
    in Hrun by reflexivity.
  injection Hrun as <-.
  specialize (Hfin _ _ (or_introl eq_refl) (or_introl eq_refl)).
  unfold single_zone_head, single_zone_coeffs in Hfin.
  replace (0 =? 0)%float with true in Hfin by reflexivity.
  replace (10 =? infinity)%float with false in Hfin by reflexivity.
  replace (1 <? 10)%float with true in Hfin by reflexivity.
  change (1000 * 1)%float with 1000%float in Hfin.
  rewrite H1, H2 in Hfin. unfold isfinite in Hfin.
  rewrite add_not_finite_l in Hfin by apply div_infinity_mul_infinity.
  discriminate.
Qed.

(** ** C9: the solver does not check its arguments *)

Lemma squeeze_long (l : list float) :
  (2 <= length l)%nat -> squeeze (Arr1 l) = Arr1 l.
Proof. destruct l as [|a [|b l]]; simpl; try lia; reflexivity. Qed.

(** C9 (amended). [lap_transgwflow_cyl] has no check of its own: for at
    least two zones it returns an array for every storativity vector as
    long as the transmissivity vector and every boundary vector with at
    least one entry more, whatever their values (signs, order) and however
    many further boundaries there are. *)
Theorem C9_no_validation (E : Externals) (s rad : ndarray)
    (R Sl Tl : list float) (Qw : float) :
  (2 <= length Tl)%nat -> length Sl = length Tl ->
  (length Tl + 1 <= length R)%nat ->
  exists res,
    lap_transgwflow_cyl E s rad (Arr1 R) (Arr1 Sl) (Arr1 Tl) Qw = Ok res.
Proof.
  intros HT HS HR. unfold lap_transgwflow_cyl.
  rewrite !squeeze_long by lia. simpl len. simpl bind. simpl getitem.
  rewrite (list_get_zero Tl (lookup0 Tl 0)) by (apply lookup0_Some; lia).
  simpl bind.
  destruct (Nat.eqb_spec (length Tl) 1) as [H1|_]; [lia|].
  destruct (lap_multi_zone_run E (length Tl)
              (Qw / (2 * pi * lookup0 Tl 0))%float (squeeze s) (squeeze rad)
              R Sl Tl HT eq_refl HS HR) as (rows & Hrun & _).
  eauto.
Qed.

Lemma C9_no_validation_witness :
  exists res,
    lap_transgwflow_cyl sample_externals doc_s doc_rad
      (Arr1 [0; 2; 5; 10]%float) (Arr1 [1e-3; -1e-3]%float)
      (Arr1 [-1e-3; 0]%float) (-1)%float = Ok res.
Proof. apply C9_no_validation; simpl; lia. Defined.

(** C9 as stated fails on its own examples: one storativity for two
    transmissivities is broadcast, and a boundary vector that is too long
    is read at [rpart[0]], [rpart[-1]] and [rpart[i+1]] as it is; whatever
    the Bessel functions and the solver return, no exception is raised. *)
Lemma C9_counterexample :
  ~ exists (E : Externals) (e : exn),
      lap_transgwflow_cyl E doc_s doc_rad (Arr1 doc_rpart)
        (Arr1 [1e-3]%float) (Arr1 doc_Tpart) (-1)%float = Raise e
      \/ lap_transgwflow_cyl E doc_s doc_rad (Arr1 [0; 2; 5; 10]%float)
           (Arr1 doc_Spart) (Arr1 doc_Tpart) (-1)%float = Raise e.
Proof.
  intros (E & e & [H|H]); vm_compute in H; discriminate H.
Qed.

(** ** The equation system of a single zone *)

(** Run with [parts = 1] on the vectors of a single zone whose inner
    boundary is positive, the equation-system branch fails at [Mb[0, 2]]:
    the array has two columns. *)
Lemma single_zone_system_index_error (E : Externals) (Q se : float)
    (s : list float) (rad : ndarray) (r0 rN S T : float) :
  (0 <? r0)%float = true ->
  lap_multi_zone E 1 Q (Arr1 (se :: s)) rad (Arr1 [r0; rN]) (Arr1 [S])
    (Arr1 [T])
  = Raise (IndexError "index out of bounds").
Proof.
  intros Hr0. unfold lap_multi_zone. simpl.
  unfold multi_zone_step at 1. unfold assemble_system. simpl.
  rewrite Hr0. reflexivity.
Qed.

(** With the inner boundary at zero the same branch assembles the system
    [X[1] = Q/se], [I0(Cs*rN)*X[0] + K0(Cs*rN)*X[1] = 0] (finite [rN]), whose
    solution is the closed form of the homogeneous branch. *)
Lemma single_zone_system_inner_zero (E : Externals) (Q se : float)
    (rN cs : float) :
  (rN <? infinity)%float = true ->
  exists Mb V,
    assemble_system E 1 Q (Arr1 [0; rN]%float) [cs] [] se
      [[0; 0]; [0; 1]; [0; 0]; [1; 0]; [0; 0]]%float [0; 0]%float
    = Ok (Mb, V) /\
    spdiags Mb 2 = [[0; 1]; [i0 E (cs * rN); k0 E (cs * rN)]]%float /\
    V = [Q / se; 0]%float.
Proof.
  intros HrN. unfold assemble_system. simpl. rewrite HrN. simpl.
  eexists _, _. split; [reflexivity|]. split; reflexivity.
Qed.

(** With a positive inner boundary and two zones the flux row of the well
    holds the [I1] term in column [2], the I0-coefficient of the second
    zone, and a zero in column [0]: the closed form has it on the
    first zone's I0-coefficient. *)
Lemma two_zone_flux_row (E : Externals) (Q se : float) (R Cs tmp : list float)
    (Mb : band) (V : list float) :
  length R = 3%nat -> length Cs = 2%nat -> length tmp = 1%nat ->
  system_inv 2 R Mb V -> (0 <? lookup0 R 0)%float = true ->
  exists Mb' V',
    assemble_system E 2 Q (Arr1 R) Cs tmp se Mb V = Ok (Mb', V') /\
    spdiags_entry Mb' 0 0 = 0%float /\
    spdiags_entry Mb' 0 2
    = (- lookup0 Cs 0 * lookup0 R 0 * i1 E (lookup0 Cs 0 * lookup0 R 0))%float.
Proof.
  intros HR HCs Htmp Hinv Hr0.
  destruct (assemble_system_inv E 2 Q R Cs tmp se Mb V) as
    (Mb' & Hrun & Hinv' & G); try assumption; try lia.
  exists Mb', (<[0%nat := (Q / se)%float]> V). split; [exact Hrun|].
  destruct Hinv' as (_ & _ & _ & H20 & _). split.
  - now rewrite (spdiags_entry_band Mb' 0 0 2) by lia.
  - rewrite (spdiags_entry_band Mb' 0 2 0) by lia. frame_cell G.
    rewrite Hr0. destruct (lookup0 R (length R - 1) <? infinity)%float;
      cases_eqb.
Qed.

(** ** C10: a single zone never reaches its branch *)

(** C10 (code). Whatever the other arguments, one transmissivity makes
    [lap_transgwflow_cyl] fail at [len(Tpart)]: [np.squeeze] turns the
    one-element vector into a rank-0 array. The homogeneous branch, which
    zero-fills the radii at or beyond the outer boundary, is not reached. *)
Theorem C10_single_zone_unreachable (E : Externals)
    (s rad rpart Spart : ndarray) (T Qw : float) :
  lap_transgwflow_cyl E s rad rpart Spart (Arr1 [T]) Qw
  = Raise (TypeError "len() of unsized object").
Proof. reflexivity. Qed.

(** ** C7: the argument checks of [theis] and [diskmodel] *)

Lemma elems_reshaped (a : ndarray) (struc_grid : bool) :
  elems (if struc_grid then squeeze a else Arr1 (elems (squeeze a)))
  = elems a.
Proof. destruct struc_grid; simpl; apply elems_squeeze. Qed.

(** Takes the checks one by one: the first that holds names the
    constraint raised. *)
Ltac first_violation :=
  repeat match goal with
         | |- context [if ?b then Some ?c else _] =>
             let Hb := fresh "Hb" in
             destruct b eqn:Hb;
             [ exists c; split; [reflexivity|]; simpl;
               repeat match goal with
                      | H : negb _ = false |- _ =>
                          apply negb_false_iff in H
                      end;
               try assumption;
               repeat match goal with
                      | H : ?x = _ |- context [?x] => rewrite H
                      end; reflexivity
             | ]
         end.

Lemma diskmodel_check_first (c : constraint)
    (rad time Tpart Spart Rpart : list float) (struc_grid : bool)
    (rwell rinf : float) (stehfestn : pyval) :
  violates c rad time Tpart Spart Rpart struc_grid rwell rinf stehfestn
  = true ->
  exists c',
    diskmodel_check rad time Tpart Spart Rpart struc_grid rwell rinf
      stehfestn = Some c' /\
    violates c' rad time Tpart Spart Rpart struc_grid rwell rinf stehfestn
    = true.
Proof.
  intros Hc. unfold diskmodel_check. first_violation.
  exfalso. destruct c; simpl in Hc;
    repeat match goal with
           | H : ?x = _, H' : context [?x] |- _ => rewrite H in H'
           end; simpl in Hc; try discriminate;
    destruct (isinstance_int stehfestn); discriminate.
Qed.

Lemma theis_check_first (c : constraint) (rad time : list float)
    (T S : float) (struc_grid : bool) (rwell rinf : float)
    (stehfestn : pyval) :
  violates c rad time [T] [S] [] struc_grid rwell rinf stehfestn = true ->
  exists c',
    theis_check rad time T S struc_grid rwell rinf stehfestn = Some c' /\
    violates c' rad time [T] [S] [] struc_grid rwell rinf stehfestn = true.
Proof.
  intros Hc. unfold theis_check. first_violation.
  exfalso. destruct c; simpl in Hc;
    repeat match goal with
           | H : ?x = _, H' : context [?x] |- _ => rewrite H in H'
           end; simpl in Hc; try discriminate;
    destruct (isinstance_int stehfestn); discriminate.
Qed.

(** C7. Every violated constraint on the arguments of [diskmodel] and of
    [theis] (transmissivity or storativity not positive, zone radii not
    strictly increasing or not strictly between [rwell] and [rinf], a time
    or a radius not positive, a radius below [rwell], an order that is no
    integer, at most one or odd, lengths of [rad] and [time] that differ
    for paired points) ends the call with a [ValueError] whose message
    names a constraint that is violated, before any collaborator is
    called. *)
Theorem C7_invalid_arguments_raise (C : Collaborators) (E : Externals)
    (c : constraint) (rad : ndarray) (time Tpart Spart Rpart : list float)
    (T S Qw : float) (struc_grid : bool) (rwell rinf hinf : float)
    (stehfestn : pyval) :
  (violates c (elems rad) time Tpart Spart Rpart struc_grid rwell rinf
     stehfestn = true ->
   exists c',
     diskmodel C E rad time Tpart Spart Rpart Qw struc_grid rwell rinf hinf
       stehfestn = ([], Raise (ValueError (diskmodel_message c'))) /\
     violates c' (elems rad) time Tpart Spart Rpart struc_grid rwell rinf
       stehfestn = true) /\
  (violates c (elems rad) time [T] [S] [] struc_grid rwell rinf stehfestn
   = true ->
   exists c',
     theis C E rad time T S Qw struc_grid rwell rinf hinf stehfestn
     = ([], Raise (ValueError (theis_message c'))) /\
     violates c' (elems rad) time [T] [S] [] struc_grid rwell rinf stehfestn
     = true).
Proof.
  split; intros Hc.
  - destruct (diskmodel_check_first c _ _ _ _ _ _ _ _ _ Hc) as (c' & Hchk & Hv).
    exists c'. split; [|exact Hv].
    unfold diskmodel. now rewrite elems_reshaped, Hchk.
  - destruct (theis_check_first c _ _ _ _ _ _ _ _ Hc) as (c' & Hchk & Hv).
    exists c'. split; [|exact Hv].
    unfold theis. now rewrite elems_reshaped, Hchk.
Qed.

(** ** C6: paired points are the diagonal of the grid *)

Section Diagonal.
Context (f : float -> float).

Lemma diag_from_map (k : nat) (g : list (list float)) :
  diag_from k (map (map f) g) = map f (diag_from k g).
Proof.
  revert k. induction g as [|row g IH]; intros k; simpl; [reflexivity|].
  rewrite lookup_map. destruct (row !! k) as [x|]; simpl; [|reflexivity].
  now rewrite IH.
Qed.

Lemma diag_from_lookup (k : nat) (g : list (list float)) :
  (forall row, In row g -> (k + length g <= length row)%nat) ->
  length (diag_from k g) = length g /\
  forall p row, g !! p = Some row -> diag_from k g !! p = row !! (k + p)%nat.
Proof.
  revert k. induction g as [|row g IH]; intros k Hlen; simpl.
  - split; [reflexivity|]. intros p row Hp. destruct p; discriminate.
  - assert (k + length (row :: g) <= length row)%nat as Hrow
      by (apply Hlen; now left).
    simpl in Hrow.
    destruct (lookup_lt_is_Some_2 row k) as [x Hx]; [lia|]. rewrite Hx.
    destruct (IH (S k)) as [IHlen IHget].
    { intros row' Hin. specialize (Hlen row' (or_intror Hin)).
      simpl in Hlen. lia. }
    split; [simpl; now rewrite IHlen|].
    intros [|p] row' Hp; simpl in *.
    + injection Hp as <-. now rewrite Nat.add_0_r.
    + rewrite (IHget p row' Hp). f_equal. lia.
Qed.
End Diagonal.

(** [G] is a grid of [N] rows and [N] columns. *)
Definition square (N : nat) (G : list (list float)) : Prop :=
  length G = N /\ forall row, In row G -> length row = N.

Lemma squeeze_not_single (l : list float) :
  length l <> 1%nat -> squeeze (Arr1 l) = Arr1 l.
Proof. destruct l as [|x [|y l]]; simpl; intros H; try reflexivity. lia. Qed.



(** The tail on a square grid: paired points get the diagonal. *)
Lemma finish_paired (res : output) (N : nat) (hinf : float)
    (G : list (list float)) :
  finish res true [N] hinf = Ok (Out2 G) -> square N G ->
  finish res false [N] hinf = Ok (Out1 (diag_from 0 G)) /\
  length (diag_from 0 G) = N /\
  forall p row, G !! p = Some row -> diag_from 0 G !! p = row !! p.
Proof.
  intros Hres [HN Hrows]. unfold finish in *. simpl in *.
  destruct res as [x|v|g]; simpl in Hres; try discriminate.
  injection Hres as <-.
  assert (forall row, In row g -> (0 + length g <= length row)%nat) as Hg.
  { intros row Hin. rewrite length_map in HN.
    specialize (Hrows (map (fun x => (x + hinf)%float) row)
                  (in_map _ _ _ Hin)).
    rewrite length_map in Hrows. simpl. lia. }
  destruct (diag_from_lookup 0 g Hg) as [Hlen _].
  pose proof HN as HN'. rewrite length_map in HN'.
  simpl. rewrite Hlen, HN', Nat.eqb_refl. simpl.
  rewrite diag_from_map. split; [reflexivity|].
  assert (forall row, In row (map (map (fun x => (x + hinf)%float)) g) ->
            (0 + length (map (map (fun x => (x + hinf)%float)) g)
             <= length row)%nat) as HG.
  { intros row Hin. rewrite (Hrows row Hin), length_map. simpl. lia. }
  destruct (diag_from_lookup 0 _ HG) as [HlenG HgetG].
  rewrite diag_from_map in HlenG, HgetG.
  split; [now rewrite HlenG, length_map|exact HgetG].
Qed.





Lemma finish_grid_and_diagonal (N : nat) (hinf : float)
    (G0 : list (list float)) :
  square N G0 ->
  let G := map (map (fun x => (x + hinf)%float)) G0 in
  finish (Out2 G0) true [N] hinf = Ok (Out2 G) /\
  finish (Out2 G0) false [N] hinf = Ok (Out1 (diag_from 0 G)) /\
  length (diag_from 0 G) = N /\
  forall p row, G !! p = Some row -> diag_from 0 G !! p = row !! p.
Proof.
  intros [HN Hrows] G.
  assert (finish (Out2 G0) true [N] hinf = Ok (Out2 G)) as Htrue
    by reflexivity.
  split; [exact Htrue|].
  apply (finish_paired (Out2 G0) N hinf G Htrue).
  split; [unfold G; now rewrite length_map|].
  intros row Hin. unfold G in Hin.
  apply in_map_iff in Hin as (row0 & <- & Hin0).
  rewrite length_map. now apply Hrows.
Qed.


(** ** Examples on the sample inputs *)

(** Stand-ins for the collaborators: a fixed [2 x 2] grid. *)
Definition sample_collaborators : Collaborators :=
  {| sf := fun _ _ _ => Ok (Out2 [[1; 2]; [3; 4]]%float);
     well_solution := fun _ _ _ _ _ => Ok (Out2 [[1; 2]; [3; 4]]%float) |}.

Lemma C1_four_cases_never_selected_witness :
  lap_transgwflow_cyl sample_externals doc_s doc_rad (Arr1 [0; 10]%float)
    (Arr1 [1e-3]%float) (Arr1 [1e-3]%float) (-1)%float
  = Raise (TypeError "len() of unsized object").
Proof.
  apply (proj1 (proj2 (C1_four_cases_never_selected _ _ _ _ _ _ _))
           1e-3%float).
  left. reflexivity.
Defined.

Lemma C8_zero_fill_unreached_witness :
  lap_transgwflow_cyl sample_externals doc_s (Arr1 [1; 20]%float)
    (Arr1 [0; 10]%float) (Arr1 [1e-3]%float) (Arr1 [1e-3]%float) (-1)%float
  = Raise (TypeError "len() of unsized object") /\
  exists res,
    lap_single_zone sample_externals (-1 / (2 * pi * 1e-3))%float
      (squeeze doc_s) (squeeze (Arr1 [1; 20]%float)) (Arr1 [0; 10]%float)
      (Arr1 [1e-3]%float) (Arr1 [1e-3]%float) = Ok res /\
    forall si se ri re,
      elems doc_s !! si = Some se ->
      elems (Arr1 [1; 20]%float) !! ri = Some re ->
      exists row,
        res !! si = Some row /\
        let '(Cs, As, Bs) :=
          single_zone_coeffs sample_externals (-1 / (2 * pi * 1e-3))%float
            (sqrt (1e-3 / 1e-3)) se 0%float 10%float in
        ((re <? 10)%float = true ->
           row !! ri
           = Some (As * i0 sample_externals (Cs * re)
                   + Bs * k0 sample_externals (Cs * re))%float)
        /\ ((10 <=? re)%float = true -> row !! ri = Some 0%float).
Proof.
  exact (C8_zero_fill_unreached sample_externals doc_s (Arr1 [1; 20]%float)
           0%float 10%float 1e-3%float 1e-3%float (-1)%float).
Defined.


Example diskmodel_grid_and_diagonal :
  diskmodel sample_collaborators sample_externals (Arr1 [1; 2]%float)
    [10; 100]%float doc_Tpart doc_Spart [2]%float (-1e-3)%float true
    0%float infinity 0%float (PyInt 12)
  = ([CallStehfest], Ok (Out2 [[1; 2]; [3; 4]]%float)) /\
  diskmodel sample_collaborators sample_externals (Arr1 [1; 2]%float)
    [10; 100]%float doc_Tpart doc_Spart [2]%float (-1e-3)%float false
    0%float infinity 0%float (PyInt 12)
  = ([CallStehfest], Ok (Out1 [1; 4]%float)).
Proof. split; reflexivity. Qed.

Example diskmodel_rejects_odd_order :
  diskmodel sample_collaborators sample_externals doc_rad [10; 100]%float
    doc_Tpart doc_Spart [2]%float (-1e-3)%float true 0%float infinity
    0%float (PyInt 11)
  = ([], Raise (ValueError
                  "The boundary for the Stehfest-algorithm needs to be even")).
Proof. reflexivity. Qed.

Example diskmodel_rejects_float_order :
  diskmodel sample_collaborators sample_externals doc_rad [10; 100]%float
    doc_Tpart doc_Spart [2]%float (-1e-3)%float true 0%float infinity
    0%float (PyFloat 12)
  = ([], Raise (ValueError
       "The boundary for the Stehfest-algorithm needs to be an integer")).
Proof. reflexivity. Qed.

Example theis_rejects_unpaired_lengths :
  theis sample_collaborators sample_externals doc_rad [10; 100]%float
    1e-3%float 1e-3%float (-1e-3)%float false 0%float infinity 0%float
    (PyInt 12)
  = ([], Raise (ValueError
       "For unstructured grid the number of time- & radii-pts must equal")).
Proof. reflexivity. Qed.

(** A radius at or beyond a finite [rinf] passes the checks of
    [diskmodel]: only the zone radii are compared with [rinf]. *)
Example diskmodel_accepts_radius_beyond_rinf :
  diskmodel_check [1; 20]%float [10; 100]%float doc_Tpart doc_Spart
    [2]%float true 0%float 10%float (PyInt 12) = None.
Proof. reflexivity. Qed.

(** ** Radii at or beyond the outer boundary, for several zones *)

Section OrderFacts.
Local Open Scope float_scope.

Lemma SFcompare_le_lt_trans (x y z : spec_float) :
  (SFcompare x y = Some Lt \/ SFcompare x y = Some Eq) ->
  SFcompare y z = Some Lt ->
  SFcompare x z = Some Lt.
Proof.
  destruct x as [sx|sx| |sx mx ex], y as [sy|sy| |sy my ey],
    z as [sz|sz| |sz mz ez]; simpl;
    intros [Hxy|Hxy] Hyz; try discriminate;
    repeat match goal with s : bool |- _ => destruct s end;
    try discriminate; try reflexivity; simpl in *.
  all: change (Pos.compare_cont Eq) with Pos.compare in *.
  all: destruct (Z.compare_spec ex ey), (Z.compare_spec ey ez),
      (Z.compare_spec ex ez); try discriminate; try reflexivity; try lia;
      subst;
      destruct (Pos.compare_spec mx my), (Pos.compare_spec my mz),
        (Pos.compare_spec mx mz); simpl in *; try discriminate;
        try reflexivity; try lia.
Qed.

Lemma leb_ltb_trans (a b c : float) :
  (a <=? b) = true -> (b <? c) = true -> (a <=? c) = true.
Proof.
  rewrite !FloatAxioms.leb_spec, FloatAxioms.ltb_spec.
  unfold SFleb, SFltb. intros Hab Hbc.
  rewrite (SFcompare_le_lt_trans (Prim2SF a) (Prim2SF b) (Prim2SF c));
    [reflexivity | |].
  - destruct (SFcompare (Prim2SF a) (Prim2SF b)) as [[]|]; auto; discriminate.
  - destruct (SFcompare (Prim2SF b) (Prim2SF c)) as [[]|]; auto; discriminate.
Qed.
End OrderFacts.

Lemma lookup0_cons (x : float) (l : list float) (i : nat) :
  lookup0 (x :: l) (S i) = lookup0 l i.
Proof. reflexivity. Qed.

Lemma lookup0_app_l (l1 l2 : list float) (i : nat) :
  (i < length l1)%nat -> lookup0 (l1 ++ l2) i = lookup0 l1 i.
Proof. intros H. unfold lookup0. now rewrite lookup_app_l. Qed.

Lemma lookup0_app_last (l : list float) (x : float) :
  lookup0 (l ++ [x]) (length l) = x.
Proof.
  unfold lookup0. rewrite lookup_app_r by lia. now rewrite Nat.sub_diag.
Qed.

Lemma existsb_false_lookup (p : float -> bool) (l : list float) (i : nat) :
  existsb p l = false -> (i < length l)%nat -> p (lookup0 l i) = false.
Proof.
  intros He Hi. destruct (p (lookup0 l i)) eqn:Hp; [|reflexivity].
  rewrite <- He. symmetry. apply existsb_exists.
  exists (lookup0 l i). split; [|exact Hp].
  eapply lookup_In. now apply lookup0_Some.
Qed.

(** With zone radii below [rinf], a radius at or beyond [rinf] lies in no
    zone of [rpart = [rwell] + Rpart + [rinf]]. *)
Lemma beyond_outer_no_zone (rwell rinf re : float) (Rpart : list float)
    (i : nat) :
  existsb (fun r => rinf <=? r)%float Rpart = false ->
  (rinf <=? re)%float = true ->
  (i < length Rpart + 1)%nat ->
  in_zone ((rwell :: Rpart) ++ [rinf]) re i = false.
Proof.
  intros HR Hre Hi. unfold in_zone. apply andb_false_iff. right.
  change ((rwell :: Rpart) ++ [rinf]) with (rwell :: (Rpart ++ [rinf])).
  replace (i + 1)%nat with (S i) by lia. rewrite lookup0_cons.
  destruct (Nat.eq_dec i (length Rpart)) as [->|Hne].
  - rewrite lookup0_app_last. now apply leb_ltb_false.
  - rewrite lookup0_app_l by lia.
    destruct (re <? lookup0 Rpart i)%float eqn:Hlt; [|reflexivity].
    rewrite <- (existsb_false_lookup _ Rpart i HR) by lia.
    symmetry. exact (leb_ltb_trans _ _ _ Hre Hlt).
Qed.

Lemma lap_transgwflow_cyl_zoned (E : Externals) (s rad : ndarray)
    (R Sl Tl : list float) (Qw : float) :
  (2 <= length Tl)%nat -> length Sl = length Tl ->
  (length Tl + 1 <= length R)%nat ->
  lap_transgwflow_cyl E s rad (Arr1 R) (Arr1 Sl) (Arr1 Tl) Qw
  = lap_multi_zone E (length Tl) (Qw / (2 * pi * lookup0 Tl 0))%float
      (squeeze s) (squeeze rad) (Arr1 R) (Arr1 Sl) (Arr1 Tl).
Proof.
  intros HT HS HR. unfold lap_transgwflow_cyl.
  rewrite !squeeze_long by lia. simpl len. simpl bind. simpl getitem.
  rewrite (list_get_zero Tl (lookup0 Tl 0)) by (apply lookup0_Some; lia).
  simpl bind.
  destruct (Nat.eqb_spec (length Tl) 1) as [H1|_]; [lia|reflexivity].
Qed.

Lemma Forall2_lookup_col {A B : Type} (P : A -> B -> Prop) (xs : list A)
    (ys : list B) (i : nat) (y : B) :
  Forall2 P xs ys -> ys !! i = Some y ->
  exists x, xs !! i = Some x /\ P x y.
Proof.
  intros H. revert i. induction H as [|x' y' xs ys Hxy _ IH]; intros i Hy.
  - destruct i; discriminate.
  - destruct i as [|i]; simpl in *.
    + injection Hy as <-. eauto.
    + now apply IH.
Qed.

(** ** C2, C4, C5: calls of [lap_transgwflow_cyl] *)

(** C2 (code). At least two zones and a positive inner boundary. The call
    returns, and the row of every Laplace point is computed from the
    solution of a system, assembled from a state of the loop, whose row [0]
    (the flux condition of the well, with right-hand side [Q/se]) holds
    [Cs[0]*r0*K1(Cs[0]*r0)] in column [1], the K0-coefficient of the first
    zone, and [-Cs[0]*r0*I1(Cs[0]*r0)] in column [2], the I0-coefficient of
    the second zone: column [0], the I0-coefficient of the first zone, is
    zero. The source writes the [I1] term to [Mb[0, 2]], which is entry
    [(0, 2)] of the matrix; entry [(0, 0)] is [Mb[2, 0]]. The closure rows
    of the outer boundary are as [boundary_rows_spec] has them. *)
Theorem C2_flux_row_misplaced (E : Externals) (s rad : ndarray)
    (R Sl Tl : list float) (Qw : float) :
  (2 <= length Tl)%nat -> length Sl = length Tl ->
  length R = (length Tl + 1)%nat ->
  (0 <? lookup0 R 0)%float = true ->
  let parts := length Tl in
  let Q := (Qw / (2 * pi * lookup0 Tl 0))%float in
  exists res,
    lap_transgwflow_cyl E s rad (Arr1 R) (Arr1 Sl) (Arr1 Tl) Qw = Ok res /\
    forall k se, elems s !! k = Some se ->
      let Cs := Cs_of (difsr_of Sl Tl) se in
      let c0 := lookup0 Cs 0 in
      let r0 := lookup0 R 0 in
      exists Mb V Mb' V',
        system_inv parts R Mb V /\
        assemble_system E parts Q (Arr1 R) Cs (tmp_of Sl Tl) se Mb V
        = Ok (Mb', V') /\
        res !! k
        = Some (map mask_nonfinite
                  (map (head_of E parts R Cs (solve E Mb' V' parts))
                     (elems rad))) /\
        spdiags_entry Mb' 0 0 = 0%float /\
        spdiags_entry Mb' 0 1 = (c0 * r0 * k1 E (c0 * r0))%float /\
        spdiags_entry Mb' 0 2 = (- c0 * r0 * i1 E (c0 * r0))%float /\
        (forall j, (3 <= j)%nat -> spdiags_entry Mb' 0 j = 0%float) /\
        lookup0 V' 0 = (Q / se)%float /\
        boundary_rows_spec E parts R Cs Mb' V'.
Proof.
  intros HT HS HR Hr0 parts Q.
  rewrite lap_transgwflow_cyl_zoned by (try assumption; lia).
  destruct (lap_multi_zone_run E parts Q (squeeze s) (squeeze rad) R Sl Tl
              HT eq_refl HS) as (rows & Hrun & Hrows); [lia|].
  exists (map (map mask_nonfinite) rows). split; [exact Hrun|].
  intros k se Hk Cs c0 r0. rewrite <- elems_squeeze in Hk.
  destruct (Forall2_lookup_row _ _ _ k se Hrows Hk)
    as (row & Hrow & Mb & V & Mb' & V' & Hinv & Hasm & ->).
  assert (length Cs = parts) as HCs
    by (unfold Cs, Cs_of; rewrite length_map; now apply length_difsr_of).
  assert (length (tmp_of Sl Tl) = (parts - 1)%nat) as Htmp
    by (now rewrite length_tmp_of).
  destruct (assemble_system_inv E parts Q R Cs (tmp_of Sl Tl) se Mb V HT)
    as (Mb1 & Hasm1 & _ & _); try assumption; [lia|].
  destruct (boundary_rows_of_system E parts Q R Cs (tmp_of Sl Tl) se Mb V
              HT HR HCs Htmp Hinv) as (Mb2 & V2 & Hasm2 & _ & Hrows2).
  fold Cs in Hasm. rewrite Hasm in Hasm1, Hasm2.
  injection Hasm1 as _ HV. injection Hasm2 as <- <-.
  destruct (proj1 Hrows2 Hr0) as (H01 & H02 & H0j).
  exists Mb, V, Mb', V'. split; [exact Hinv|]. split; [exact Hasm|].
  split; [rewrite lookup_map, Hrow, elems_squeeze; reflexivity|].
  split; [apply H0j; lia|]. split; [exact H01|]. split; [exact H02|].
  split; [intros j Hj; apply spdiags_entry_off; lia|].
  split; [|exact Hrows2].
  rewrite HV, lookup0_insert by (destruct Hinv as (_ & -> & _); lia).
  reflexivity.
Qed.

Lemma C2_flux_row_misplaced_witness :
  exists res,
    lap_transgwflow_cyl sample_externals doc_s doc_rad
      (Arr1 [0.1; 2; 10]%float) (Arr1 doc_Spart) (Arr1 doc_Tpart) (-1)%float
    = Ok res /\
    forall k se, elems doc_s !! k = Some se ->
      let Cs := Cs_of (difsr_of doc_Spart doc_Tpart) se in
      let c0 := lookup0 Cs 0 in
      let r0 := lookup0 [0.1; 2; 10]%float 0 in
      let Q := (-1 / (2 * pi * lookup0 doc_Tpart 0))%float in
      exists Mb V Mb' V',
        system_inv 2 [0.1; 2; 10]%float Mb V /\
        assemble_system sample_externals 2 Q (Arr1 [0.1; 2; 10]%float) Cs
          (tmp_of doc_Spart doc_Tpart) se Mb V = Ok (Mb', V') /\
        res !! k
        = Some (map mask_nonfinite
                  (map (head_of sample_externals 2 [0.1; 2; 10]%float Cs
                          (solve sample_externals Mb' V' 2))
                     (elems doc_rad))) /\
        spdiags_entry Mb' 0 0 = 0%float /\
        spdiags_entry Mb' 0 1
        = (c0 * r0 * k1 sample_externals (c0 * r0))%float /\
        spdiags_entry Mb' 0 2
        = (- c0 * r0 * i1 sample_externals (c0 * r0))%float /\
        (forall j, (3 <= j)%nat -> spdiags_entry Mb' 0 j = 0%float) /\
        lookup0 V' 0 = (Q / se)%float /\
        boundary_rows_spec sample_externals 2 [0.1; 2; 10]%float Cs Mb' V'.
Proof.
  apply (C2_flux_row_misplaced sample_externals doc_s doc_rad
           [0.1; 2; 10]%float doc_Spart doc_Tpart (-1)%float);
    reflexivity || (simpl; lia).
Defined.

(** The system of the first Laplace point of that call: the flux row reads
    [0, c, -c, 0] with [c = Cs[0]*r0]. *)
Example flux_row_on_sample :
  exists Mb' V',
    assemble_system sample_externals 2
      (-1 / (2 * pi * 1e-3))%float (Arr1 [0.1; 2; 10]%float)
      (Cs_of (difsr_of doc_Spart doc_Tpart) 5%float)
      (tmp_of doc_Spart doc_Tpart) 5%float start_Mb start_V = Ok (Mb', V') /\
    map (spdiags_entry Mb' 0) [0; 1; 2; 3]%nat
    = [0; sqrt 5 * sqrt (1e-3 / 1e-3) * 0.1 * 1;
       - (sqrt 5 * sqrt (1e-3 / 1e-3)) * 0.1 * 1; 0]%float.
Proof. eexists _, _. split; reflexivity. Qed.

(** C4 (code). With at least two zones the call returns whatever the
    solver answers: every coefficient read from the solver is the solver's
    value when that is finite and zero when it is not, the returned array
    has one row per Laplace point and one entry per radius, every entry is
    the head computed for it when that is finite and zero when it is not,
    and so every entry is finite. With one zone the call aborts: it ends
    with the [TypeError] of [len(Tpart)] and returns no array. *)
Theorem C4_masked_or_aborted (E : Externals) (s rad rpart Spart : ndarray)
    (R Sl Tl : list float) (T Qw : float) :
  ((2 <= length Tl)%nat -> length Sl = length Tl ->
   (length Tl + 1 <= length R)%nat ->
   let parts := length Tl in
   let Q := (Qw / (2 * pi * lookup0 Tl 0))%float in
   (forall Mb V j,
      solve E Mb V parts j
      = let x := spsolve E (spdiags Mb (2 * parts)) V j in
        if isfinite x then x else 0%float) /\
   exists raw res,
     Forall2 (row_spec E parts Q R (squeeze rad) (difsr_of Sl Tl)
                (tmp_of Sl Tl)) (elems s) raw /\
     lap_transgwflow_cyl E s rad (Arr1 R) (Arr1 Sl) (Arr1 Tl) Qw = Ok res /\
     length res = length (elems s) /\
     (forall k row, raw !! k = Some row ->
        length row = length (elems rad) /\
        res !! k
        = Some (map (fun x => if isfinite x then x else 0%float) row)) /\
     (forall row x, In row res -> In x row -> isfinite x = true)) /\
  lap_transgwflow_cyl E s rad rpart Spart (Arr1 [T]) Qw
  = Raise (TypeError "len() of unsized object").
Proof.
  split; [|reflexivity].
  intros HT HS HR parts Q. split; [reflexivity|].
  rewrite lap_transgwflow_cyl_zoned by assumption.
  destruct (lap_multi_zone_run E parts Q (squeeze s) (squeeze rad) R Sl Tl
              HT eq_refl HS HR) as (rows & Hrun & Hrows).
  rewrite elems_squeeze in Hrows.
  exists rows, (map (map mask_nonfinite) rows).
  split; [exact Hrows|]. split; [exact Hrun|]. split; [|split].
  - rewrite length_map. symmetry. exact (Forall2_length _ _ _ Hrows).
  - intros k row Hrow. split.
    + destruct (Forall2_lookup_col _ _ _ k row Hrows Hrow)
        as (se & _ & Mb & V & Mb' & V' & _ & _ & ->).
      now rewrite length_map, elems_squeeze.
    + now rewrite lookup_map, Hrow.
  - apply masked_rows_finite.
Qed.

Lemma C4_masked_or_aborted_witness :
  ((forall Mb V j,
      solve sample_externals Mb V 2 j
      = let x := spsolve sample_externals (spdiags Mb 4) V j in
        if isfinite x then x else 0%float) /\
   exists raw res,
     Forall2 (row_spec sample_externals 2
                (-1 / (2 * pi * lookup0 doc_Tpart 0))%float doc_rpart
                (squeeze doc_rad) (difsr_of doc_Spart doc_Tpart)
                (tmp_of doc_Spart doc_Tpart)) (elems doc_s) raw /\
     lap_transgwflow_cyl sample_externals doc_s doc_rad (Arr1 doc_rpart)
       (Arr1 doc_Spart) (Arr1 doc_Tpart) (-1)%float = Ok res /\
     length res = length (elems doc_s) /\
     (forall k row, raw !! k = Some row ->
        length row = length (elems doc_rad) /\
        res !! k
        = Some (map (fun x => if isfinite x then x else 0%float) row)) /\
     (forall row x, In row res -> In x row -> isfinite x = true)) /\
  lap_transgwflow_cyl sample_externals doc_s doc_rad (Arr1 [0; 10]%float)
    (Arr1 [1e-3]%float) (Arr1 [1e-3]%float) (-1)%float
  = Raise (TypeError "len() of unsized object").
Proof.
  destruct (C4_masked_or_aborted sample_externals doc_s doc_rad
              (Arr1 [0; 10]%float) (Arr1 [1e-3]%float) doc_rpart doc_Spart
              doc_Tpart 1e-3%float (-1)%float) as [Hzoned Hsingle].
  split; [|exact Hsingle].
  apply Hzoned; reflexivity || (simpl; lia).
Defined.

(** C5 (code). A single zone, given as the vectors [rpart = [r0, rN]],
    [Spart = [S]] and [Tpart = [T]], yields head values on neither path.
    The call ends with the [TypeError] of [len(Tpart)] before either path
    is chosen; and the equation-system path, run on the arrays the call
    holds after [np.squeeze] with any number of zones, raises an
    [IndexError]: the squeezed [Tpart] is a rank-0 array, which
    [Tpart[:-1]] cannot slice. *)
Theorem C5_single_zone_no_heads (E : Externals) (s rad : ndarray)
    (r0 rN S T Qw : float) :
  lap_transgwflow_cyl E s rad (Arr1 [r0; rN]) (Arr1 [S]) (Arr1 [T]) Qw
  = Raise (TypeError "len() of unsized object") /\
  forall parts Q,
    exists msg,
      lap_multi_zone E parts Q (squeeze s) (squeeze rad)
        (squeeze (Arr1 [r0; rN])) (squeeze (Arr1 [S])) (squeeze (Arr1 [T]))
      = Raise (IndexError msg).
Proof.
  split; [reflexivity|].
  intros [|[|parts]] Q.
  - eexists. reflexivity.
  - eexists. reflexivity.
  - remember (Datatypes.S (Datatypes.S parts)) as n eqn:Hn.
    destruct (system_inv_init n [r0; rN]) as (Mb0 & Hinit & _); [lia|].
    unfold lap_multi_zone.
    destruct (band_set (replicate 5 (replicate (2 * n) 0%float))
                1 1 1%float) as [Mb1|e] eqn:H1; [|discriminate Hinit].
    simpl bind in Hinit |- *. rewrite Hinit. eexists. reflexivity.
Qed.

Lemma C5_single_zone_no_heads_witness :
  lap_transgwflow_cyl sample_externals doc_s doc_rad (Arr1 [0.1; 10]%float)
    (Arr1 [1e-3]%float) (Arr1 [1e-3]%float) (-1)%float
  = Raise (TypeError "len() of unsized object") /\
  forall parts Q,
    exists msg,
      lap_multi_zone sample_externals parts Q (squeeze doc_s)
        (squeeze doc_rad) (squeeze (Arr1 [0.1; 10]%float))
        (squeeze (Arr1 [1e-3]%float)) (squeeze (Arr1 [1e-3]%float))
      = Raise (IndexError msg).
Proof.
  exact (C5_single_zone_no_heads sample_externals doc_s doc_rad 0.1%float
           10%float 1e-3%float 1e-3%float (-1)%float).
Defined.

(** For arguments that pass the checks of [diskmodel], with at least two
    zones, the solver returns exactly zero at every radius at or beyond
    [rinf], for every Laplace point, whatever the Bessel functions and the
    solver answer. *)
Theorem multi_zone_zero_beyond_outer (E : Externals) (s rad : ndarray)
    (time Tpart Spart Rpart : list float) (Qw : float) (struc_grid : bool)
    (rwell rinf : float) (stehfestn : pyval) :
  diskmodel_check (elems rad) time Tpart Spart Rpart struc_grid rwell rinf
    stehfestn = None ->
  (2 <= length Tpart)%nat -> length Spart = length Tpart ->
  length Tpart = (length Rpart + 1)%nat ->
  exists res,
    lap_transgwflow_cyl E s rad (Arr1 ((rwell :: Rpart) ++ [rinf]))
      (Arr1 Spart) (Arr1 Tpart) Qw = Ok res /\
    forall si row ri re,
      res !! si = Some row -> elems rad !! ri = Some re ->
      (rinf <=? re)%float = true -> row !! ri = Some 0%float.
Proof.
  intros Hchk HT HS HR.
  assert (existsb (fun r => rinf <=? r)%float Rpart = false) as Hbelow.
  { unfold diskmodel_check in Hchk.
    repeat match type of Hchk with
           | (if ?b then Some _ else _) = None =>
               destruct b eqn:?; [discriminate Hchk|]
           end.
    reflexivity. }
  assert (length ((rwell :: Rpart) ++ [rinf]) = (length Tpart + 1)%nat) as HlenR
    by (rewrite length_app; simpl; lia).
  rewrite lap_transgwflow_cyl_zoned by (try assumption; lia).
  destruct (lap_multi_zone_run E (length Tpart)
              (Qw / (2 * pi * lookup0 Tpart 0))%float (squeeze s)
              (squeeze rad) ((rwell :: Rpart) ++ [rinf]) Spart Tpart HT
              eq_refl HS) as (rows & Hrun & Hrows); [lia|].
  exists (map (map mask_nonfinite) rows). split; [exact Hrun|].
  intros si row ri re Hrow Hre Hbeyond.
  rewrite lookup_map in Hrow.
  destruct (rows !! si) as [row'|] eqn:Hrow'; [|discriminate].
  injection Hrow as <-.
  destruct (Forall2_lookup_col _ _ _ si row' Hrows Hrow')
    as (se & _ & Mb & V & Mb' & V' & _ & _ & ->).
  rewrite !lookup_map, elems_squeeze, Hre. simpl.
  rewrite head_of_none; [reflexivity|].
  intros j Hj. apply beyond_outer_no_zone; [assumption..|lia].
Qed.

Lemma multi_zone_zero_beyond_outer_witness :
  exists res,
    lap_transgwflow_cyl sample_externals doc_s (Arr1 [1; 20]%float)
      (Arr1 ((0 :: [2]) ++ [10])%float) (Arr1 doc_Spart) (Arr1 doc_Tpart)
      (-1e-3)%float = Ok res /\
    forall si row ri re,
      res !! si = Some row -> elems (Arr1 [1; 20]%float) !! ri = Some re ->
      (10 <=? re)%float = true -> row !! ri = Some 0%float.
Proof.
  apply (multi_zone_zero_beyond_outer sample_externals doc_s
           (Arr1 [1; 20]%float) [10; 100]%float doc_Tpart doc_Spart
           [2]%float (-1e-3)%float true 0%float 10%float (PyInt 12));
    reflexivity || (simpl; lia).
Defined.

(** ** The interface rows of the assembled system *)

(** Rows [2i+1] and [2i+2] of the matrix: continuity of the head and of the
    flux at the interface [rpart[i+1]] of zone [i] and zone [i+1], each
    side with its own [Cs], the flux of zone [i] scaled by [tmp[i]]. *)
Definition interface_rows_in_matrix (E : Externals) (R Cs tmp : list float)
    (Mb' : band) (i : nat) : Prop :=
  let r := lookup0 R (i + 1) in
  let c := lookup0 Cs i in
  let c1 := lookup0 Cs (i + 1) in
  let t := lookup0 tmp i in
  let M := spdiags_entry Mb' in
  (M (2 * i + 1) (2 * i) = i0 E (c * r)%float /\
   M (2 * i + 1) (2 * i + 1) = k0 E (c * r)%float /\
   M (2 * i + 1) (2 * i + 2) = (- i0 E (c1 * r))%float /\
   M (2 * i + 1) (2 * i + 3) = (- k0 E (c1 * r))%float /\
   M (2 * i + 2) (2 * i) = (t * i1 E (c * r))%float /\
   M (2 * i + 2) (2 * i + 1) = (- t * k1 E (c * r))%float /\
   M (2 * i + 2) (2 * i + 2) = (- i1 E (c1 * r))%float /\
   M (2 * i + 2) (2 * i + 3) = k1 E (c1 * r)%float)%nat.

(** For at least two zones every interface contributes its two rows to the
    system of every Laplace point. *)
Theorem interface_rows_assembled (E : Externals) (parts : nat) (Q : float)
    (R Cs tmp : list float) (se : float) (Mb : band) (V : list float)
    (i : nat) :
  (2 <= parts)%nat -> length R = (parts + 1)%nat -> length Cs = parts ->
  length tmp = (parts - 1)%nat ->
  system_inv parts R Mb V -> (i < parts - 1)%nat ->
  exists Mb' V',
    assemble_system E parts Q (Arr1 R) Cs tmp se Mb V = Ok (Mb', V') /\
    interface_rows_in_matrix E R Cs tmp Mb' i.
Proof.
  intros Hp HR HCs Htmp (Hs & HV & _) Hi.
  destruct (assemble_system_spec E parts Q R Cs tmp se Mb V)
    as (Mb' & Hrun & _ & G); try assumption; try lia.
  exists Mb', (<[0%nat := (Q / se)%float]> V). split; [exact Hrun|].
  unfold interface_rows_in_matrix. cbv zeta.
  repeat split.
  - rewrite (spdiags_entry_band Mb' _ _ 3) by lia.
    rewrite G, (interface_cells_value E R Cs tmp _ i) by (simpl; cases_eqb).
    simpl. cases_eqb.
  - rewrite (spdiags_entry_band Mb' _ _ 2) by lia.
    rewrite G, (interface_cells_value E R Cs tmp _ i) by (simpl; cases_eqb).
    simpl. cases_eqb.
  - rewrite (spdiags_entry_band Mb' _ _ 1) by lia.
    rewrite G, (interface_cells_value E R Cs tmp _ i) by (simpl; cases_eqb).
    simpl. cases_eqb.
  - rewrite (spdiags_entry_band Mb' _ _ 0) by lia.
    rewrite G, (interface_cells_value E R Cs tmp _ i) by (simpl; cases_eqb).
    reflexivity.
  - rewrite (spdiags_entry_band Mb' _ _ 4) by lia.
    rewrite G, (interface_cells_value E R Cs tmp _ i) by (simpl; cases_eqb).
    reflexivity.
  - rewrite (spdiags_entry_band Mb' _ _ 3) by lia.
    rewrite G, (interface_cells_value E R Cs tmp _ i) by (simpl; cases_eqb).
    simpl. cases_eqb.
  - rewrite (spdiags_entry_band Mb' _ _ 2) by lia.
    rewrite G, (interface_cells_value E R Cs tmp _ i) by (simpl; cases_eqb).
    simpl. cases_eqb.
  - rewrite (spdiags_entry_band Mb' _ _ 1) by lia.
    rewrite G, (interface_cells_value E R Cs tmp _ i) by (simpl; cases_eqb).
    simpl. cases_eqb.
Qed.

Lemma interface_rows_assembled_witness :
  exists Mb' V',
    assemble_system sample_externals 2 (-1)%float
      (Arr1 [0.1; 2; 10]%float) [1; 1]%float [1]%float 5%float
      start_Mb start_V = Ok (Mb', V') /\
    interface_rows_in_matrix sample_externals [0.1; 2; 10]%float
      [1; 1]%float [1]%float Mb' 0.
Proof.
  apply interface_rows_assembled; try reflexivity; try lia.
  repeat split; try reflexivity.
  - intros [|[|[|[|[|k]]]]] row H; simpl in H; inversion H; reflexivity.
  - intros [|[|[|[|j]]]] Hj; try lia; reflexivity.
Defined.

(** ** The four cases of the homogeneous branch on the sample inputs *)

Example single_zone_cases :
  let E := sample_externals in
  single_zone_coeffs E (-1) 1 4 0 infinity = (2, 0, -0.25)%float /\
  single_zone_coeffs E (-1) 1 4 0 10 = (2, 0.25, -0.25)%float /\
  single_zone_coeffs E (-1) 1 4 0.5 infinity = (2, 0, -0.25)%float /\
  single_zone_coeffs E (-1) 1 4 0.5 10 = (2, 0.125, -0.125)%float.
Proof. repeat split; reflexivity. Qed.

(** ** Runs of checks *)

Section Checks.
Implicit Types (checks : list (bool * string)) (msg : string).

(** [msg] belongs to the first check of the run whose condition holds. *)
Definition first_failing checks msg : Prop :=
  exists before after,
    checks = before ++ (true, msg) :: after /\
    forall c, In c before -> fst c = false.

Lemma first_failing_In checks msg :
  first_failing checks msg -> In (true, msg) checks.
Proof.
  intros (before & after & -> & _). apply in_or_app. right. now left.
Qed.

Lemma first_failure_some checks msg :
  In (true, msg) checks ->
  exists msg', first_failure checks = Some msg' /\ first_failing checks msg'.
Proof.
  induction checks as [|[cond m] checks IH]; intros Hin; [destruct Hin|].
  simpl. destruct cond.
  - exists m. split; [reflexivity|]. exists [], checks.
    split; [reflexivity|]. intros c [].
  - destruct Hin as [Heq|Hin]; [discriminate|].
    destruct (IH Hin) as (msg' & Hf & before & after & -> & Hbefore).
    exists msg'. split; [exact Hf|]. exists ((false, m) :: before), after.
    split; [reflexivity|]. intros c [<-|Hc]; [reflexivity | now apply Hbefore].
Qed.

Lemma first_failure_none_inv checks msg :
  first_failure checks = None -> ~ In (true, msg) checks.
Proof.
  intros Hnone Hin. destruct (first_failure_some _ _ Hin) as (m & Hm & _).
  congruence.
Qed.
End Checks.

(** ** Exact quotients, products and sums of binary64 *)

Section ExactFloats.
Local Open Scope float_scope.

Lemma div_eucl_mul (a b : Z) : b <> 0%Z -> Z.div_eucl (a * b) b = (a, 0%Z).
Proof.
  intros Hb.
  pose proof (Z.div_mul a b Hb) as Hq.
  pose proof (Z.mod_mul a b Hb) as Hr.
  unfold Z.div, Z.modulo in *.
  destruct (Z.div_eucl (a * b) b) as [q r]. congruence.
Qed.

Lemma SFdiv_self (s : bool) (m : positive) (e : Z) :
  SFdiv prec emax (S754_finite s m e) (S754_finite s m e) = Prim2SF 1.
Proof.
  unfold SFdiv, SFdiv_core_binary.
  rewrite Z.sub_diag.
  replace (Z.sub (Z.add (Zdigits2 (Zpos m)) e) (Z.add (Zdigits2 (Zpos m)) e))
    with 0%Z by lia.
  change (Z.min (fexp prec emax 0) 0) with (-53)%Z.
  change (0 - -53)%Z with 53%Z.
  cbv iota.
  rewrite Z.shiftl_mul_pow2 by lia.
  rewrite Z.mul_comm.
  rewrite div_eucl_mul by lia.
  replace (new_location (Z.pos m) 0) with loc_Exact.
  2:{ unfold new_location, new_location_even, new_location_odd.
      destruct (Z.even (Z.pos m)); reflexivity. }
  destruct s; vm_compute; reflexivity.
Qed.

(** A finite number that is not a zero, divided by itself, is one. *)
Lemma div_self (x : float) :
  is_finite x = true -> (x =? 0) = false -> x / x = 1.
Proof.
  intros Hf Hz. apply Prim2SF_inj. rewrite div_spec.
  rewrite is_finite_spec in Hf. rewrite FloatAxioms.eqb_spec in Hz.
  change (Prim2SF 0) with (S754_zero false) in Hz.
  unfold SF64div.
  destruct (Prim2SF x) as [s|s| |s m e]; try discriminate.
  apply SFdiv_self.
Qed.

Lemma leb_false_eqb (a b : float) : (a <=? b) = false -> (a =? b) = false.
Proof.
  rewrite FloatAxioms.leb_spec, FloatAxioms.eqb_spec. unfold SFleb, SFeqb.
  destruct (SFcompare (Prim2SF a) (Prim2SF b)) as [[]|]; congruence.
Qed.

(** A finite number times zero is a zero. *)
Lemma mul_zero_finite (c : float) :
  is_finite c = true -> exists s, Prim2SF (c * 0) = S754_zero s.
Proof.
  intros Hf. rewrite is_finite_spec in Hf. rewrite mul_spec.
  change (Prim2SF 0) with (S754_zero false). unfold SF64mul.
  destruct (Prim2SF c) as [s|s| |s m e]; try discriminate; simpl; eauto.
Qed.

(** A zero added to a number gives a number that compares equal to it. *)
Lemma add_zero_eqb (z h : float) (s : bool) :
  Prim2SF z = S754_zero s -> (h =? h) = true -> (z + h =? h) = true.
Proof.
  intros Hz Hh. rewrite FloatAxioms.eqb_spec in *. rewrite add_spec, Hz.
  unfold SF64add, SFeqb in *.
  destruct (Prim2SF h) as [sh|sh| |sh mh eh]; simpl in *; try discriminate.
  - destruct s, sh; reflexivity.
  - destruct sh; reflexivity.
  - exact Hh.
Qed.
End ExactFloats.

(** ** [thiem] *)

Lemma elems_nd_map (f : float -> float) (a : ndarray) :
  elems (nd_map f a) = map f (elems a).
Proof. destruct a; reflexivity. Qed.

Lemma shape_nd_map (f : float -> float) (a : ndarray) :
  shape (nd_map f a) = shape a.
Proof. destruct a; simpl; [reflexivity | now rewrite length_map]. Qed.

(** Stand-ins for numpy and scipy in the examples. *)
Definition sample_numerics : Numerics :=
  {| np_log := fun x => (x - 1)%float;
     np_exp := fun x => (x + 1)%float;
     np_sinh := fun x => x;
     np_cosh := fun _ => 1%float;
     expi := fun x => x;
     exp1 := fun x => x;
     py_pow := fun x _ => (x * x)%float;
     scalar_power := fun x _ => (x * x)%float;
     np_power := fun x _ => (x * x)%float |}.

(** [thiem] checks and returns. A reference radius, a radius or a
    transmissivity that is zero or negative ends the call with a
    [ValueError] whose message is that of the first check, in the order of
    the source, that failed. When no check fails the call returns one head
    per radius, in the shape of the squeezed radii: a scalar for a single
    radius. *)
Theorem thiem_checks_or_heads (N : Numerics) (rad : ndarray)
    (Rref T Qw href : float) :
  (forall msg, In (true, msg) (thiem_checks (elems rad) Rref T) ->
     exists msg',
       thiem N rad Rref T Qw href = Raise (ValueError msg') /\
       first_failing (thiem_checks (elems rad) Rref T) msg') /\
  ((Rref <=? 0)%float = false ->
   (forall r, In r (elems rad) -> (r <=? 0)%float = false) ->
   (T <=? 0)%float = false ->
   exists res,
     thiem N rad Rref T Qw href = Ok res /\
     shape res = shape (squeeze rad) /\
     (forall x, rad = Arr1 [x] -> res = Arr0 (thiem_head N Rref T Qw href x)) /\
     forall i r, elems rad !! i = Some r ->
       elems res !! i = Some (thiem_head N Rref T Qw href r)).
Proof.
  split.
  - intros msg Hin. unfold thiem. rewrite elems_squeeze.
    destruct (first_failure_some _ _ Hin) as (msg' & -> & Hin').
    exists msg'. split; [reflexivity | exact Hin'].
  - intros HR Hrad HT. unfold thiem. rewrite elems_squeeze.
    assert (existsb (fun r => r <=? 0)%float (elems rad) = false) as Hex.
    { destruct (existsb _ _) eqn:Hx; [|reflexivity].
      apply existsb_exists in Hx as (r & Hr & Hle).
      now rewrite (Hrad r Hr) in Hle. }
    unfold thiem_checks, raise_if. simpl. rewrite HR, Hex, HT.
    eexists. split; [reflexivity|]. split; [apply shape_nd_map|]. split.
    + intros x ->. reflexivity.
    + intros i r Hi. rewrite elems_nd_map, elems_squeeze, lookup_map, Hi.
      reflexivity.
Qed.

Lemma thiem_checks_or_heads_witness :
  exists res,
    thiem sample_numerics (Arr1 [1; 2; 3]%float) 10 0.001 (-0.001) 0 = Ok res /\
    shape res = shape (squeeze (Arr1 [1; 2; 3]%float)) /\
    (forall x, Arr1 [1; 2; 3]%float = Arr1 [x] ->
       res = Arr0 (thiem_head sample_numerics 10 0.001 (-0.001) 0 x)) /\
    forall i r, elems (Arr1 [1; 2; 3]%float) !! i = Some r ->
      elems res !! i = Some (thiem_head sample_numerics 10 0.001 (-0.001) 0 r).
Proof.
  apply (proj2 (thiem_checks_or_heads sample_numerics (Arr1 [1; 2; 3]%float)
                  10 0.001 (-0.001) 0)); try reflexivity.
  intros r [<-|[<-|[<-|[]]]]; reflexivity.
Defined.

(** The reference head is met at the reference radius: where a requested
    radius equals a finite [Rref], the head [thiem] returns compares equal
    to [href], provided [np.log(1.0)] is [0.0], the factor [-Qw/(2*pi*T)]
    is finite and [href] is a number. *)
Theorem thiem_reference_head (N : Numerics) (rad res : ndarray)
    (Rref T Qw href : float) (i : nat) :
  np_log N 1 = 0%float ->
  thiem N rad Rref T Qw href = Ok res ->
  elems rad !! i = Some Rref ->
  is_finite Rref = true ->
  is_finite (- Qw / (2 * pi * T))%float = true ->
  (href =? href)%float = true ->
  exists h, elems res !! i = Some h /\ (h =? href)%float = true.
Proof.
  intros Hlog Hrun Hi HfR Hfc Hh. unfold thiem in Hrun.
  rewrite elems_squeeze in Hrun.
  destruct (first_failure _) as [msg|] eqn:Hchk; [discriminate|].
  injection Hrun as <-.
  assert ((Rref <=? 0)%float = false) as HR.
  { destruct (Rref <=? 0)%float eqn:Hle; [|reflexivity].
    exfalso. eapply first_failure_none_inv; [exact Hchk|].
    unfold thiem_checks, raise_if. rewrite Hle. left. reflexivity. }
  exists (thiem_head N Rref T Qw href Rref). split.
  - rewrite elems_nd_map, elems_squeeze, lookup_map, Hi. reflexivity.
  - unfold thiem_head.
    rewrite (div_self Rref HfR (leb_false_eqb _ _ HR)), Hlog.
    destruct (mul_zero_finite _ Hfc) as (s & Hz).
    exact (add_zero_eqb _ _ s Hz Hh).
Qed.

Lemma thiem_reference_head_witness :
  exists h,
    elems (nd_map (thiem_head sample_numerics 10 0.001 0.001 0.5)
             (Arr1 [1; 10]%float)) !! 1%nat = Some h /\
    (h =? 0.5)%float = true.
Proof.
  apply (thiem_reference_head sample_numerics (Arr1 [1; 10]%float) _ 10
           0.001 0.001 0.5 1); reflexivity.
Defined.

(** ** The rows of the zoned solver do not depend on each other *)

Section RowsIndependent.
Context (E : Externals).
Local Open Scope nat_scope.

(** The cells the first [m] passes of the interface loop write. *)
Fixpoint interface_written (m k j : nat) : bool :=
  match m with
  | O => false
  | S m' => interface_writes m' k j || interface_written m' k j
  end.

(** The cells the two boundary blocks write. *)
Definition boundary_written (n : nat) (r0 rN : float) (k j : nat) : bool :=
  (0 <? r0)%float
  && (Nat.eqb k 0 && Nat.eqb j 2 || Nat.eqb k 1 && Nat.eqb j 1)
  || (rN <? infinity)%float
     && (Nat.eqb k 3 && Nat.eqb j (n - 2) || Nat.eqb k 2 && Nat.eqb j (n - 1)).

Lemma interface_cells_written (R Cs tmp : list float) (m k j : nat)
    (old old' : float) :
  interface_written m k j = true ->
  interface_cells E R Cs tmp m k j old = interface_cells E R Cs tmp m k j old'.
Proof.
  induction m as [|m IH]; simpl; [discriminate|].
  destruct (interface_writes m k j); [reflexivity | exact IH].
Qed.

Lemma interface_cells_unwritten (R Cs tmp : list float) (m k j : nat)
    (old : float) :
  interface_written m k j = false ->
  interface_cells E R Cs tmp m k j old = old.
Proof.
  induction m as [|m IH]; simpl; [reflexivity|].
  destruct (interface_writes m k j); [discriminate | exact IH].
Qed.

Lemma boundary_cells_written (n : nat) (r0 rN c0 cN : float) (k j : nat)
    (old old' : float) :
  boundary_written n r0 rN k j = true ->
  boundary_cells E n r0 rN c0 cN k j old
  = boundary_cells E n r0 rN c0 cN k j old'.
Proof.
  unfold boundary_written, boundary_cells.
  destruct (0 <? r0)%float, (rN <? infinity)%float,
    (Nat.eqb k 0 && Nat.eqb j 2), (Nat.eqb k 1 && Nat.eqb j 1),
    (Nat.eqb k 3 && Nat.eqb j (n - 2)), (Nat.eqb k 2 && Nat.eqb j (n - 1));
    simpl; intros H; try discriminate; reflexivity.
Qed.

Lemma boundary_cells_unwritten (n : nat) (r0 rN c0 cN : float) (k j : nat)
    (old : float) :
  boundary_written n r0 rN k j = false ->
  boundary_cells E n r0 rN c0 cN k j old = old.
Proof.
  unfold boundary_written, boundary_cells.
  destruct (0 <? r0)%float, (rN <? infinity)%float,
    (Nat.eqb k 0 && Nat.eqb j 2), (Nat.eqb k 1 && Nat.eqb j 1),
    (Nat.eqb k 3 && Nat.eqb j (n - 2)), (Nat.eqb k 2 && Nat.eqb j (n - 1));
    simpl; intros H; try discriminate; reflexivity.
Qed.

(** The cells one pass of the loop over the Laplace points writes: they
    depend on the number of zones and on the two outer boundaries, not on
    the Laplace point. *)
Definition written (parts : nat) (R : list float) (k j : nat) : bool :=
  interface_written (parts - 1) k j
  || boundary_written (2 * parts) (lookup0 R 0) (lookup0 R (length R - 1)) k j.

(** Two states of the loop that agree on every cell no pass writes, and
    on the right-hand side beyond its first entry. *)
Definition same_unwritten (parts : nat) (R : list float) (Mb Mb0 : band)
    (V V0 : list float) : Prop :=
  band_shape (2 * parts) Mb /\ band_shape (2 * parts) Mb0 /\
  length V = 2 * parts /\ length V0 = 2 * parts /\
  (forall k j, written parts R k j = false ->
     band_get Mb k j = band_get Mb0 k j) /\
  (forall j, 1 <= j -> V !! j = V0 !! j).

Lemma spdiags_ext (Mb Mb' : band) (n : nat) :
  (forall k j, band_get Mb k j = band_get Mb' k j) ->
  spdiags Mb n = spdiags Mb' n.
Proof.
  intros Hget. unfold spdiags. apply map_ext. intros i. apply map_ext.
  intros j. unfold spdiags_entry. now rewrite Hget.
Qed.

(** From two such states the assembly of one Laplace point gives the same
    matrix and the same right-hand side, and the states still agree. *)
Lemma assemble_system_same (parts : nat) (Q : float) (R Cs tmp : list float)
    (se : float) (Mb Mb0 : band) (V V0 : list float) :
  2 <= parts -> parts + 1 <= length R -> length Cs = parts ->
  length tmp = parts - 1 ->
  same_unwritten parts R Mb Mb0 V V0 ->
  exists Mb' Mb0' V',
    assemble_system E parts Q (Arr1 R) Cs tmp se Mb V = Ok (Mb', V') /\
    assemble_system E parts Q (Arr1 R) Cs tmp se Mb0 V0 = Ok (Mb0', V') /\
    spdiags Mb' (2 * parts) = spdiags Mb0' (2 * parts) /\
    same_unwritten parts R Mb' Mb0 V' V0.
Proof.
  intros Hp HR HCs Htmp (Hs & Hs0 & HV & HV0 & Hcells & Htail).
  destruct (assemble_system_spec E parts Q R Cs tmp se Mb V)
    as (Mb' & Hrun & Hs' & G); try assumption; try lia.
  destruct (assemble_system_spec E parts Q R Cs tmp se Mb0 V0)
    as (Mb0' & Hrun0 & Hs0' & G0); try assumption; try lia.
  assert (<[0 := (Q / se)%float]> V = <[0 := (Q / se)%float]> V0) as HVeq.
  { apply list_eq. intros [|j].
    - rewrite !list_lookup_insert_eq by lia. reflexivity.
    - rewrite !list_lookup_insert_ne by lia. apply Htail. lia. }
  assert (forall k j,
    band_get Mb' k j
    = if written parts R k j then band_get Mb0' k j else band_get Mb k j)
    as Hcell.
  { intros k j. rewrite G, G0. unfold written.
    destruct (interface_written (parts - 1) k j) eqn:Hi; simpl.
    - now apply interface_cells_written.
    - rewrite !interface_cells_unwritten by exact Hi.
      destruct (boundary_written _ _ _ k j) eqn:Hb.
      + now apply boundary_cells_written.
      + now apply boundary_cells_unwritten. }
  assert (forall k j,
    written parts R k j = false -> band_get Mb0' k j = band_get Mb0 k j)
    as Hkeep.
  { intros k j Hw. rewrite G0. unfold written in Hw.
    apply orb_false_iff in Hw as [Hi Hb].
    rewrite interface_cells_unwritten by exact Hi.
    now apply boundary_cells_unwritten. }
  exists Mb', Mb0', (<[0 := (Q / se)%float]> V).
  split; [exact Hrun|]. split; [now rewrite HVeq|]. split.
  - apply spdiags_ext. intros k j. rewrite Hcell.
    destruct (written parts R k j) eqn:Hw; [reflexivity|].
    rewrite Hkeep by exact Hw. now apply Hcells.
  - split; [exact Hs'|]. split; [exact Hs0|].
    split; [now rewrite length_insert|]. split; [exact HV0|]. split.
    + intros k j Hw. rewrite Hcell, Hw. now apply Hcells.
    + intros j Hj. rewrite list_lookup_insert_ne by lia. now apply Htail.
Qed.

(** The row of the Laplace point [se], assembled from the state the loop
    starts with. *)
Definition first_row (parts : nat) (Q : float) (R : list float)
    (rad : ndarray) (difsr tmp : list float) (Mb0 : band) (V0 : list float)
    (se : float) : list float :=
  match assemble_system E parts Q (Arr1 R) (Cs_of difsr se) tmp se Mb0 V0 with
  | Ok (Mb', V') =>
      map (head_of E parts R (Cs_of difsr se) (solve E Mb' V' parts))
        (elems rad)
  | Raise _ => []
  end.

Lemma multi_zone_loop_rows (parts : nat) (Q : float) (R : list float)
    (rad : ndarray) (difsr tmp : list float) (Mb0 : band) (V0 : list float)
    (xs : list float) :
  2 <= parts -> parts + 1 <= length R ->
  length difsr = parts -> length tmp = parts - 1 ->
  forall Mb V res, same_unwritten parts R Mb Mb0 V V0 ->
  exists Mb' V',
    for_each xs (multi_zone_step E parts Q (Arr1 R) rad difsr tmp)
      (Mb, V, res)
    = Ok (Mb', V',
          res ++ map (first_row parts Q R rad difsr tmp Mb0 V0) xs).
Proof.
  intros Hp HR Hd Ht.
  induction xs as [|se xs IH]; intros Mb V res Hsame.
  - exists Mb, V. simpl. now rewrite app_nil_r.
  - destruct (assemble_system_same parts Q R (Cs_of difsr se) tmp se
                Mb Mb0 V V0)
      as (Mb1 & Mb01 & V1 & Hrun & Hrun0 & Hdiag & Hsame1); try assumption;
      [unfold Cs_of; now rewrite length_map|].
    destruct (IH Mb1 V1
                (res ++ [first_row parts Q R rad difsr tmp Mb0 V0 se]) Hsame1)
      as (Mb2 & V2 & Hloop).
    exists Mb2, V2. simpl. fold (Cs_of difsr se). rewrite Hrun. simpl.
    rewrite multi_zone_row_ok by (unfold Cs_of; rewrite ?length_map; lia).
    simpl.
    replace (map (head_of E parts R (Cs_of difsr se) (solve E Mb1 V1 parts))
               (elems rad))
      with (first_row parts Q R rad difsr tmp Mb0 V0 se).
    + rewrite Hloop. now rewrite <- app_assoc.
    + unfold first_row. rewrite Hrun0. unfold solve. now rewrite Hdiag.
Qed.

(** The zoned branch returns, row by row, the masked [first_row] of each
    Laplace point. *)
Lemma lap_multi_zone_rows (parts : nat) (Q : float) (s rad : ndarray)
    (R Sl Tl : list float) :
  2 <= parts -> length Tl = parts -> length Sl = parts ->
  parts + 1 <= length R ->
  exists Mb0,
    (forall se,
       length (first_row parts Q R rad (difsr_of Sl Tl) (tmp_of Sl Tl) Mb0
                 (replicate (2 * parts) 0%float) se)
       = length (elems rad)) /\
    forall s,
      lap_multi_zone E parts Q s rad (Arr1 R) (Arr1 Sl) (Arr1 Tl)
      = Ok (map (map mask_nonfinite)
              (map (first_row parts Q R rad (difsr_of Sl Tl) (tmp_of Sl Tl)
                      Mb0 (replicate (2 * parts) 0%float))
                 (elems s))).
Proof.
  intros Hp HT HS HR.
  destruct (system_inv_init parts R Hp) as (Mb0 & Hinit & Hs0 & _).
  exists Mb0. split.
  { intros se. unfold first_row.
    destruct (assemble_system_spec E parts Q R
                (Cs_of (difsr_of Sl Tl) se) (tmp_of Sl Tl) se Mb0
                (replicate (2 * parts) 0%float))
      as (Mb' & -> & _); try assumption; try lia.
    - apply length_replicate.
    - unfold Cs_of. rewrite length_map, length_difsr_of; congruence.
    - rewrite length_tmp_of by congruence. lia.
    - now rewrite length_map. }
  intros s'.
  assert (same_unwritten parts R Mb0 Mb0 (replicate (2 * parts) 0%float)
            (replicate (2 * parts) 0%float)) as Hsame
    by (repeat split; try exact (proj1 Hs0); try exact (proj2 Hs0);
        try apply length_replicate; reflexivity).
  destruct (multi_zone_loop_rows parts Q R rad (difsr_of Sl Tl)
              (tmp_of Sl Tl) Mb0 (replicate (2 * parts) 0%float) (elems s')
              Hp HR) with (Mb := Mb0) (V := replicate (2 * parts) 0%float)
              (res := @nil (list float))
    as (Mb' & V' & Hloop);
    [rewrite length_difsr_of; congruence
    | rewrite length_tmp_of; congruence | exact Hsame |].
  unfold lap_multi_zone.
  destruct (band_set (replicate 5 (replicate (2 * parts) 0%float)) 1 1
              1%float) as [Mb1|e] eqn:H1; [|discriminate Hinit].
  simpl bind in Hinit |- *. rewrite Hinit. simpl bind.
  simpl slice_init. simpl slice_tail. simpl bind. simpl elems.
  assert (length Sl = length Tl) as HST by congruence.
  assert (length (removelast Tl) = length (tail Tl)) as L1
    by (now rewrite length_removelast_float, length_tl).
  assert (length (zip_with_float div (removelast Tl) (tail Tl))
          = length (removelast (difsr_of Sl Tl))) as L2
    by (now rewrite length_zip_with_float, !length_removelast_float,
          length_difsr_of).
  assert (length (zip_with_float mul
                    (zip_with_float div (removelast Tl) (tail Tl))
                    (removelast (difsr_of Sl Tl)))
          = length (tail (difsr_of Sl Tl))) as L3
    by (now rewrite length_zip_with_float, length_zip_with_float,
          length_removelast_float, length_tl, length_difsr_of).
  rewrite (broadcast_same div (removelast Tl) (tail Tl) L1). simpl bind.
  rewrite (broadcast_same div Sl Tl HST). simpl bind.
  fold (difsr_of Sl Tl).
  rewrite (broadcast_same mul _ _ L2). simpl bind.
  rewrite (broadcast_same div _ _ L3).
  simpl bind. unfold tmp_of, difsr_of, zip_with_float in Hloop |- *.
  change (parts + (parts + 0))%nat with (2 * parts)%nat.
  rewrite Hloop. reflexivity.
Qed.
End RowsIndependent.

(** The solver treats every Laplace point on its own. For at least two
    zones, [lap_transgwflow_cyl] returns one row per Laplace point and one
    entry per radius, and the row of the Laplace point [s[k]] of a vector
    [s] is the array it returns for that point alone: the matrix storage
    and the right-hand side, which are allocated once and rewritten in
    every pass, carry nothing from one point to the next. *)
Theorem multi_zone_rows_independent (E : Externals) (s rad : ndarray)
    (R Sl Tl : list float) (Qw : float) :
  (2 <= length Tl)%nat -> length Sl = length Tl ->
  (length Tl + 1 <= length R)%nat ->
  exists res,
    lap_transgwflow_cyl E s rad (Arr1 R) (Arr1 Sl) (Arr1 Tl) Qw = Ok res /\
    length res = length (elems s) /\
    forall k se, elems s !! k = Some se ->
      exists row,
        res !! k = Some row /\
        length row = length (elems rad) /\
        lap_transgwflow_cyl E (Arr0 se) rad (Arr1 R) (Arr1 Sl) (Arr1 Tl) Qw
        = Ok [row].
Proof.
  intros HT HS HR.
  rewrite !lap_transgwflow_cyl_zoned by assumption.
  destruct (lap_multi_zone_rows E (length Tl)
              (Qw / (2 * pi * lookup0 Tl 0))%float s (squeeze rad) R Sl Tl
              HT eq_refl HS HR) as (Mb0 & Hcols & Hrows).
  eexists. split; [apply Hrows|]. split.
  - now rewrite !length_map, elems_squeeze.
  - intros k se Hk. eexists. split; [|split].
    + rewrite !lookup_map, elems_squeeze, Hk. reflexivity.
    + now rewrite length_map, Hcols, elems_squeeze.
    + rewrite lap_transgwflow_cyl_zoned by assumption.
      rewrite Hrows. reflexivity.
Qed.

Lemma multi_zone_rows_independent_witness :
  exists res,
    lap_transgwflow_cyl sample_externals doc_s doc_rad (Arr1 doc_rpart)
      (Arr1 doc_Spart) (Arr1 doc_Tpart) (-1)%float = Ok res /\
    length res = length (elems doc_s) /\
    forall k se, elems doc_s !! k = Some se ->
      exists row,
        res !! k = Some row /\
        length row = length (elems doc_rad) /\
        lap_transgwflow_cyl sample_externals (Arr0 se) doc_rad
          (Arr1 doc_rpart) (Arr1 doc_Spart) (Arr1 doc_Tpart) (-1)%float
        = Ok [row].
Proof.
  apply multi_zone_rows_independent; simpl; lia.
Defined.

(** ** The zones of [diskmodel] cover the aquifer *)

Section FloatOrder.
Local Open Scope float_scope.

Lemma SFcompare_lt_le_trans (x y z : spec_float) :
  SFcompare x y = Some Lt ->
  (SFcompare y z = Some Lt \/ SFcompare y z = Some Eq) ->
  SFcompare x z = Some Lt.
Proof.
  destruct x as [sx|sx| |sx mx ex], y as [sy|sy| |sy my ey],
    z as [sz|sz| |sz mz ez]; simpl;
    intros Hxy [Hyz|Hyz]; try discriminate;
    repeat match goal with s : bool |- _ => destruct s end;
    try discriminate; try reflexivity; simpl in *.
  all: change (Pos.compare_cont Eq) with Pos.compare in *.
  all: destruct (Z.compare_spec ex ey), (Z.compare_spec ey ez),
      (Z.compare_spec ex ez); try discriminate; try reflexivity; try lia;
      subst;
      destruct (Pos.compare_spec mx my), (Pos.compare_spec my mz),
        (Pos.compare_spec mx mz); simpl in *; try discriminate;
        try reflexivity; try lia.
Qed.

Lemma ltb_leb (a b : float) : (a <? b) = true -> (a <=? b) = true.
Proof.
  rewrite FloatAxioms.ltb_spec, FloatAxioms.leb_spec. unfold SFltb, SFleb.
  destruct (SFcompare (Prim2SF a) (Prim2SF b)) as [[]|]; congruence.
Qed.

Lemma leb_ltb_trans_lt (a b c : float) :
  (a <=? b) = true -> (b <? c) = true -> (a <? c) = true.
Proof.
  rewrite FloatAxioms.leb_spec, !FloatAxioms.ltb_spec.
  unfold SFleb, SFltb. intros Hab Hbc.
  rewrite (SFcompare_le_lt_trans (Prim2SF a) (Prim2SF b) (Prim2SF c));
    [reflexivity | |].
  - destruct (SFcompare (Prim2SF a) (Prim2SF b)) as [[]|]; auto; discriminate.
  - destruct (SFcompare (Prim2SF b) (Prim2SF c)) as [[]|]; auto; discriminate.
Qed.

Lemma ltb_leb_trans (a b c : float) :
  (a <? b) = true -> (b <=? c) = true -> (a <? c) = true.
Proof.
  rewrite FloatAxioms.leb_spec, !FloatAxioms.ltb_spec.
  unfold SFleb, SFltb. intros Hab Hbc.
  rewrite (SFcompare_lt_le_trans (Prim2SF a) (Prim2SF b) (Prim2SF c));
    [reflexivity | |].
  - destruct (SFcompare (Prim2SF a) (Prim2SF b)) as [[]|]; auto; discriminate.
  - destruct (SFcompare (Prim2SF b) (Prim2SF c)) as [[]|]; auto; discriminate.
Qed.

Lemma ltb_trans (a b c : float) :
  (a <? b) = true -> (b <? c) = true -> (a <? c) = true.
Proof.
  intros Hab Hbc. eapply ltb_leb_trans; [exact Hab | now apply ltb_leb].
Qed.

Lemma ltb_leb_false (a b : float) : (a <? b) = true -> (b <=? a) = false.
Proof.
  rewrite FloatAxioms.ltb_spec, FloatAxioms.leb_spec. unfold SFltb, SFleb.
  rewrite (SFcompare_antisym (Prim2SF a) (Prim2SF b)).
  destruct (SFcompare (Prim2SF a) (Prim2SF b)) as [[]|]; simpl; congruence.
Qed.

(** A number compares equal to itself; not-a-number does not. *)
Lemma ltb_number (a b : float) :
  (a <? b) = true -> (a =? a) = true /\ (b =? b) = true.
Proof.
  rewrite FloatAxioms.ltb_spec, !FloatAxioms.eqb_spec. unfold SFltb, SFeqb.
  destruct (Prim2SF a) as [sa|sa| |sa ma ea], (Prim2SF b) as [sb|sb| |sb mb eb];
    simpl; try discriminate; intros _;
    repeat match goal with s : bool |- _ => destruct s end; simpl;
    rewrite ?Z.compare_refl, ?Pos.compare_cont_refl; auto.
Qed.

Lemma leb_number (a b : float) :
  (a <=? b) = true -> (a =? a) = true /\ (b =? b) = true.
Proof.
  rewrite FloatAxioms.leb_spec, !FloatAxioms.eqb_spec. unfold SFleb, SFeqb.
  destruct (Prim2SF a) as [sa|sa| |sa ma ea], (Prim2SF b) as [sb|sb| |sb mb eb];
    simpl; try discriminate; intros _;
    repeat match goal with s : bool |- _ => destruct s end; simpl;
    rewrite ?Z.compare_refl, ?Pos.compare_cont_refl; auto.
Qed.

(** Two numbers are comparable. *)
Lemma ltb_false_leb (a b : float) :
  (a =? a) = true -> (b =? b) = true -> (a <? b) = false -> (b <=? a) = true.
Proof.
  rewrite FloatAxioms.ltb_spec, FloatAxioms.leb_spec, !FloatAxioms.eqb_spec.
  unfold SFltb, SFleb, SFeqb.
  rewrite (SFcompare_antisym (Prim2SF a) (Prim2SF b)).
  destruct (Prim2SF a) as [sa|sa| |sa ma ea], (Prim2SF b) as [sb|sb| |sb mb eb];
    simpl; try discriminate; intros _ _;
    repeat match goal with s : bool |- _ => destruct s end; simpl;
    try reflexivity; try discriminate;
    destruct (ea ?= eb)%Z; simpl; try reflexivity; try discriminate;
    destruct (Pos.compare_cont Eq ma mb); simpl; congruence.
Qed.

Lemma leb_false_ltb (a b : float) :
  (a =? a) = true -> (b =? b) = true -> (a <=? b) = false -> (b <? a) = true.
Proof.
  rewrite FloatAxioms.ltb_spec, FloatAxioms.leb_spec, !FloatAxioms.eqb_spec.
  unfold SFltb, SFleb, SFeqb.
  rewrite (SFcompare_antisym (Prim2SF a) (Prim2SF b)).
  destruct (Prim2SF a) as [sa|sa| |sa ma ea], (Prim2SF b) as [sb|sb| |sb mb eb];
    simpl; try discriminate; intros _ _;
    repeat match goal with s : bool |- _ => destruct s end; simpl;
    try reflexivity; try discriminate;
    destruct (ea ?= eb)%Z; simpl; try reflexivity; try discriminate;
    destruct (Pos.compare_cont Eq ma mb); simpl; congruence.
Qed.
End FloatOrder.

Section Zones.
Local Open Scope float_scope.
Implicit Types (R : list float) (re : float).

Lemma increasing_tail (a : float) R :
  increasing (a :: R) = true -> increasing R = true.
Proof.
  destruct R as [|b R]; [reflexivity|].
  change (increasing (a :: b :: R))
    with ((a <? b) && increasing (b :: R)).
  intros H. now apply andb_true_iff in H.
Qed.

Lemma increasing_head R : forall a : float,
  increasing (a :: R) = true ->
  forall j, (j < length R)%nat -> (a <? lookup0 R j) = true.
Proof.
  induction R as [|b R IH]; intros a Hinc j Hj; [simpl in Hj; lia|].
  change (increasing (a :: b :: R))
    with ((a <? b) && increasing (b :: R)) in Hinc.
  apply andb_true_iff in Hinc as [Hab Hinc].
  destruct j as [|j]; [exact Hab|].
  rewrite lookup0_cons. apply (ltb_trans a b); [exact Hab|].
  apply IH; [exact Hinc | simpl in Hj; lia].
Qed.

(** In a strictly increasing vector, entries grow with their index. *)
Lemma increasing_lookup R :
  increasing R = true ->
  forall i j, (i < j)%nat -> (j < length R)%nat ->
    (lookup0 R i <? lookup0 R j) = true.
Proof.
  induction R as [|a R IH]; intros Hinc i j Hij Hj; [simpl in Hj; lia|].
  destruct j as [|j]; [lia|]. rewrite lookup0_cons.
  destruct i as [|i].
  - apply (increasing_head R a Hinc). simpl in Hj. lia.
  - rewrite lookup0_cons. apply IH; [now apply increasing_tail with a| lia|].
    simpl in Hj. lia.
Qed.

Lemma increasing_app_last R (x : float) :
  increasing R = true -> (forall r, In r R -> (r <? x) = true) ->
  increasing (R ++ [x]) = true.
Proof.
  induction R as [|a R IH]; intros Hinc Hlt; [reflexivity|].
  destruct R as [|b R].
  - simpl. rewrite (Hlt a) by now left. reflexivity.
  - change (increasing (a :: b :: R))
      with ((a <? b) && increasing (b :: R)) in Hinc.
    apply andb_true_iff in Hinc as [Hab Hinc].
    change (increasing ((a :: b :: R) ++ [x]))
      with ((a <? b) && increasing ((b :: R) ++ [x])).
    rewrite Hab. simpl andb. apply IH; [exact Hinc|].
    intros r Hr. apply Hlt. now right.
Qed.

Lemma in_zone_cons (a : float) R re (i : nat) :
  in_zone (a :: R) re (S i) = in_zone R re i.
Proof. reflexivity. Qed.

(** A number from the first boundary up to, and not including, the last one
    lies in a zone. *)
Lemma zone_exists R : forall re,
  increasing R = true -> (2 <= length R)%nat ->
  (lookup0 R 0 <=? re) = true ->
  (re <? lookup0 R (length R - 1)) = true ->
  exists i, (i + 1 < length R)%nat /\ in_zone R re i = true.
Proof.
  induction R as [|a R IH]; intros re Hinc Hlen Hlo Hhi;
    [simpl in Hlen; lia|].
  destruct R as [|b R]; [simpl in Hlen; lia|].
  destruct (re <? b) eqn:Hb.
  - exists 0%nat. split; [simpl; lia|].
    unfold in_zone. change (lookup0 (a :: b :: R) 0) with a in *.
    change (lookup0 (a :: b :: R) (0 + 1)) with b.
    now rewrite Hlo, Hb.
  - destruct R as [|c R].
    + change (lookup0 [a; b] (length [a; b] - 1)) with b in Hhi. congruence.
    + change (increasing (a :: b :: c :: R))
        with ((a <? b) && increasing (b :: c :: R)) in Hinc.
      apply andb_true_iff in Hinc as [Hab Hinc].
      destruct (IH re Hinc) as (i & Hi & Hz).
      * simpl. lia.
      * change (lookup0 (b :: c :: R) 0) with b.
        apply ltb_false_leb; [apply (leb_number _ _ Hlo)
                             | apply (ltb_number _ _ Hab) | exact Hb].
      * exact Hhi.
      * exists (S i). split; [simpl in *; lia|].
        now rewrite in_zone_cons.
Qed.

(** The zones of a strictly increasing vector do not overlap. *)
Lemma zone_unique R re (i j : nat) :
  increasing R = true -> (i + 1 < length R)%nat -> (j + 1 < length R)%nat ->
  in_zone R re i = true -> j <> i -> in_zone R re j = false.
Proof.
  intros Hinc Hi Hj Hz Hne. unfold in_zone in *.
  apply andb_true_iff in Hz as [Hlo Hhi].
  apply andb_false_iff.
  destruct (Nat.lt_total j i) as [Hlt|[Heq|Hgt]]; [|contradiction|].
  - right. destruct (Nat.eq_dec (j + 1)%nat i) as [<-|Hne'].
    + now apply leb_ltb_false.
    + apply leb_ltb_false, ltb_leb.
      apply (ltb_leb_trans _ (lookup0 R i)); [|exact Hlo].
      apply increasing_lookup; [exact Hinc | lia | lia].
  - left. destruct (Nat.eq_dec (i + 1)%nat j) as [<-|Hne'].
    + now apply ltb_leb_false.
    + apply ltb_leb_false.
      apply (ltb_trans _ (lookup0 R (i + 1))); [exact Hhi|].
      apply increasing_lookup; [exact Hinc | lia | lia].
Qed.
End Zones.

(** What arguments that pass the checks of [diskmodel] satisfy. *)
Lemma diskmodel_check_passed (rad time Tpart Spart Rpart : list float)
    (struc_grid : bool) (rwell rinf : float) (stehfestn : pyval) :
  diskmodel_check rad time Tpart Spart Rpart struc_grid rwell rinf stehfestn
  = None ->
  (rinf <=? rwell)%float = false /\
  increasing Rpart = true /\
  existsb (fun r => r <=? rwell)%float Rpart = false /\
  existsb (fun r => rinf <=? r)%float Rpart = false /\
  existsb (fun r => r <? rwell)%float rad = false.
Proof.
  unfold diskmodel_check. intros Hchk.
  repeat match type of Hchk with
         | (if ?b then Some _ else _) = None =>
             destruct b eqn:?; [discriminate Hchk|]
         end.
  repeat match goal with
         | H : negb _ = false |- _ => apply negb_false_iff in H
         | H : (_ || _) = false |- _ => apply orb_false_iff in H as [? ?]
         end.
  auto.
Qed.

Lemma existsb_false_In (p : float -> bool) (l : list float) (x : float) :
  existsb p l = false -> In x l -> p x = false.
Proof.
  intros He Hin. destruct (p x) eqn:Hp; [|reflexivity].
  rewrite <- He. symmetry. apply existsb_exists. eauto.
Qed.

(** The boundaries [diskmodel] hands to the solver partition the aquifer.
    For arguments that pass its checks, with [rwell], [rinf] and the zone
    radii being numbers, the vector [rpart = [rwell] + Rpart + [rinf]] is
    strictly increasing, and every requested radius below [rinf] lies in
    exactly one of its zones [rpart[i] <= r < rpart[i+1]]. *)
Theorem diskmodel_zones_partition (rad time Tpart Spart Rpart : list float)
    (struc_grid : bool) (rwell rinf : float) (stehfestn : pyval) :
  diskmodel_check rad time Tpart Spart Rpart struc_grid rwell rinf stehfestn
  = None ->
  (rwell =? rwell)%float = true -> (rinf =? rinf)%float = true ->
  (forall r, In r Rpart -> (r =? r)%float = true) ->
  let rpart := (rwell :: Rpart) ++ [rinf] in
  increasing rpart = true /\
  forall re, In re rad -> (re <? rinf)%float = true ->
    exists i, (i < length Rpart + 1)%nat /\
      in_zone rpart re i = true /\
      forall j, (j < length Rpart + 1)%nat -> j <> i ->
        in_zone rpart re j = false.
Proof.
  intros Hchk Hw Hinf HR rpart.
  destruct (diskmodel_check_passed _ _ _ _ _ _ _ _ _ Hchk)
    as (Hupper & Hsorted & Habove & Hbelow & Hrad).
  assert (length rpart = (length Rpart + 2)%nat) as Hlen
    by (unfold rpart; rewrite length_app; simpl; lia).
  assert (increasing rpart = true) as Hinc.
  { unfold rpart. change ((rwell :: Rpart) ++ [rinf])
      with (rwell :: (Rpart ++ [rinf])).
    assert (increasing (Rpart ++ [rinf]) = true) as Htail.
    { apply increasing_app_last; [exact Hsorted|].
      intros r Hr. apply leb_false_ltb; [exact Hinf | now apply HR|].
      exact (existsb_false_In _ _ r Hbelow Hr). }
    destruct Rpart as [|r1 Rpart'].
    - simpl. rewrite (leb_false_ltb rinf rwell Hinf Hw Hupper). reflexivity.
    - change (increasing (rwell :: (r1 :: Rpart') ++ [rinf]))
        with ((rwell <? r1)%float && increasing ((r1 :: Rpart') ++ [rinf])).
      rewrite Htail, andb_true_r.
      apply leb_false_ltb; [apply HR; now left | exact Hw|].
      apply (existsb_false_In _ _ r1 Habove). now left. }
  split; [exact Hinc|].
  intros re Hre Hlt.
  destruct (zone_exists rpart re Hinc) as (i & Hi & Hz).
  - lia.
  - change (lookup0 rpart 0) with rwell.
    apply ltb_false_leb; [apply (ltb_number _ _ Hlt) | exact Hw|].
    exact (existsb_false_In _ _ re Hrad Hre).
  - rewrite Hlen. replace (length Rpart + 2 - 1)%nat with (S (length Rpart))
      by lia.
    unfold rpart. change ((rwell :: Rpart) ++ [rinf])
      with (rwell :: (Rpart ++ [rinf])).
    now rewrite lookup0_cons, lookup0_app_last.
  - exists i. split; [lia|]. split; [exact Hz|].
    intros j Hj Hne. apply (zone_unique rpart re i j); try assumption; lia.
Qed.

Lemma diskmodel_zones_partition_witness :
  let rpart := ((0 :: [2; 5]) ++ [10])%float in
  increasing rpart = true /\
  forall re, In re [1; 2; 7]%float -> (re <? 10)%float = true ->
    exists i, (i < length [2; 5]%float + 1)%nat /\
      in_zone rpart re i = true /\
      forall j, (j < length [2; 5]%float + 1)%nat -> j <> i ->
        in_zone rpart re j = false.
Proof.
  apply (diskmodel_zones_partition [1; 2; 7]%float [10; 100]%float
           [1e-3; 2e-3; 3e-3]%float [1e-3; 1e-3; 1e-3]%float [2; 5]%float
           true 0%float 10%float (PyInt 12)); try reflexivity.
  intros r [<-|[<-|[]]]; reflexivity.
Defined.

(** A zone radius that is not a number passes the checks when it is the
    only one: each of its comparisons is false. *)
Example diskmodel_accepts_nan_zone_radius :
  diskmodel_check [1; 2]%float [10; 100]%float doc_Tpart doc_Spart [nan]
    true 0%float infinity (PyInt 12) = None.
Proof. reflexivity. Qed.

(** ** Radii outside the zones *)

(** The zoned solver returns exactly zero outside its zones. For at least
    two zones and strictly increasing boundaries, every radius below the
    first boundary, at or beyond the last one, or not a number, gets zero
    for every Laplace point, whatever the Bessel functions and the solver
    answer. *)
Theorem multi_zone_zero_outside (E : Externals) (s rad : ndarray)
    (R Sl Tl : list float) (Qw : float) :
  (2 <= length Tl)%nat -> length Sl = length Tl ->
  length R = (length Tl + 1)%nat -> increasing R = true ->
  exists res,
    lap_transgwflow_cyl E s rad (Arr1 R) (Arr1 Sl) (Arr1 Tl) Qw = Ok res /\
    forall si row ri re,
      res !! si = Some row -> elems rad !! ri = Some re ->
      (re <? lookup0 R 0)%float = true
      \/ (lookup0 R (length Tl) <=? re)%float = true
      \/ (re =? re)%float = false ->
      row !! ri = Some 0%float.
Proof.
  intros HT HS HR Hinc.
  rewrite lap_transgwflow_cyl_zoned by (try assumption; lia).
  destruct (lap_multi_zone_run E (length Tl)
              (Qw / (2 * pi * lookup0 Tl 0))%float (squeeze s)
              (squeeze rad) R Sl Tl HT eq_refl HS) as (rows & Hrun & Hrows);
    [lia|].
  exists (map (map mask_nonfinite) rows). split; [exact Hrun|].
  intros si row ri re Hrow Hre Hout.
  rewrite lookup_map in Hrow.
  destruct (rows !! si) as [row'|] eqn:Hrow'; [|discriminate].
  injection Hrow as <-.
  destruct (Forall2_lookup_col _ _ _ si row' Hrows Hrow')
    as (se & _ & Mb & V & Mb' & V' & _ & _ & ->).
  rewrite !lookup_map, elems_squeeze, Hre. simpl.
  rewrite head_of_none; [reflexivity|].
  intros j Hj. unfold in_zone. apply andb_false_iff.
  destruct Hout as [Hlow|[Hhigh|Hnan]].
  - left. apply ltb_leb_false.
    destruct j as [|j]; [exact Hlow|].
    apply (ltb_trans _ (lookup0 R 0)); [exact Hlow|].
    apply increasing_lookup; [exact Hinc | lia | lia].
  - right. destruct (Nat.eq_dec (j + 1)%nat (length Tl)) as [->|Hne].
    + now apply leb_ltb_false.
    + apply leb_ltb_false, ltb_leb.
      apply (ltb_leb_trans _ (lookup0 R (length Tl))); [|exact Hhigh].
      apply increasing_lookup; [exact Hinc | lia | lia].
  - left. destruct (lookup0 R j <=? re)%float eqn:Hle; [|reflexivity].
    destruct (leb_number _ _ Hle) as [_ Hnum]. congruence.
Qed.

Lemma multi_zone_zero_outside_witness :
  exists res,
    lap_transgwflow_cyl sample_externals doc_s (Arr1 [0.05; 1; nan]%float)
      (Arr1 [0.1; 2; 10]%float) (Arr1 doc_Spart) (Arr1 doc_Tpart) (-1)%float
    = Ok res /\
    forall si row ri re,
      res !! si = Some row ->
      elems (Arr1 [0.05; 1; nan]%float) !! ri = Some re ->
      (re <? lookup0 [0.1; 2; 10]%float 0)%float = true
      \/ (lookup0 [0.1; 2; 10]%float (length doc_Tpart) <=? re)%float = true
      \/ (re =? re)%float = false ->
      row !! ri = Some 0%float.
Proof.
  apply multi_zone_zero_outside; reflexivity || (simpl; lia).
Defined.

(** ** [theis] on a bounded aquifer is the disk model of one zone *)

Lemma theis_check_one_zone (rad time : list float) (T S : float)
    (struc_grid : bool) (rwell rinf : float) (stehfestn : pyval) :
  diskmodel_check rad time [T] [S] [] struc_grid rwell rinf stehfestn
  = theis_check rad time T S struc_grid rwell rinf stehfestn.
Proof.
  unfold diskmodel_check, theis_check. simpl existsb. simpl increasing.
  simpl negb. rewrite !orb_false_r. reflexivity.
Qed.

(** [theis] and [diskmodel] with the one zone [[T]], [[S]] and no zone
    radius reject the same arguments, each with its own message; and for
    arguments that are accepted, with [rwell] or [rinf] away from their
    defaults, [theis] is that call of [diskmodel]: the same request to the
    Stehfest routine, the same result. *)
Theorem theis_is_one_zone_diskmodel (C : Collaborators) (E : Externals)
    (rad : ndarray) (time : list float) (T S Qw : float) (struc_grid : bool)
    (rwell rinf hinf : float) (stehfestn : pyval) :
  ((exists msg,
      theis C E rad time T S Qw struc_grid rwell rinf hinf stehfestn
      = ([], Raise (ValueError msg))) <->
   (exists msg,
      diskmodel C E rad time [T] [S] [] Qw struc_grid rwell rinf hinf
        stehfestn = ([], Raise (ValueError msg)))) /\
  ((rwell =? 0)%float && (rinf =? infinity)%float = false ->
   theis_check (elems rad) time T S struc_grid rwell rinf stehfestn = None ->
   theis C E rad time T S Qw struc_grid rwell rinf hinf stehfestn
   = diskmodel C E rad time [T] [S] [] Qw struc_grid rwell rinf hinf
       stehfestn).
Proof.
  unfold theis, diskmodel. rewrite theis_check_one_zone.
  rewrite !elems_reshaped.
  split.
  - destruct (theis_check _ _ _ _ _ _ _ _) as [c|] eqn:Hchk.
    + split; intros _; eexists; reflexivity.
    + destruct ((rwell =? 0)%float && (rinf =? infinity)%float);
        split; intros (msg & Hrun); discriminate Hrun.
  - intros -> ->. reflexivity.
Qed.

Lemma theis_is_one_zone_diskmodel_witness :
  theis sample_collaborators sample_externals doc_rad [10; 100]%float
    1e-3 1e-3 (-1e-3) true 0.1 10 0 (PyInt 12)
  = diskmodel sample_collaborators sample_externals doc_rad [10; 100]%float
      [1e-3]%float [1e-3]%float [] (-1e-3) true 0.1 10 0 (PyInt 12).
Proof.
  apply (proj2 (theis_is_one_zone_diskmodel sample_collaborators
                  sample_externals doc_rad [10; 100]%float 1e-3 1e-3 (-1e-3)
                  true 0.1 10 0 (PyInt 12))); reflexivity.
Defined.

(** ** The argument checks of [ext_theis2D] and [ext_theis3D] *)

(** Stand-ins for the helpers in the examples: three boundaries, two
    transmissivities. *)
Definition sample_helpers : Helpers :=
  {| aniso := fun _ => Ok 0.5%float;
     radii := fun _ rwell rinf rlast =>
                Ok (Arr1 [rwell; rlast; rinf], Arr1 [rlast; rlast]);
     T_CG := fun _ TG _ _ _ _ => Ok (Arr1 [TG; TG]);
     T_CG_error := fun _ _ _ corr _ _ => Ok corr;
     K_CG := fun _ KG _ _ _ _ _ => Ok (Arr1 [KG; KG]);
     K_CG_error := fun _ _ _ corr _ _ _ => Ok corr |}.

(** Every check of [ext_theis2D] and of [ext_theis3D] that fails ends the
    call with a [ValueError] whose message is that of the first check, in
    the order of the source, that failed, before any helper or the Stehfest
    routine is called. *)
Theorem ext_theis_invalid_arguments_raise (C : Collaborators) (H : Helpers)
    (E : Externals) (rad : ndarray) (time : list float)
    (TG KG sig2 corr e S Qw L : float) (struc_grid : bool)
    (rwell rinf hinf : float) (Twell : option float) (Kwell : kwell)
    (err prop : float) (stehfestn parts : pyval) (msg : string) :
  let checks2D :=
    ext_theis2D_checks (elems rad) time TG sig2 corr S struc_grid rwell rinf
      Twell err prop stehfestn parts in
  let checks3D :=
    ext_theis3D_checks (elems rad) time KG sig2 corr S L struc_grid rwell
      rinf Kwell err prop stehfestn parts in
  (In (true, msg) checks2D ->
   exists msg',
     ext_theis2D C H E rad time TG sig2 corr S Qw struc_grid rwell rinf hinf
       Twell err prop stehfestn parts = ([], Raise (ValueError msg')) /\
     first_failing checks2D msg') /\
  (In (true, msg) checks3D ->
   exists msg',
     ext_theis3D C H E rad time KG sig2 corr e S Qw L struc_grid rwell rinf
       hinf Kwell err prop stehfestn parts = ([], Raise (ValueError msg')) /\
     first_failing checks3D msg').
Proof.
  intros checks2D checks3D. split; intros Hin.
  - unfold ext_theis2D. rewrite elems_reshaped. fold checks2D.
    destruct (first_failure_some _ _ Hin) as (msg' & -> & Hin').
    exists msg'. auto.
  - unfold ext_theis3D. rewrite elems_reshaped. fold checks3D.
    destruct (first_failure_some _ _ Hin) as (msg' & -> & Hin').
    exists msg'. auto.
Qed.

Lemma ext_theis_invalid_arguments_raise_witness :
  (exists msg',
     ext_theis2D sample_collaborators sample_helpers sample_externals
       doc_rad [10; 100]%float 0.001 1 10 0.001 (-0.001) true 0 infinity 0
       None 0.01 1.6 (PyInt 12) (PyInt 1) = ([], Raise (ValueError msg')) /\
     first_failing
       (ext_theis2D_checks (elems doc_rad) [10; 100]%float 0.001 1 10 0.001
          true 0 infinity None 0.01 1.6 (PyInt 12) (PyInt 1)) msg') /\
  (exists msg',
     ext_theis3D sample_collaborators sample_helpers sample_externals
       doc_rad [10; 100]%float 0.001 1 10 1 0.001 (-0.001) 1 true 0 infinity
       0 (KwStr "KH") 0.01 1.6 (PyInt 12) (PyInt 1)
     = ([], Raise (ValueError msg')) /\
     first_failing
       (ext_theis3D_checks (elems doc_rad) [10; 100]%float 0.001 1 10 0.001
          1 true 0 infinity (KwStr "KH") 0.01 1.6 (PyInt 12) (PyInt 1)) msg').
Proof.
  pose proof (ext_theis_invalid_arguments_raise sample_collaborators
                sample_helpers sample_externals doc_rad [10; 100]%float
                0.001 0.001 1 10 1 0.001 (-0.001) 1 true 0 infinity 0 None
                (KwStr "KH") 0.01 1.6 (PyInt 12) (PyInt 1)
                "The numbor of partitions needs to be at least 2") as [H2 H3].
  split; [apply H2 | apply H3]; unfold raise_if; simpl; tauto.
Defined.

(** ** The anisotropy ratio is checked by [ext_thiem3D] only *)

(** [ext_thiem3D] rejects an anisotropy ratio outside [(0, 1]],
    not-a-number included: it raises a [ValueError], that of this check or
    of an earlier one. [ext_theis3D] has no check of it: when its checks,
    none of which reads the ratio, are passed, it hands the ratio to
    [K_CG_error] whatever it is. *)
Theorem anisotropy_checked_by_ext_thiem3D_only (N : Numerics)
    (C : Collaborators) (H : Helpers) (E : Externals) (rad : ndarray)
    (time : list float) (Rref KG sig2 corr e S Qw L : float)
    (struc_grid : bool) (rwell rinf href : float) (Kwell : kwell)
    (err prop : float) (stehfestn parts : pyval) :
  (negb ((0 <? e)%float && (e <=? 1)%float) = true ->
   exists msg,
     ext_thiem3D N H rad Rref KG sig2 corr e Qw L href Kwell prop
     = Raise (ValueError msg)) /\
  (first_failure
     (ext_theis3D_checks (elems rad) time KG sig2 corr S L struc_grid rwell
        rinf Kwell err prop stehfestn parts) = None ->
   exists tr r,
     ext_theis3D C H E rad time KG sig2 corr e S Qw L struc_grid rwell rinf
       href Kwell err prop stehfestn parts = (CallKCGError :: tr, r)).
Proof.
  split.
  - intros He. unfold ext_thiem3D.
    destruct (first_failure_some
                (ext_thiem3D_checks (elems (squeeze rad)) Rref KG sig2 corr e
                   L Kwell prop)
                "The anisotropy-ratio must be > 0 and <= 1")
      as (msg & -> & _).
    + unfold ext_thiem3D_checks, raise_if. rewrite He. simpl. tauto.
    + exists msg. reflexivity.
  - intros Hnone. unfold ext_theis3D. rewrite elems_reshaped, Hnone.
    unfold call_then at 1.
    destruct (K_CG_error H err KG sig2 corr e prop Kwell) as [rlast|ex];
      [|eauto].
    match goal with
    | |- exists tr r, (let '(tr', r') := ?k in _) = _ =>
        destruct k as [tr' r']; eauto
    end.
Qed.

Lemma anisotropy_checked_by_ext_thiem3D_only_witness :
  (exists msg,
     ext_thiem3D sample_numerics sample_helpers doc_rad 10 0.001 1 10 2
       (-0.001) 1 0 (KwStr "KH") 1.6 = Raise (ValueError msg)) /\
  (exists tr r,
     ext_theis3D sample_collaborators sample_helpers sample_externals
       doc_rad [10; 100]%float 0.001 1 10 2 0.001 (-0.001) 1 true 0
       infinity 0 (KwStr "KH") 0.01 1.6 (PyInt 12) (PyInt 30)
     = (CallKCGError :: tr, r)).
Proof.
  pose proof (anisotropy_checked_by_ext_thiem3D_only sample_numerics
                sample_collaborators sample_helpers sample_externals
                doc_rad [10; 100]%float 10 0.001 1 10 2 0.001 (-0.001) 1
                true 0 infinity 0 (KwStr "KH") 0.01 1.6 (PyInt 12)
                (PyInt 30)) as [Hsteady Htransient].
  split; [apply Hsteady | apply Htransient]; reflexivity.
Defined.

(** An anisotropy ratio of [2] is handed to the helper by [ext_theis3D]. *)
Example ext_theis3D_accepts_anisotropy_two :
  fst (ext_theis3D sample_collaborators sample_helpers sample_externals
         doc_rad [10; 100]%float 0.001 1 10 2 0.001 (-0.001) 1 true 0
         infinity 0 (KwStr "KH") 0.01 1.6 (PyInt 12) (PyInt 30))
  = [CallKCGError; CallRadii; CallKCG; CallLaplace].
Proof. reflexivity. Qed.

(** ** Paired points of [ext_theis2D] and [ext_theis3D] *)

Lemma grid_checks_paired (rad time : list float) (rwell rinf : float) :
  length rad = length time ->
  grid_checks rad time false rwell rinf = grid_checks rad time true rwell rinf.
Proof.
  intros Hlen. unfold grid_checks. rewrite Hlen, Nat.eqb_refl. reflexivity.
Qed.

(** What the diagonal rule says of one function, [run struc_grid] being its
    call with the other arguments fixed, for [N] radii and [N] times, [G0]
    the grid of the Laplace inversion and [tr] the calls made. *)
Definition paired_diagonal (N : nat) (hinf : float) (G0 : list (list float))
    (tr : list helper_call)
    (run : bool -> list helper_call * result output) : Prop :=
  let G := map (map (fun x => (x + hinf)%float)) G0 in
  run true = (tr, Ok (Out2 G)) /\
  run false = (tr, Ok (Out1 (diag_from 0 G))) /\
  length (diag_from 0 G) = N /\
  forall p row, G !! p = Some row -> diag_from 0 G !! p = row !! p.

(** [ext_theis2D] and [ext_theis3D] are called with [N] radii and [N] times
    and arguments that pass their checks, their helpers answer, and the
    Laplace inversion of the zones they build is an [N x N] grid [G0]. Then
    the call with [struc_grid=True] returns the grid [G0 + hinf], and the
    call with [struc_grid=False] makes the same helper calls and returns
    the vector of length [N] that is the diagonal of that grid. For [N = 1]
    the radius is a scalar after [np.squeeze], no diagonal is taken and both
    calls are the same. *)
Theorem ext_theis_paired_points_diagonal (C : Collaborators) (H : Helpers)
    (E : Externals) (rad time : list float)
    (TG KG sig2 corr e S Qw L : float) (rwell rinf hinf : float)
    (Twell : option float) (Kwell : kwell) (err prop : float)
    (stehfestn parts : pyval) :
  length rad = length time ->
  (length time <> 1%nat ->
   (forall rlast rpart fpart Tpart G0,
      first_failure
        (ext_theis2D_checks rad time TG sig2 corr S true rwell rinf Twell
           err prop stehfestn parts) = None ->
      T_CG_error H err TG sig2 corr prop Twell = Ok rlast ->
      radii H (int_of parts) rwell rinf rlast = Ok (rpart, fpart) ->
      T_CG H fpart TG sig2 corr prop Twell = Ok Tpart ->
      sf C (fun s =>
              lap_transgwflow_cyl E s (Arr1 rad) rpart
                (uniform_storage S parts) Tpart Qw)
        time (int_of stehfestn) = Ok (Out2 G0) ->
      square (length time) G0 ->
      paired_diagonal (length time) hinf G0
        [CallTCGError; CallRadii; CallTCG; CallLaplace]
        (fun struc_grid =>
           ext_theis2D C H E (Arr1 rad) time TG sig2 corr S Qw struc_grid
             rwell rinf hinf Twell err prop stehfestn parts)) /\
   (forall rlast rpart fpart Tpart G0,
      first_failure
        (ext_theis3D_checks rad time KG sig2 corr S L true rwell rinf Kwell
           err prop stehfestn parts) = None ->
      K_CG_error H err KG sig2 corr e prop Kwell = Ok rlast ->
      radii H (int_of parts) rwell rinf rlast = Ok (rpart, fpart) ->
      K_CG H fpart KG sig2 corr e prop Kwell = Ok Tpart ->
      sf C (fun s =>
              lap_transgwflow_cyl E s (Arr1 rad) rpart
                (uniform_storage S parts) Tpart (Qw / L)%float)
        time (int_of stehfestn) = Ok (Out2 G0) ->
      square (length time) G0 ->
      paired_diagonal (length time) hinf G0
        [CallKCGError; CallRadii; CallKCG; CallLaplace]
        (fun struc_grid =>
           ext_theis3D C H E (Arr1 rad) time KG sig2 corr e S Qw L struc_grid
             rwell rinf hinf Kwell err prop stehfestn parts))) /\
  (length time = 1%nat ->
   ext_theis2D C H E (Arr1 rad) time TG sig2 corr S Qw false rwell rinf hinf
     Twell err prop stehfestn parts
   = ext_theis2D C H E (Arr1 rad) time TG sig2 corr S Qw true rwell rinf hinf
       Twell err prop stehfestn parts /\
   ext_theis3D C H E (Arr1 rad) time KG sig2 corr e S Qw L false rwell rinf
     hinf Kwell err prop stehfestn parts
   = ext_theis3D C H E (Arr1 rad) time KG sig2 corr e S Qw L true rwell rinf
       hinf Kwell err prop stehfestn parts).
Proof.
  intros Hlen. split; [intros HN; split|intros HN; split].
  - (* ext_theis2D, N <> 1 *)
    intros rlast rpart fpart Tpart G0 Hchk Herr Hradii HT Hsf HG.
    destruct (finish_grid_and_diagonal _ hinf G0 HG) as (Ht & Hf & Hl & Hg).
    unfold paired_diagonal, ext_theis2D.
    rewrite squeeze_not_single by congruence. simpl elems. simpl shape.
    unfold ext_theis2D_checks in *.
    rewrite grid_checks_paired by exact Hlen.
    rewrite Hchk. unfold call_then. rewrite Herr, Hradii, HT, Hsf, Hlen.
    rewrite Ht, Hf. auto.
  - (* ext_theis3D, N <> 1 *)
    intros rlast rpart fpart Tpart G0 Hchk Herr Hradii HT Hsf HG.
    destruct (finish_grid_and_diagonal _ hinf G0 HG) as (Ht & Hf & Hl & Hg).
    unfold paired_diagonal, ext_theis3D.
    rewrite squeeze_not_single by congruence. simpl elems. simpl shape.
    unfold ext_theis3D_checks in *.
    rewrite grid_checks_paired by exact Hlen.
    rewrite Hchk. unfold call_then. rewrite Herr, Hradii, HT, Hsf, Hlen.
    rewrite Ht, Hf. auto.
  - (* ext_theis2D, N = 1 *)
    destruct rad as [|x [|y rad]]; simpl in Hlen; try lia.
    unfold ext_theis2D, ext_theis2D_checks. simpl squeeze. simpl elems.
    simpl shape. rewrite grid_checks_paired by (simpl; lia).
    destruct (first_failure _); reflexivity.
  - (* ext_theis3D, N = 1 *)
    destruct rad as [|x [|y rad]]; simpl in Hlen; try lia.
    unfold ext_theis3D, ext_theis3D_checks. simpl squeeze. simpl elems.
    simpl shape. rewrite grid_checks_paired by (simpl; lia).
    destruct (first_failure _); reflexivity.
Qed.

Lemma ext_theis_paired_points_diagonal_witness :
  paired_diagonal 2 0 [[1; 2]; [3; 4]]%float
    [CallTCGError; CallRadii; CallTCG; CallLaplace]
    (fun struc_grid =>
       ext_theis2D sample_collaborators sample_helpers sample_externals
         (Arr1 [1; 2]%float) [10; 100]%float 0.001 1 10 0.001 (-0.001)
         struc_grid 0 infinity 0 None 0.01 1.6 (PyInt 12) (PyInt 30)) /\
  paired_diagonal 2 0 [[1; 2]; [3; 4]]%float
    [CallKCGError; CallRadii; CallKCG; CallLaplace]
    (fun struc_grid =>
       ext_theis3D sample_collaborators sample_helpers sample_externals
         (Arr1 [1; 2]%float) [10; 100]%float 0.001 1 10 1 0.001 (-0.001) 1
         struc_grid 0 infinity 0 (KwStr "KH") 0.01 1.6 (PyInt 12)
         (PyInt 30)).
Proof.
  destruct (ext_theis_paired_points_diagonal sample_collaborators
              sample_helpers sample_externals [1; 2]%float [10; 100]%float
              0.001 0.001 1 10 1 0.001 (-0.001) 1 0 infinity 0 None
              (KwStr "KH") 0.01 1.6 (PyInt 12) (PyInt 30) eq_refl)
    as [Hgrid _].
  destruct Hgrid as [H2D H3D]; [simpl; lia|].
  assert (square 2 [[1; 2]; [3; 4]]%float) as Hsq.
  { split; [reflexivity|]. intros row [<-|[<-|[]]]; reflexivity. }
  split.
  - apply (H2D 10%float (Arr1 [0; 10; infinity]%float)
             (Arr1 [10; 10]%float) (Arr1 [0.001; 0.001]%float));
      try reflexivity. exact Hsq.
  - apply (H3D 10%float (Arr1 [0; 10; infinity]%float)
             (Arr1 [10; 10]%float) (Arr1 [0.001; 0.001]%float));
      try reflexivity. exact Hsq.
Defined.

(** ** Calls that return *)

(** The Stehfest routine fails only where the function it inverts fails. *)
Definition stehfest_total (C : Collaborators) : Prop :=
  forall (f : ndarray -> result (list (list float))) (time : list float)
         (bound : Z),
    (forall s, exists g, f s = Ok g) -> exists res, sf C f time bound = Ok res.

Lemma lap_transgwflow_cyl_returns (E : Externals) (s rad : ndarray)
    (R Sl Tl : list float) (Qw : float) :
  (2 <= length Tl)%nat -> length Sl = length Tl ->
  (length Tl + 1 <= length R)%nat ->
  exists g, lap_transgwflow_cyl E s rad (Arr1 R) (Arr1 Sl) (Arr1 Tl) Qw = Ok g.
Proof.
  intros HT HS HR. rewrite lap_transgwflow_cyl_zoned by assumption.
  destruct (lap_multi_zone_run E (length Tl)
              (Qw / (2 * pi * lookup0 Tl 0))%float (squeeze s) (squeeze rad)
              R Sl Tl HT eq_refl HS HR) as (rows & Hrun & _).
  eauto.
Qed.

(** [diskmodel] returns for at least two zones. For arguments that pass
    its checks, one transmissivity and one storativity per zone and one
    zone radius less, the function it hands to the Stehfest routine
    returns for every Laplace point; so the call on a grid returns whenever
    that routine does. The lengths are real preconditions: they are not
    among the checks. *)
Theorem diskmodel_returns (C : Collaborators) (E : Externals) (rad : ndarray)
    (time Tpart Spart Rpart : list float) (Qw : float)
    (rwell rinf hinf : float) (stehfestn : pyval) :
  stehfest_total C ->
  diskmodel_check (elems rad) time Tpart Spart Rpart true rwell rinf
    stehfestn = None ->
  (1 <= length Rpart)%nat -> length Tpart = (length Rpart + 1)%nat ->
  length Spart = length Tpart ->
  exists res,
    diskmodel C E rad time Tpart Spart Rpart Qw true rwell rinf hinf
      stehfestn = ([CallStehfest], Ok res).
Proof.
  intros Hsf Hchk HR HT HS. unfold diskmodel. cbv zeta.
  rewrite elems_squeeze, Hchk.
  destruct (Hsf (fun s =>
                   lap_transgwflow_cyl E s (squeeze rad)
                     (Arr1 ((rwell :: Rpart) ++ [rinf])) (Arr1 Spart)
                     (Arr1 Tpart) Qw) time (int_of stehfestn))
    as (res & ->).
  - intros s. apply lap_transgwflow_cyl_returns; try assumption; try lia.
    rewrite length_app. simpl. lia.
  - simpl. eauto.
Qed.

Lemma diskmodel_returns_witness :
  exists res,
    diskmodel sample_collaborators sample_externals doc_rad [10; 100]%float
      doc_Tpart doc_Spart [2]%float (-1e-3) true 0 infinity 0 (PyInt 12)
    = ([CallStehfest], Ok res).
Proof.
  apply diskmodel_returns; try reflexivity; try (simpl; lia).
  intros f time bound _. eexists. reflexivity.
Defined.

Lemma partition_checks_passed (stehfestn parts : pyval) (err : float)
    (checks checks' : list (bool * string)) :
  first_failure (checks ++ checks' ++ partition_checks stehfestn parts err)
  = None ->
  (2 <= Z.to_nat (int_of parts))%nat.
Proof.
  intros Hnone.
  assert (negb (isinstance_int parts) = false) as Hint.
  { destruct (negb (isinstance_int parts)) eqn:Hb; [|reflexivity].
    exfalso. eapply first_failure_none_inv; [exact Hnone|].
    apply in_or_app. right. apply in_or_app. right.
    unfold partition_checks, raise_if. rewrite Hb. simpl. tauto. }
  assert (isinstance_int parts && (int_of parts <=? 1) = false) as Hle.
  { destruct (isinstance_int parts && (int_of parts <=? 1)) eqn:Hb;
      [|reflexivity].
    exfalso. eapply first_failure_none_inv; [exact Hnone|].
    apply in_or_app. right. apply in_or_app. right.
    unfold partition_checks, raise_if. rewrite Hb. simpl. tauto. }
  apply negb_false_iff in Hint. rewrite Hint in Hle. simpl in Hle.
  apply Z.leb_gt in Hle. lia.
Qed.

(** [ext_theis2D] returns when its helpers are consistent. For arguments
    that pass its checks, when [radii] answers with at least [parts + 1]
    boundaries and [T_CG] with [parts] transmissivities, the function
    handed to the Stehfest routine returns for every Laplace point: the
    checks force at least two zones, and the storativity vector has [parts]
    entries. So the call on a grid makes its four calls and returns
    whenever that routine does. *)
Theorem ext_theis2D_returns (C : Collaborators) (H : Helpers) (E : Externals)
    (rad : ndarray) (time : list float) (TG sig2 corr S Qw : float)
    (rwell rinf hinf : float) (Twell : option float) (T_err prop : float)
    (stehfestn parts : pyval) (rlast : float) (rpart Tpart : list float)
    (fpart : ndarray) :
  stehfest_total C ->
  first_failure
    (ext_theis2D_checks (elems rad) time TG sig2 corr S true rwell rinf
       Twell T_err prop stehfestn parts) = None ->
  T_CG_error H T_err TG sig2 corr prop Twell = Ok rlast ->
  radii H (int_of parts) rwell rinf rlast = Ok (Arr1 rpart, fpart) ->
  T_CG H fpart TG sig2 corr prop Twell = Ok (Arr1 Tpart) ->
  length Tpart = Z.to_nat (int_of parts) ->
  (length Tpart + 1 <= length rpart)%nat ->
  exists res,
    ext_theis2D C H E rad time TG sig2 corr S Qw true rwell rinf hinf Twell
      T_err prop stehfestn parts
    = ([CallTCGError; CallRadii; CallTCG; CallLaplace], Ok res).
Proof.
  intros Hsf Hchk Herr Hradii HT Hlen Hrp. unfold ext_theis2D. cbv zeta.
  rewrite elems_squeeze, Hchk. unfold call_then. rewrite Herr, Hradii, HT.
  pose proof (partition_checks_passed _ _ _ _ _ Hchk) as Hparts.
  destruct (Hsf (fun s =>
                   lap_transgwflow_cyl E s (squeeze rad) (Arr1 rpart)
                     (uniform_storage S parts) (Arr1 Tpart) Qw)
              time (int_of stehfestn)) as (res & ->).
  - intros s. unfold uniform_storage.
    apply lap_transgwflow_cyl_returns; try lia.
    rewrite length_replicate. lia.
  - simpl. eauto.
Qed.

Lemma ext_theis2D_returns_witness :
  exists res,
    ext_theis2D sample_collaborators sample_helpers sample_externals doc_rad
      [10; 100]%float 0.001 1 10 0.001 (-0.001) true 0 infinity 0 None 0.01
      1.6 (PyInt 12) (PyInt 2)
    = ([CallTCGError; CallRadii; CallTCG; CallLaplace], Ok res).
Proof.
  apply (ext_theis2D_returns sample_collaborators sample_helpers
           sample_externals doc_rad [10; 100]%float 0.001 1 10 0.001
           (-0.001) 0 infinity 0 None 0.01 1.6 (PyInt 12) (PyInt 2)
           10 [0; 10; infinity]%float [0.001; 0.001]%float
           (Arr1 [10; 10]%float)); try reflexivity; try (simpl; lia).
  intros f time bound _. eexists. reflexivity.
Defined.

(** [ext_theis3D] returns when its helpers are consistent, as
    [ext_theis2D] does, with [K_CG_error] and [K_CG] in place of
    [T_CG_error] and [T_CG]. *)
Theorem ext_theis3D_returns (C : Collaborators) (H : Helpers) (E : Externals)
    (rad : ndarray) (time : list float) (KG sig2 corr e S Qw L : float)
    (rwell rinf hinf : float) (Kwell : kwell) (K_err prop : float)
    (stehfestn parts : pyval) (rlast : float) (rpart Tpart : list float)
    (fpart : ndarray) :
  stehfest_total C ->
  first_failure
    (ext_theis3D_checks (elems rad) time KG sig2 corr S L true rwell rinf
       Kwell K_err prop stehfestn parts) = None ->
  K_CG_error H K_err KG sig2 corr e prop Kwell = Ok rlast ->
  radii H (int_of parts) rwell rinf rlast = Ok (Arr1 rpart, fpart) ->
  K_CG H fpart KG sig2 corr e prop Kwell = Ok (Arr1 Tpart) ->
  length Tpart = Z.to_nat (int_of parts) ->
  (length Tpart + 1 <= length rpart)%nat ->
  exists res,
    ext_theis3D C H E rad time KG sig2 corr e S Qw L true rwell rinf hinf
      Kwell K_err prop stehfestn parts
    = ([CallKCGError; CallRadii; CallKCG; CallLaplace], Ok res).
Proof.
  intros Hsf Hchk Herr Hradii HT Hlen Hrp. unfold ext_theis3D. cbv zeta.
  rewrite elems_squeeze, Hchk. unfold call_then. rewrite Herr, Hradii, HT.
  pose proof (partition_checks_passed _ _ _ _ _ Hchk) as Hparts.
  destruct (Hsf (fun s =>
                   lap_transgwflow_cyl E s (squeeze rad) (Arr1 rpart)
                     (uniform_storage S parts) (Arr1 Tpart) (Qw / L)%float)
              time (int_of stehfestn)) as (res & ->).
  - intros s. unfold uniform_storage.
    apply lap_transgwflow_cyl_returns; try lia.
    rewrite length_replicate. lia.
  - simpl. eauto.
Qed.

Lemma ext_theis3D_returns_witness :
  exists res,
    ext_theis3D sample_collaborators sample_helpers sample_externals doc_rad
      [10; 100]%float 0.001 1 10 1 0.001 (-0.001) 1 true 0 infinity 0
      (KwStr "KH") 0.01 1.6 (PyInt 12) (PyInt 2)
    = ([CallKCGError; CallRadii; CallKCG; CallLaplace], Ok res).
Proof.
  apply (ext_theis3D_returns sample_collaborators sample_helpers
           sample_externals doc_rad [10; 100]%float 0.001 1 10 1 0.001
           (-0.001) 1 0 infinity 0 (KwStr "KH") 0.01 1.6 (PyInt 12)
           (PyInt 2) 10 [0; 10; infinity]%float [0.001; 0.001]%float
           (Arr1 [10; 10]%float)); try reflexivity; try (simpl; lia).
  intros f time bound _. eexists. reflexivity.
Defined.

(** ** [ext_thiem2D] and [ext_thiem3D] *)

(** The one exception a power of Python floats raises. *)
Lemma python_pow_raises (N : Numerics) (x y : float) (ex : exn) :
  python_pow N x y = Raise ex ->
  ex = OverflowError "(34, 'Numerical result out of range')".
Proof.
  unfold python_pow.
  destruct (is_finite x && is_finite y && is_infinity (py_pow N x y));
    congruence.
Qed.

(** [ext_thiem2D] checks, computes and returns. Every check that fails ends
    the call with a [ValueError] whose message is that of the first check,
    in the order of the source, that failed. When no check fails and the
    powers [(prop/corr)**2] and [Rref**2] of Python floats are in range, the
    call returns one head per radius, in the shape of the squeezed radii,
    with [chi = log(Twell) - log(TG)] for a given [Twell] and
    [chi = -sig2/2] without. When no check fails and one of the two powers
    overflows, its [OverflowError] ends the call. *)
Theorem ext_thiem2D_checks_or_heads (N : Numerics) (rad : ndarray)
    (Rref TG sig2 corr Qw href : float) (Twell : option float)
    (prop : float) :
  let checks := ext_thiem2D_checks (elems rad) Rref TG sig2 corr Twell prop in
  let chi := match Twell with
             | Some t => (np_log N t - np_log N TG)%float
             | None => (- sig2 / 2)%float
             end in
  let Q := (- Qw / (4 * pi * TG))%float in
  (forall msg, In (true, msg) checks ->
     exists msg',
       ext_thiem2D N rad Rref TG sig2 corr Qw href Twell prop
       = Raise (ValueError msg') /\
       first_failing checks msg') /\
  (first_failure checks = None ->
   forall C R2,
   python_pow N (prop / corr)%float 2%float = Ok C ->
   python_pow N Rref 2%float = Ok R2 ->
   exists res,
     ext_thiem2D N rad Rref TG sig2 corr Qw href Twell prop = Ok res /\
     shape res = shape (squeeze rad) /\
     forall i r, elems rad !! i = Some r ->
       elems res !! i = Some (ext_thiem2D_head N Rref chi Q C href r)) /\
  (first_failure checks = None ->
   forall ex,
   python_pow N (prop / corr)%float 2%float = Raise ex \/
   python_pow N Rref 2%float = Raise ex ->
   ext_thiem2D N rad Rref TG sig2 corr Qw href Twell prop = Raise ex /\
   ex = OverflowError "(34, 'Numerical result out of range')").
Proof.
  intros checks chi Q. unfold ext_thiem2D. rewrite elems_squeeze.
  fold checks. split; [|split].
  - intros msg Hin.
    destruct (first_failure_some _ _ Hin) as (msg' & -> & Hin').
    exists msg'. auto.
  - intros -> C R2 -> ->. simpl bind. eexists. split; [reflexivity|].
    split; [apply shape_nd_map|].
    intros i r Hi. rewrite elems_nd_map, elems_squeeze, lookup_map, Hi.
    reflexivity.
  - intros -> ex Hex.
    assert (ex = OverflowError "(34, 'Numerical result out of range')")
      as -> by (destruct Hex as [Hex|Hex];
                exact (python_pow_raises _ _ _ _ Hex)).
    split; [|reflexivity].
    destruct (python_pow N (prop / corr) 2) as [C|ex1] eqn:HC; simpl bind.
    + destruct Hex as [Hex|Hex]; [discriminate|]. now rewrite Hex.
    + now rewrite (python_pow_raises _ _ _ _ HC).
Qed.

Lemma ext_thiem2D_checks_or_heads_witness :
  exists res,
    ext_thiem2D sample_numerics doc_rad 10 0.001 1 10 (-0.001) 0 None 1.6
    = Ok res /\
    shape res = shape (squeeze doc_rad) /\
    forall i r, elems doc_rad !! i = Some r ->
      elems res !! i
      = Some (ext_thiem2D_head sample_numerics 10 (- 1 / 2)
                (- -0.001 / (4 * pi * 0.001))
                (py_pow sample_numerics (1.6 / 10) 2) 0 r).
Proof.
  apply (proj1 (proj2 (ext_thiem2D_checks_or_heads sample_numerics doc_rad 10
                         0.001 1 10 (-0.001) 0 None 1.6))
           eq_refl _ (py_pow sample_numerics 10 2) eq_refl eq_refl).
Defined.

(** A reference radius whose square is out of range: the call ends with
    the [OverflowError] of [Rref**2]. *)
Example ext_thiem2D_reference_radius_overflow :
  ext_thiem2D sample_numerics doc_rad 1e200 0.001 1 10 (-0.001) 0 None 1.6
  = Raise (OverflowError "(34, 'Numerical result out of range')").
Proof. reflexivity. Qed.

(** [ext_thiem3D] checks, computes and returns. Every check that fails ends
    the call with a [ValueError] whose message is that of the first check,
    in the order of the source, that failed: a well conductivity that is
    neither ['KA'], ['KH'] nor a float (an integer, say) is among them. When
    no check fails, [aniso] answers [a] and the powers [e**(1/3)],
    [(prop/corr/e**(1/3))**2] and [Rref**2] of Python floats are in range,
    the call returns one head per radius in the shape of the squeezed
    radii, with [Kefu = KG*exp(sig2*(0.5 - a))] and with
    [chi = sig2*(a - 1)] for ['KH'], [chi = sig2*a] for ['KA'] and
    [chi = log(Kwell) - log(Kefu)] for a float. When [aniso] raises, so does
    the call; when [aniso] answers and one of the powers overflows, its
    [OverflowError] ends the call. *)
Theorem ext_thiem3D_checks_or_heads (N : Numerics) (H : Helpers)
    (rad : ndarray) (Rref KG sig2 corr e Qw L href : float) (Kwell : kwell)
    (prop : float) :
  let checks :=
    ext_thiem3D_checks (elems rad) Rref KG sig2 corr e L Kwell prop in
  (forall msg, In (true, msg) checks ->
     exists msg',
       ext_thiem3D N H rad Rref KG sig2 corr e Qw L href Kwell prop
       = Raise (ValueError msg') /\
       first_failing checks msg') /\
  (kwell_is Kwell "KA" = false -> kwell_is Kwell "KH" = false ->
   kwell_float Kwell = false ->
   exists msg,
     ext_thiem3D N H rad Rref KG sig2 corr e Qw L href Kwell prop
     = Raise (ValueError msg)) /\
  (first_failure checks = None ->
   forall a, aniso H e = Ok a ->
   forall p C R2,
   python_pow N e (1 / 3)%float = Ok p ->
   python_pow N (prop / corr / p)%float 2%float = Ok C ->
   python_pow N Rref 2%float = Ok R2 ->
   let Kefu := (KG * np_exp N (sig2 * (0.5 - a)))%float in
   let chi :=
     if kwell_is Kwell "KH" then (sig2 * (a - 1))%float
     else if kwell_is Kwell "KA" then (sig2 * a)%float
     else match Kwell with
          | KwFloat k => (np_log N k - np_log N Kefu)%float
          | _ => nan
          end in
   let Q := (- Qw / (2 * pi * Kefu))%float in
   let pw := match squeeze rad with
             | Arr0 _ => scalar_power N
             | Arr1 _ => np_power N
             end in
   exists res,
     ext_thiem3D N H rad Rref KG sig2 corr e Qw L href Kwell prop = Ok res /\
     shape res = shape (squeeze rad) /\
     forall i r, elems rad !! i = Some r ->
       elems res !! i = Some (ext_thiem3D_head N pw Rref chi Q C href r)) /\
  (first_failure checks = None ->
   forall ex, aniso H e = Raise ex ->
   ext_thiem3D N H rad Rref KG sig2 corr e Qw L href Kwell prop = Raise ex) /\
  (first_failure checks = None ->
   forall a, aniso H e = Ok a ->
   forall ex,
   python_pow N e (1 / 3)%float = Raise ex \/
   (exists p, python_pow N e (1 / 3)%float = Ok p /\
              python_pow N (prop / corr / p)%float 2%float = Raise ex) \/
   python_pow N Rref 2%float = Raise ex ->
   ext_thiem3D N H rad Rref KG sig2 corr e Qw L href Kwell prop = Raise ex /\
   ex = OverflowError "(34, 'Numerical result out of range')").
Proof.
  intros checks.
  assert (forall msg, In (true, msg) checks ->
            exists msg',
              ext_thiem3D N H rad Rref KG sig2 corr e Qw L href Kwell prop
              = Raise (ValueError msg') /\
              first_failing checks msg') as Hraise.
  { intros msg Hin. unfold ext_thiem3D. rewrite elems_squeeze. fold checks.
    destruct (first_failure_some _ _ Hin) as (msg' & -> & Hin').
    exists msg'. auto. }
  assert (first_failure checks = None ->
          negb (kwell_is Kwell "KA") && negb (kwell_is Kwell "KH")
          && negb (kwell_float Kwell) = false) as Hkwell.
  { intros Hnone.
    destruct (negb (kwell_is Kwell "KA") && negb (kwell_is Kwell "KH")
              && negb (kwell_float Kwell)) eqn:Hb; [|reflexivity].
    exfalso. eapply first_failure_none_inv; [exact Hnone|].
    unfold checks, ext_thiem3D_checks, raise_if. rewrite Hb.
    simpl. tauto. }
  split; [exact Hraise|]. split; [|split; [|split]].
  - intros HKA HKH Hfl.
    destruct (Hraise
      "The well-conductivity should be given as float or 'KA' resp 'KH'"%string)
      as (msg & Hrun & _); [|eauto].
    unfold checks, ext_thiem3D_checks, raise_if. rewrite HKA, HKH, Hfl.
    simpl. tauto.
  - intros Hnone a Ha p C R2 Hp HC HR. pose proof (Hkwell Hnone) as Hk.
    unfold ext_thiem3D. rewrite elems_squeeze.
    fold checks. rewrite Hnone, Ha.
    remember (1 / 3)%float as third eqn:Hthird in *. simpl bind.
    assert (forall f : float -> float,
              shape (nd_map f (squeeze rad)) = shape (squeeze rad) /\
              forall i r, elems rad !! i = Some r ->
                elems (nd_map f (squeeze rad)) !! i = Some (f r)) as Hmap.
    { intros f. split; [apply shape_nd_map|]. intros i r Hi.
      now rewrite elems_nd_map, elems_squeeze, lookup_map, Hi. }
    destruct (kwell_is Kwell "KH") eqn:HKH;
      [|destruct (kwell_is Kwell "KA") eqn:HKA;
        [|destruct Kwell as [name|k|]; simpl in Hk; try discriminate]];
      simpl bind; rewrite Hp; simpl bind; rewrite HC; simpl bind;
      rewrite HR; simpl bind; cbv zeta; eexists;
      (split; [reflexivity | apply Hmap]).
  - intros Hnone ex Hex. unfold ext_thiem3D. rewrite elems_squeeze.
    fold checks. rewrite Hnone, Hex. reflexivity.
  - intros Hnone a Ha ex Hex. pose proof (Hkwell Hnone) as Hk.
    assert (ex = OverflowError "(34, 'Numerical result out of range')")
      as -> by (destruct Hex as [Hex|[(p & _ & Hex)|Hex]];
                exact (python_pow_raises _ _ _ _ Hex)).
    split; [|reflexivity].
    unfold ext_thiem3D. rewrite elems_squeeze.
    fold checks. rewrite Hnone, Ha. simpl bind.
    assert (forall B (k : float -> result B),
              (forall p, python_pow N e (1 / 3) = Ok p ->
                 forall C, python_pow N (prop / corr / p) 2 = Ok C ->
                 forall R2, python_pow N Rref 2 = Ok R2 -> False) ->
              (let* p := python_pow N e (1 / 3)%float in
               let* C := python_pow N (prop / corr / p)%float 2%float in
               let* _ := python_pow N Rref 2%float in k C)
              = Raise (OverflowError "(34, 'Numerical result out of range')"))
      as Hpow.
    { intros B k Hno.
      destruct (python_pow N e (1 / 3)) as [p|ex1] eqn:Hp; simpl bind;
        [|now rewrite (python_pow_raises _ _ _ _ Hp)].
      destruct (python_pow N (prop / corr / p) 2) as [C|ex1] eqn:HC;
        simpl bind; [|now rewrite (python_pow_raises _ _ _ _ HC)].
      destruct (python_pow N Rref 2) as [R2|ex1] eqn:HR; simpl bind;
        [|now rewrite (python_pow_raises _ _ _ _ HR)].
      destruct (Hno p eq_refl C HC R2 eq_refl). }
    assert (forall p, python_pow N e (1 / 3) = Ok p ->
              forall C, python_pow N (prop / corr / p) 2 = Ok C ->
              forall R2, python_pow N Rref 2 = Ok R2 -> False) as Hno.
    { intros p Hp C HC R2 HR.
      destruct Hex as [Hex|[(p' & Hp' & Hex)|Hex]]; congruence. }
    destruct (kwell_is Kwell "KH") eqn:HKH;
      [|destruct (kwell_is Kwell "KA") eqn:HKA;
        [|destruct Kwell as [name|k|]; simpl in Hk; try discriminate]];
      simpl bind; cbv zeta; apply Hpow; exact Hno.
Qed.

Lemma ext_thiem3D_checks_or_heads_witness :
  exists res,
    ext_thiem3D sample_numerics sample_helpers doc_rad 10 0.001 1 10 1
      (-0.001) 1 0 (KwStr "KH") 1.6 = Ok res /\
    shape res = shape (squeeze doc_rad) /\
    forall i r, elems doc_rad !! i = Some r ->
      elems res !! i
      = Some (ext_thiem3D_head sample_numerics (np_power sample_numerics) 10
                (1 * (0.5 - 1))
                (- -0.001
                 / (2 * pi
                    * (0.001 * np_exp sample_numerics (1 * (0.5 - 0.5)))))
                (py_pow sample_numerics
                   (1.6 / 10 / py_pow sample_numerics 1 (1 / 3)) 2)
                0 r).
Proof.
  apply (proj1 (proj2 (proj2 (ext_thiem3D_checks_or_heads sample_numerics
                                sample_helpers doc_rad 10 0.001 1 10 1
                                (-0.001) 1 0 (KwStr "KH") 1.6)))
           eq_refl 0.5%float eq_refl
           (py_pow sample_numerics 1 (1 / 3)) _
           (py_pow sample_numerics 10 2) eq_refl eq_refl eq_refl).
Defined.

(** A reference radius whose square is out of range: the call ends with
    the [OverflowError] of [Rref**2]. *)
Example ext_thiem3D_reference_radius_overflow :
  ext_thiem3D sample_numerics sample_helpers doc_rad 1e200 0.001 1 10 1
    (-0.001) 1 0 (KwStr "KH") 1.6
  = Raise (OverflowError "(34, 'Numerical result out of range')").
Proof. reflexivity. Qed.

(** The aquifer thickness [L] is checked by [ext_thiem3D] and then left
    out of the computation: two positive thicknesses give the same
    result. *)
Theorem ext_thiem3D_thickness_unused (N : Numerics) (H : Helpers)
    (rad : ndarray) (Rref KG sig2 corr e Qw L L' href : float)
    (Kwell : kwell) (prop : float) :
  (L <=? 0)%float = false -> (L' <=? 0)%float = false ->
  ext_thiem3D N H rad Rref KG sig2 corr e Qw L href Kwell prop
  = ext_thiem3D N H rad Rref KG sig2 corr e Qw L' href Kwell prop.
Proof.
  intros HL HL'. unfold ext_thiem3D, ext_thiem3D_checks.
  now rewrite HL, HL'.
Qed.

Lemma ext_thiem3D_thickness_unused_witness :
  ext_thiem3D sample_numerics sample_helpers doc_rad 10 0.001 1 10 1
    (-0.001) 1 0 (KwStr "KH") 1.6
  = ext_thiem3D sample_numerics sample_helpers doc_rad 10 0.001 1 10 1
      (-0.001) 50 0 (KwStr "KH") 1.6.
Proof. apply ext_thiem3D_thickness_unused; reflexivity. Defined.

(** An integer well conductivity is rejected, a float is accepted. *)
Example ext_thiem3D_rejects_integer_conductivity :
  ext_thiem3D sample_numerics sample_helpers doc_rad 10 0.001 1 10 1
    (-0.001) 1 0 KwOther 1.6
  = Raise (ValueError
      "The well-conductivity should be given as float or 'KA' resp 'KH'").
Proof. reflexivity. Qed.

(** Arguments that are not numbers pass the checks of [thiem], which are
    comparisons with zero. *)
Example thiem_accepts_nan :
  thiem sample_numerics (Arr1 [1; nan]%float) nan nan (-0.001) 0
  = Ok (Arr1 [nan; nan]).
Proof. reflexivity. Qed.

(** ** Arguments of [thiem] that are not numbers *)

Section NotANumber.
Local Open Scope float_scope.

(** Not-a-number is the one value that does not compare equal to itself. *)
Lemma eqb_self_false (x : float) : (x =? x) = false <-> Prim2SF x = S754_nan.
Proof.
  rewrite FloatAxioms.eqb_spec. unfold SFeqb.
  destruct (Prim2SF x) as [s|s| |s m e]; simpl.
  - split; discriminate.
  - destruct s; split; discriminate.
  - split; reflexivity.
  - destruct s; rewrite Z.compare_refl, Pos.compare_cont_refl;
      split; discriminate.
Qed.

Lemma leb_nan_r (a x : float) : Prim2SF x = S754_nan -> (x <=? a) = false.
Proof.
  intros Hx. rewrite FloatAxioms.leb_spec, Hx. reflexivity.
Qed.

Lemma mul_nan_r (a x : float) :
  Prim2SF x = S754_nan -> Prim2SF (a * x) = S754_nan.
Proof.
  intros Hx. rewrite mul_spec, Hx. unfold SF64mul.
  now destruct (Prim2SF a).
Qed.

Lemma mul_nan_l (a x : float) :
  Prim2SF x = S754_nan -> Prim2SF (x * a) = S754_nan.
Proof. intros Hx. rewrite mul_spec, Hx. reflexivity. Qed.

Lemma div_nan_r (a x : float) :
  Prim2SF x = S754_nan -> Prim2SF (a / x) = S754_nan.
Proof.
  intros Hx. rewrite div_spec, Hx. unfold SF64div.
  now destruct (Prim2SF a).
Qed.

Lemma add_nan_l (a x : float) :
  Prim2SF x = S754_nan -> Prim2SF (x + a) = S754_nan.
Proof. intros Hx. rewrite add_spec, Hx. reflexivity. Qed.
End NotANumber.

(** A transmissivity that is not a number is not rejected by [thiem]: its
    check [T <= 0.0] is false. With a valid reference radius and valid
    radii the call returns, and every head it returns is not a number. *)
Theorem thiem_nan_transmissivity (N : Numerics) (rad : ndarray)
    (Rref T Qw href : float) :
  (T =? T)%float = false ->
  (Rref <=? 0)%float = false ->
  (forall r, In r (elems rad) -> (r <=? 0)%float = false) ->
  exists res,
    thiem N rad Rref T Qw href = Ok res /\
    length (elems res) = length (elems rad) /\
    forall h, In h (elems res) -> (h =? h)%float = false.
Proof.
  intros HT HR Hrad. apply eqb_self_false in HT.
  unfold thiem. rewrite elems_squeeze.
  assert (existsb (fun r => r <=? 0)%float (elems rad) = false) as Hex.
  { destruct (existsb _ _) eqn:Hx; [|reflexivity].
    apply existsb_exists in Hx as (r & Hr & Hle).
    now rewrite (Hrad r Hr) in Hle. }
  unfold thiem_checks, raise_if. simpl.
  rewrite HR, Hex, (leb_nan_r 0 T HT).
  eexists. split; [reflexivity|].
  rewrite elems_nd_map, elems_squeeze. split; [apply length_map|].
  intros h Hh. apply in_map_iff in Hh as (r & <- & _).
  apply eqb_self_false. unfold thiem_head.
  now apply add_nan_l, mul_nan_l, div_nan_r, mul_nan_r.
Qed.

Lemma thiem_nan_transmissivity_witness :
  exists res,
    thiem sample_numerics doc_rad 10 nan (-0.001) 0 = Ok res /\
    length (elems res) = length (elems doc_rad) /\
    forall h, In h (elems res) -> (h =? h)%float = false.
Proof.
  apply thiem_nan_transmissivity; try reflexivity.
  intros r [<-|[<-|[<-|[]]]]; reflexivity.
Defined.

(** ** The reference head of [ext_thiem3D] *)

Section Zeros.
Local Open Scope float_scope.

(** [x] is one of the two zeros. *)
Definition is_zero (x : float) : Prop := exists s, Prim2SF x = S754_zero s.

(** A finite number minus itself is the positive zero. *)
Lemma sub_self (x : float) : is_finite x = true -> x - x = 0.
Proof.
  intros Hf. apply Prim2SF_inj. rewrite sub_spec.
  rewrite is_finite_spec in Hf. unfold SF64sub.
  destruct (Prim2SF x) as [s|s| |s m e]; try discriminate.
  - destruct s; reflexivity.
  - unfold SFsub. rewrite Z.sub_diag. reflexivity.
Qed.

Lemma is_zero_zero : is_zero 0.
Proof. exists false. reflexivity. Qed.

Lemma is_zero_mul_l (z c : float) :
  is_zero z -> is_finite c = true -> is_zero (z * c).
Proof.
  intros [s Hz] Hf. rewrite is_finite_spec in Hf. unfold is_zero.
  rewrite mul_spec, Hz. unfold SF64mul.
  destruct (Prim2SF c) as [sc|sc| |sc mc ec]; try discriminate; simpl; eauto.
Qed.

Lemma is_zero_mul_r (z c : float) :
  is_zero z -> is_finite c = true -> is_zero (c * z).
Proof.
  intros [s Hz] Hf. rewrite is_finite_spec in Hf. unfold is_zero.
  rewrite mul_spec, Hz. unfold SF64mul.
  destruct (Prim2SF c) as [sc|sc| |sc mc ec]; try discriminate; simpl; eauto.
Qed.

Lemma is_zero_add (z z' : float) : is_zero z -> is_zero z' -> is_zero (z + z').
Proof.
  intros [s Hz] [s' Hz']. unfold is_zero.
  rewrite add_spec, Hz, Hz'. unfold SF64add.
  destruct s, s'; simpl; eauto.
Qed.

Lemma is_zero_add_eqb (z h : float) :
  is_zero z -> (h =? h) = true -> (z + h =? h) = true.
Proof. intros [s Hz]. now apply add_zero_eqb with s. Qed.
End Zeros.

(** [ext_thiem3D] meets the reference head at the reference radius. The
    head of a radius equal to [Rref] compares equal to [href] when every
    term that is subtracted from itself there is finite (the logarithms,
    the reciprocals and the quotients by the powers of [sub11]), the
    factors [exp(-chi)], [sinh(chi)], [1 - cosh(chi)] and [Q] are finite,
    [href] is a number, and the power operators of numpy and of Python
    agree at the arguments they are applied to. *)
Theorem ext_thiem3D_reference_head (N : Numerics)
    (pw : float -> float -> float) (Rref chi Q C href : float) :
  let sub11 := sqrt (1 + C * py_pow N Rref 2)%float in
  np_power N Rref 2%float = py_pow N Rref 2%float ->
  pw sub11 2%float = scalar_power N sub11 2%float ->
  pw sub11 4%float = scalar_power N sub11 4%float ->
  Forall (fun x => is_finite x = true)
    [ np_log N (sub11 + 1); 1 / sub11; np_log N sub11;
      0.5 / scalar_power N sub11 2; 0.25 / scalar_power N sub11 4;
      np_log N Rref; np_exp N (- chi); np_sinh N chi; 1 - np_cosh N chi;
      Q ]%float ->
  (href =? href)%float = true ->
  (ext_thiem3D_head N pw Rref chi Q C href Rref =? href)%float = true.
Proof.
  intros sub11 Hpow Hpw2 Hpw4 Hfin Hh.
  repeat match goal with
         | H : Forall _ (_ :: _) |- _ =>
             let Hx := fresh "Hx" in
             apply Forall_cons_iff in H as [Hx H]
         end.
  unfold ext_thiem3D_head. cbv zeta. rewrite Hpow. fold sub11.
  rewrite Hpw2, Hpw4.
  rewrite (sub_self _ Hx), (sub_self _ Hx0), (sub_self _ Hx1),
    (sub_self _ Hx2), (sub_self _ Hx3), (sub_self _ Hx4).
  change (0 - 0 - 0)%float with 0%float.
  change (0 - 0)%float with 0%float.
  apply is_zero_add_eqb; [|exact Hh].
  apply is_zero_mul_l; [|assumption].
  apply is_zero_add.
  - apply is_zero_mul_r; [apply is_zero_zero | assumption].
  - apply is_zero_add; apply is_zero_mul_l;
      try apply is_zero_zero; assumption.
Qed.

Lemma ext_thiem3D_reference_head_witness :
  (ext_thiem3D_head sample_numerics (np_power sample_numerics) 10 (-0.5)
     0.1 0.0256 0.5 10 =? 0.5)%float = true.
Proof.
  apply ext_thiem3D_reference_head; try reflexivity.
  repeat constructor.
Defined.

(** ** The well condition without a well radius *)

(** For at least two zones and an inner boundary [rpart[0]] that is not
    positive (the default [rwell = 0.0]), the first row of the matrix of
    every Laplace point holds a one in column [1] and zeros elsewhere, and
    the right-hand side is [Q/se] followed by zeros: the first equation
    sets the K0-coefficient of the first zone to [Q/se]. *)
Theorem well_row_without_well_radius (E : Externals) (parts : nat)
    (Q : float) (R Cs tmp : list float) (se : float) (Mb : band)
    (V : list float) :
  (2 <= parts)%nat -> length R = (parts + 1)%nat -> length Cs = parts ->
  length tmp = (parts - 1)%nat ->
  system_inv parts R Mb V ->
  (0 <? lookup0 R 0)%float = false ->
  exists Mb' V',
    assemble_system E parts Q (Arr1 R) Cs tmp se Mb V = Ok (Mb', V') /\
    spdiags_entry Mb' 0 1 = 1%float /\
    (forall j, (j < 2 * parts)%nat -> j <> 1%nat ->
       spdiags_entry Mb' 0 j = 0%float) /\
    lookup0 V' 0 = (Q / se)%float /\
    (forall j, (1 <= j)%nat -> lookup0 V' j = 0%float).
Proof.
  intros Hp HR HCs Htmp Hinv Hr0.
  destruct (assemble_system_inv E parts Q R Cs tmp se Mb V Hp) as
    (Mb' & Hrun & Hinv' & G); try assumption; try lia.
  replace (length R - 1)%nat with parts in G by lia.
  exists Mb', (<[0%nat := (Q / se)%float]> V).
  split; [exact Hrun|].
  destruct Hinv as (Hs & HV & HV0 & H20 & H4 & Hin & Hout).
  destruct (Hin Hr0) as [H11 H02].
  split; [|split; [|split]].
  - rewrite (spdiags_entry_band Mb' 0 1 1) by lia. frame_cell G.
    rewrite Hr0, H11. destruct (lookup0 R parts <? infinity)%float; cases_eqb.
  - intros j Hj Hj1.
    destruct (Nat.eq_dec j 0%nat) as [->|Hj0];
      [|destruct (Nat.eq_dec j 2%nat) as [->|Hj2]].
    + rewrite (spdiags_entry_band Mb' 0 0 2) by lia. frame_cell G.
      rewrite Hr0, H20.
      destruct (lookup0 R parts <? infinity)%float; cases_eqb.
    + rewrite (spdiags_entry_band Mb' 0 2 0) by lia. frame_cell G.
      rewrite Hr0, H02.
      destruct (lookup0 R parts <? infinity)%float; cases_eqb.
    + apply spdiags_entry_off. lia.
  - rewrite lookup0_insert by lia. reflexivity.
  - intros j Hj. rewrite lookup0_insert_ne by lia. now apply HV0.
Qed.

Lemma well_row_without_well_radius_witness :
  exists Mb' V',
    assemble_system sample_externals 2 (-1)%float (Arr1 doc_rpart)
      [1; 1]%float [1]%float 5%float start_Mb start_V = Ok (Mb', V') /\
    spdiags_entry Mb' 0 1 = 1%float /\
    (forall j, (j < 2 * 2)%nat -> j <> 1%nat ->
       spdiags_entry Mb' 0 j = 0%float) /\
    lookup0 V' 0 = (-1 / 5)%float /\
    (forall j, (1 <= j)%nat -> lookup0 V' j = 0%float).
Proof.
  apply well_row_without_well_radius; try reflexivity; try lia.
  repeat split; try reflexivity.
  - intros [|[|[|[|[|k]]]]] row H; simpl in H; inversion H; reflexivity.
  - intros [|[|[|[|j]]]] Hj; try lia; reflexivity.
Defined.
